(** * Verification of the disk-queue reader of nsqd
    (nsqd/diskqueue_reader.go)

    The reader streams length-prefixed messages out of a sequence of
    append-only data files and keeps three positions into that stream: the
    read position, the confirmed position and the writer-declared end.
    This file embeds the offset algebra, the control operations, the
    metadata persistence and the loop of the I/O engine as Rocq
    functions, and proves the properties the specification states about
    them. *)

From Stdlib Require Import ZArith List String Ascii Bool Lia.
From Stdlib Require Import Decimal DecimalString DecimalZ.
From Stdlib Require Import Strings.Byte.
Import ListNotations.

Local Open Scope Z_scope.

(* ================================================================== *)
(** * Machine integers *)
(* ================================================================== *)

(** Go's [int64] and [int32] are modelled as [Z]; every arithmetic
    operation of the source is followed by the wrap-around the hardware
    performs. *)

Definition min_int64 : Z := - 2 ^ 63.
Definition max_int64 : Z := 2 ^ 63 - 1.

Definition int64 (z : Z) : Prop := min_int64 <= z <= max_int64.

Definition int64b (z : Z) : bool := (min_int64 <=? z) && (z <=? max_int64).

Definition wrap64 (z : Z) : Z := (z + 2 ^ 63) mod 2 ^ 64 - 2 ^ 63.

Definition add64 (a b : Z) : Z := wrap64 (a + b).

Definition sub64 (a b : Z) : Z := wrap64 (a - b).

Definition wrap32 (z : Z) : Z := (z + 2 ^ 31) mod 2 ^ 32 - 2 ^ 31.

Definition add32 (a b : Z) : Z := wrap32 (a + b).

(* ================================================================== *)
(** * Errors and results *)
(* ================================================================== *)

(** The three package-level error values, the error made by
    [errors.New("exiting")], the errors made with [fmt.Errorf], and the
    errors the operating system and the [io] and [fmt] packages hand
    back. *)
Inductive error : Type :=
| ErrConfirmSizeInvalid
| ErrMoveOffsetInvalid
| ErrOffsetTypeMismatch
| ErrExiting
| ErrOffsetInvalid
| ErrInvalidMsgSize (msgSize : Z)
| ErrNotExist
| ErrPermission
| ErrEOF
| ErrUnexpectedEOF
| ErrScan.

(** A Go function returning [(T, error)] whose callers use the value only
    when the error is nil. *)
Inductive result (A : Type) : Type :=
| Ok (a : A)
| Err (e : error).

Arguments Ok {A} a.
Arguments Err {A} e.

(* ================================================================== *)
(** * Data model *)
(* ================================================================== *)

(** Modelled from the spec: the declaration of [BackendOffset] is not in
    the source file; the spec describes the virtual offset as a single
    signed 64-bit count. *)
Definition BackendOffset : Type := Z.

Record diskQueueEndInfo : Type := mkEndInfo {
  EndFileNum : Z;
  EndPos : Z;
  VirtualEnd : BackendOffset;
  TotalMsgCnt : Z
}.

Record diskQueueOffset : Type := mkOffset {
  FileNum : Z;
  Pos : Z
}.

Definition set_FileNum (v : Z) (o : diskQueueOffset) : diskQueueOffset :=
  mkOffset v (Pos o).

Definition set_Pos (v : Z) (o : diskQueueOffset) : diskQueueOffset :=
  mkOffset (FileNum o) v.

(** [func (d *diskQueueOffset) GreatThan(o *diskQueueOffset) bool] *)
Definition GreatThan (d o : diskQueueOffset) : bool :=
  if FileNum d >? FileNum o then true
  else if (FileNum d =? FileNum o) && (Pos d >? Pos o) then true
  else false.

(** Go's [==] on two [diskQueueOffset] values. *)
Definition offset_eqb (a b : diskQueueOffset) : bool :=
  (FileNum a =? FileNum b) && (Pos a =? Pos b).

(** The lexicographic order on [(fileNum, pos)] the specification
    refers to. *)
Definition offset_lt (a b : diskQueueOffset) : Prop :=
  FileNum a < FileNum b \/ (FileNum a = FileNum b /\ Pos a < Pos b).

Definition offset_le (a b : diskQueueOffset) : Prop :=
  FileNum a < FileNum b \/ (FileNum a = FileNum b /\ Pos a <= Pos b).

(** The open data file: the [*os.File] in [readFile] together with the
    [bufio.Reader] wrapped around it.  [hFileNum] is the number of the
    file that was opened, [hCursor] the position of the next byte the
    buffered reader hands out. *)
Record fileHandle : Type := mkHandle {
  hFileNum : Z;
  hCursor : Z
}.

(** The fields of [diskQueueReader] in the order of the source; the
    embedded mutex and the channels belong to the control plane and are
    modelled by [call] and [event] below. *)
Record diskQueueReader : Type := mkReader {
  readPos : diskQueueOffset;
  endPos : diskQueueOffset;
  virtualReadOffset : BackendOffset;
  virtualEnd : BackendOffset;
  depth : Z;
  totalMsgCnt : Z;
  readerMetaName : string;
  readFrom : string;
  dataPath : string;
  maxBytesPerFile : Z;
  minMsgSize : Z;
  maxMsgSize : Z;
  syncEvery : Z;
  syncTimeout : Z;
  exitFlag : Z;
  needSync : bool;
  nextReadPos : diskQueueOffset;
  confirmedOffset : diskQueueOffset;
  virtualConfirmedOffset : BackendOffset;
  readFile : option fileHandle;
  autoSkipError : bool;
  maxConfirmWin : BackendOffset
}.

Definition set_readPos (v : diskQueueOffset) (d : diskQueueReader) :
  diskQueueReader :=
  mkReader v (endPos d) (virtualReadOffset d) (virtualEnd d) (depth d)
    (totalMsgCnt d) (readerMetaName d) (readFrom d) (dataPath d)
    (maxBytesPerFile d) (minMsgSize d) (maxMsgSize d) (syncEvery d)
    (syncTimeout d) (exitFlag d) (needSync d) (nextReadPos d)
    (confirmedOffset d) (virtualConfirmedOffset d) (readFile d)
    (autoSkipError d) (maxConfirmWin d).

Definition set_endPos (v : diskQueueOffset) (d : diskQueueReader) :
  diskQueueReader :=
  mkReader (readPos d) v (virtualReadOffset d) (virtualEnd d) (depth d)
    (totalMsgCnt d) (readerMetaName d) (readFrom d) (dataPath d)
    (maxBytesPerFile d) (minMsgSize d) (maxMsgSize d) (syncEvery d)
    (syncTimeout d) (exitFlag d) (needSync d) (nextReadPos d)
    (confirmedOffset d) (virtualConfirmedOffset d) (readFile d)
    (autoSkipError d) (maxConfirmWin d).

Definition set_virtualReadOffset (v : BackendOffset) (d : diskQueueReader) :
  diskQueueReader :=
  mkReader (readPos d) (endPos d) v (virtualEnd d) (depth d) (totalMsgCnt d)
    (readerMetaName d) (readFrom d) (dataPath d) (maxBytesPerFile d)
    (minMsgSize d) (maxMsgSize d) (syncEvery d) (syncTimeout d) (exitFlag d)
    (needSync d) (nextReadPos d) (confirmedOffset d) (virtualConfirmedOffset d)
    (readFile d) (autoSkipError d) (maxConfirmWin d).

Definition set_virtualEnd (v : BackendOffset) (d : diskQueueReader) :
  diskQueueReader :=
  mkReader (readPos d) (endPos d) (virtualReadOffset d) v (depth d)
    (totalMsgCnt d) (readerMetaName d) (readFrom d) (dataPath d)
    (maxBytesPerFile d) (minMsgSize d) (maxMsgSize d) (syncEvery d)
    (syncTimeout d) (exitFlag d) (needSync d) (nextReadPos d)
    (confirmedOffset d) (virtualConfirmedOffset d) (readFile d)
    (autoSkipError d) (maxConfirmWin d).

Definition set_totalMsgCnt (v : Z) (d : diskQueueReader) :
  diskQueueReader :=
  mkReader (readPos d) (endPos d) (virtualReadOffset d) (virtualEnd d)
    (depth d) v (readerMetaName d) (readFrom d) (dataPath d) (maxBytesPerFile d)
    (minMsgSize d) (maxMsgSize d) (syncEvery d) (syncTimeout d) (exitFlag d)
    (needSync d) (nextReadPos d) (confirmedOffset d) (virtualConfirmedOffset d)
    (readFile d) (autoSkipError d) (maxConfirmWin d).

Definition set_exitFlag (v : Z) (d : diskQueueReader) :
  diskQueueReader :=
  mkReader (readPos d) (endPos d) (virtualReadOffset d) (virtualEnd d)
    (depth d) (totalMsgCnt d) (readerMetaName d) (readFrom d) (dataPath d)
    (maxBytesPerFile d) (minMsgSize d) (maxMsgSize d) (syncEvery d)
    (syncTimeout d) v (needSync d) (nextReadPos d) (confirmedOffset d)
    (virtualConfirmedOffset d) (readFile d) (autoSkipError d) (maxConfirmWin d).

Definition set_needSync (v : bool) (d : diskQueueReader) :
  diskQueueReader :=
  mkReader (readPos d) (endPos d) (virtualReadOffset d) (virtualEnd d)
    (depth d) (totalMsgCnt d) (readerMetaName d) (readFrom d) (dataPath d)
    (maxBytesPerFile d) (minMsgSize d) (maxMsgSize d) (syncEvery d)
    (syncTimeout d) (exitFlag d) v (nextReadPos d) (confirmedOffset d)
    (virtualConfirmedOffset d) (readFile d) (autoSkipError d) (maxConfirmWin d).

Definition set_confirmedOffset (v : diskQueueOffset) (d : diskQueueReader) :
  diskQueueReader :=
  mkReader (readPos d) (endPos d) (virtualReadOffset d) (virtualEnd d)
    (depth d) (totalMsgCnt d) (readerMetaName d) (readFrom d) (dataPath d)
    (maxBytesPerFile d) (minMsgSize d) (maxMsgSize d) (syncEvery d)
    (syncTimeout d) (exitFlag d) (needSync d) (nextReadPos d) v
    (virtualConfirmedOffset d) (readFile d) (autoSkipError d) (maxConfirmWin d).

Definition set_virtualConfirmedOffset (v : BackendOffset) (d : diskQueueReader) :
  diskQueueReader :=
  mkReader (readPos d) (endPos d) (virtualReadOffset d) (virtualEnd d)
    (depth d) (totalMsgCnt d) (readerMetaName d) (readFrom d) (dataPath d)
    (maxBytesPerFile d) (minMsgSize d) (maxMsgSize d) (syncEvery d)
    (syncTimeout d) (exitFlag d) (needSync d) (nextReadPos d)
    (confirmedOffset d) v (readFile d) (autoSkipError d) (maxConfirmWin d).

Definition set_readFile (v : option fileHandle) (d : diskQueueReader) :
  diskQueueReader :=
  mkReader (readPos d) (endPos d) (virtualReadOffset d) (virtualEnd d)
    (depth d) (totalMsgCnt d) (readerMetaName d) (readFrom d) (dataPath d)
    (maxBytesPerFile d) (minMsgSize d) (maxMsgSize d) (syncEvery d)
    (syncTimeout d) (exitFlag d) (needSync d) (nextReadPos d)
    (confirmedOffset d) (virtualConfirmedOffset d) v (autoSkipError d)
    (maxConfirmWin d).


(** Modelled from the spec: the declaration of [ReadResult] is not in the
    source file; the spec lists its fields as the virtual offset, the
    bytes and an optional failure.  The engine assigns them as
    [dataRead.offset], [dataRead.data] and [dataRead.err]. *)
Record ReadResult : Type := mkReadResult {
  rr_offset : BackendOffset;
  rr_data : list byte;
  rr_err : option error
}.

(** Modelled from the spec: the interface [BackendQueueEnd] is not in the
    source file.  [UpdateQueueEnd] type-asserts its argument to
    [*diskQueueEndInfo]; the argument is that pointer (possibly nil) or a
    value of another implementation. *)
Inductive BackendQueueEnd : Type :=
| DiskQueueEnd (p : option diskQueueEndInfo)
| OtherQueueEnd.

(** How a piece of engine code ends: it returns, it panics (the Go
    runtime stops the task), or the model ran out of fuel before the loop
    of the source came to its end. *)
Inductive exec (A : Type) : Type :=
| Done (a : A)
| Panicked
| OutOfFuel.

Arguments Done {A} a.
Arguments Panicked {A}.
Arguments OutOfFuel {A}.

(* ================================================================== *)
(** * The file system *)
(* ================================================================== *)

(** The data files of one topic, by file number.  [fileName] formats the
    number with [%06d] after a fixed prefix, so distinct numbers name
    distinct files.  The writer owns these files; the reader only reads
    them. *)
Definition dataFiles : Type := Z -> option (list byte).

(** The files the reader writes: its metadata file and the temporary
    sibling, by name.  [writable] says whether a file can be created in
    the directory. *)
Record metaFS : Type := mkMetaFS {
  contents : string -> option string;
  writable : bool
}.

Definition meta_put (name : string) (c : string) (m : metaFS) : metaFS :=
  mkMetaFS (fun n => if String.eqb n name then Some c else contents m n)
           (writable m).

(** Modelled from the spec: [atomicRename] is defined in another file of
    the package.  The spec has the temporary file renamed over the
    target, so that afterwards the target holds what the temporary file
    held and the temporary name is gone. *)
Definition atomicRename (tmp target : string) (m : metaFS) : metaFS :=
  mkMetaFS (fun n => if String.eqb n target then contents m tmp
                     else if String.eqb n tmp then None
                     else contents m n)
           (writable m).

(** [os.Stat(name).Size()] *)
Definition getCurrentFileEnd (fs : dataFiles) (offset : diskQueueOffset) :
  result Z :=
  match fs (FileNum offset) with
  | Some bs => Ok (Z.of_nat (List.length bs))
  | None => Err ErrNotExist
  end.

(** [readFile.Stat().Size()] of the open file. *)
Definition statSize (fs : dataFiles) (h : fileHandle) : result Z :=
  match fs (hFileNum h) with
  | Some bs => Ok (Z.of_nat (List.length bs))
  | None => Err ErrNotExist
  end.

(** The bytes the buffered reader still has to hand out; a file that is
    gone reads as empty. *)
Definition handleBytes (fs : dataFiles) (h : fileHandle) : list byte :=
  match fs (hFileNum h) with
  | Some bs => skipn (Z.to_nat (hCursor h)) bs
  | None => []
  end.

(** [binary.BigEndian] decoding of an [int32]. *)
Definition be_uint32 (b0 b1 b2 b3 : byte) : Z :=
  Z.lor (Z.of_N (Byte.to_N b3))
    (Z.lor (Z.shiftl (Z.of_N (Byte.to_N b2)) 8)
       (Z.lor (Z.shiftl (Z.of_N (Byte.to_N b1)) 16)
              (Z.shiftl (Z.of_N (Byte.to_N b0)) 24))).

Definition be_int32 (b0 b1 b2 b3 : byte) : Z := wrap32 (be_uint32 b0 b1 b2 b3).

(* ================================================================== *)
(** * Offset algebra *)
(* ================================================================== *)

(** [getVirtualOffsetDistance].  The source recurses on
    [(prev.FileNum+1, 0)]; the recursion is reached only when
    [prev.FileNum < next.FileNum], so the number of files between the two
    offsets bounds its depth. *)
Fixpoint getVirtualOffsetDistance_from (k : nat) (fs : dataFiles)
  (prev next : diskQueueOffset) : result BackendOffset :=
  if GreatThan prev next then Err ErrMoveOffsetInvalid
  else if FileNum prev =? FileNum next then Ok (sub64 (Pos next) (Pos prev))
  else
    match getCurrentFileEnd fs prev with
    | Err e => Err e
    | Ok fsize =>
      let left := sub64 fsize (Pos prev) in
      let prev := mkOffset (add64 (FileNum prev) 1) 0 in
      match k with
      | O => Err ErrMoveOffsetInvalid
      | S k' =>
        match getVirtualOffsetDistance_from k' fs prev next with
        | Err e => Err e
        | Ok vdiff => Ok (add64 vdiff left)
        end
      end
    end.

Definition getVirtualOffsetDistance (fs : dataFiles)
  (prev next : diskQueueOffset) : result BackendOffset :=
  getVirtualOffsetDistance_from (Z.to_nat (FileNum next - FileNum prev))
    fs prev next.

(** The [for] loop of [stepOffset].  [cur] is the offset the function
    was called with (the loop tests [cur.FileNum], which never changes),
    [newOffset] and [step] are the loop variables.  [None] means the fuel
    ran out. *)
Fixpoint stepOffset_loop (fuel : nat) (fs : dataFiles)
  (cur newOffset : diskQueueOffset) (step : Z) (maxStep : diskQueueOffset) :
  option (result diskQueueOffset) :=
  match fuel with
  | O => None
  | S fuel' =>
    match (if FileNum cur <? FileNum maxStep
           then getCurrentFileEnd fs newOffset
           else Ok (Pos maxStep)) with
    | Err e => Some (Err e)
    | Ok fend =>
      let diff := sub64 fend (Pos newOffset) in
      if step >? diff then
        let newOffset := mkOffset (add64 (FileNum newOffset) 1) 0 in
        if GreatThan newOffset maxStep then Some (Err ErrOffsetInvalid)
        else
          let step := sub64 step diff in
          if step =? 0 then Some (Ok newOffset)
          else stepOffset_loop fuel' fs cur newOffset step maxStep
      else
        let newOffset := set_Pos (add64 (Pos newOffset) step) newOffset in
        if GreatThan newOffset maxStep then Some (Err ErrOffsetInvalid)
        else Some (Ok newOffset)
    end
  end.

(** [stepOffset] *)
Definition stepOffset (fuel : nat) (fs : dataFiles)
  (cur : diskQueueOffset) (step : Z) (maxStep : diskQueueOffset) :
  option (result diskQueueOffset) :=
  if FileNum cur >? FileNum maxStep then Some (Err ErrOffsetInvalid)
  else if step =? 0 then Some (Ok cur)
  else stepOffset_loop fuel fs cur cur step maxStep.

(* ================================================================== *)
(** * Control operations of the engine *)
(* ================================================================== *)

(** [internalConfirm] *)
Definition internalConfirm (fuel : nat) (fs : dataFiles)
  (d : diskQueueReader) (offset : BackendOffset) :
  option (diskQueueReader * option error) :=
  if offset =? -1 then
    let d := set_confirmedOffset (readPos d) d in
    let d := set_virtualConfirmedOffset (virtualReadOffset d) d in
    Some (d, None)
  else if offset <=? virtualConfirmedOffset d then Some (d, None)
  else if offset >? virtualReadOffset d then
    Some (d, Some ErrConfirmSizeInvalid)
  else
    let diffVirtual := sub64 offset (virtualConfirmedOffset d) in
    match stepOffset fuel fs (confirmedOffset d) diffVirtual (readPos d) with
    | None => None
    | Some (Err _) => Some (d, Some ErrConfirmSizeInvalid)
    | Some (Ok newConfirm) =>
      let d := set_confirmedOffset newConfirm d in
      let d := set_virtualConfirmedOffset offset d in
      Some (d, None)
    end.

(** [internalSkipTo] *)
Definition internalSkipTo (fuel : nat) (fs : dataFiles)
  (d : diskQueueReader) (voffset : BackendOffset) :
  option (diskQueueReader * option error) :=
  let d := set_readFile None d in
  if voffset >? virtualEnd d then Some (d, Some ErrMoveOffsetInvalid)
  else
    match (if voffset =? virtualEnd d then Some (Ok (endPos d))
           else stepOffset fuel fs (readPos d)
                  (sub64 voffset (virtualReadOffset d)) (endPos d)) with
    | None => None
    | Some (Err e) => Some (d, Some e)
    | Some (Ok newPos) =>
      let d := set_readPos newPos d in
      let d := set_virtualReadOffset voffset d in
      let d := set_confirmedOffset (readPos d) d in
      let d := set_virtualConfirmedOffset (virtualReadOffset d) d in
      Some (d, None)
    end.

(** [skipToEndofFile] *)
Definition skipToEndofFile (d : diskQueueReader) : diskQueueReader :=
  let d := set_readFile None d in
  let d := set_readPos (endPos d) d in
  let d := set_virtualReadOffset (virtualEnd d) d in
  let d := set_confirmedOffset (readPos d) d in
  set_virtualConfirmedOffset (virtualReadOffset d) d.

(** [skipToNextFile] *)
Definition skipToNextFile (d : diskQueueReader) : diskQueueReader :=
  let d := set_readFile None d in
  if FileNum (readPos d) >=? FileNum (endPos d) then skipToEndofFile d
  else
    let d := set_readPos (mkOffset (add64 (FileNum (readPos d)) 1) 0) d in
    let d := set_confirmedOffset (readPos d) d in
    set_virtualConfirmedOffset (virtualReadOffset d) d.

(** [checkTailCorruption] *)
Definition checkTailCorruption (d : diskQueueReader) : diskQueueReader :=
  if (FileNum (readPos d) <? FileNum (endPos d))
     || (Pos (readPos d) <? Pos (endPos d)) then d
  else if negb (offset_eqb (readPos d) (endPos d)) then
    set_needSync true (skipToEndofFile d)
  else d.

(** [handleReadError] *)
Definition handleReadError (fs : dataFiles) (d : diskQueueReader) :
  diskQueueReader :=
  let newRead := mkOffset (add64 (FileNum (readPos d)) 1) 0 in
  let finish (newRead : diskQueueOffset) (d : diskQueueReader) :=
    let d := set_readPos newRead d in
    let d := set_confirmedOffset (readPos d) d in
    let d := set_virtualConfirmedOffset (virtualReadOffset d) d in
    set_needSync true d in
  if GreatThan newRead (endPos d) then
    finish (endPos d) (set_virtualReadOffset (virtualEnd d) d)
  else
    match getVirtualOffsetDistance fs (readPos d) newRead with
    | Err _ => skipToNextFile d
    | Ok vdiff =>
      finish newRead
        (set_virtualReadOffset (add64 (virtualReadOffset d) vdiff) d)
    end.

(* ================================================================== *)
(** * Reading one message *)
(* ================================================================== *)

(** The first step after the label [CheckFileOpen]: the handle to read
    from, opening the file of [readPos] when none is open.  A seek is
    made only for a positive position. *)
Definition openReadFile (fs : dataFiles) (d : diskQueueReader) :
  result fileHandle :=
  match readFile d with
  | Some h => Ok h
  | None =>
    match fs (FileNum (readPos d)) with
    | None => Err ErrNotExist
    | Some _ =>
      Ok (mkHandle (FileNum (readPos d))
            (if Pos (readPos d) >? 0 then Pos (readPos d) else 0))
    end
  end.

(** What [readOne] hands back next to the changed reader. *)
Definition readOut : Type := (BackendOffset * list byte * option error)%type.

(** The part of [readOne] after the file-roll test: read the length
    prefix and the payload from the handle [h] and advance the read
    position.  [make([]byte, msgSize)] panics on a negative size. *)
Definition readFrame (fs : dataFiles) (d : diskQueueReader) (h : fileHandle)
  (voffset : BackendOffset) : exec (diskQueueReader * readOut) :=
  match handleBytes fs h with
  | [] => Done (set_readFile None d, (voffset, [], Some ErrEOF))
  | b0 :: b1 :: b2 :: b3 :: rest =>
    let msgSize := be_int32 b0 b1 b2 b3 in
    if (msgSize <? minMsgSize d) || (msgSize >? maxMsgSize d) then
      Done (set_readFile None d,
            (voffset, [], Some (ErrInvalidMsgSize msgSize)))
    else if msgSize <? 0 then Panicked
    else if Z.of_nat (List.length rest) <? msgSize then
      Done (set_readFile None d,
            (voffset, [],
             Some (match rest with [] => ErrEOF | _ => ErrUnexpectedEOF end)))
    else
      let readBuf := firstn (Z.to_nat msgSize) rest in
      let h := mkHandle (hFileNum h) (hCursor h + 4 + msgSize) in
      let d := set_readFile (Some h) d in
      let voffset := virtualReadOffset d in
      let totalBytes := add32 4 msgSize in
      let oldPos := readPos d in
      let d := set_readPos
                 (set_Pos (add64 (Pos (readPos d)) totalBytes) (readPos d)) d in
      let d := set_virtualReadOffset
                 (add64 (virtualReadOffset d) totalBytes) d in
      let finish (isEnd : bool) (d : diskQueueReader) :=
        let d := if isEnd
                 then set_readPos
                        (mkOffset (add64 (FileNum (readPos d)) 1) 0)
                        (set_readFile None d)
                 else d in
        let d := if negb (FileNum oldPos =? FileNum (readPos d))
                 then set_needSync true d else d in
        Done (d, (voffset, readBuf, None)) in
      if FileNum (readPos d) <? FileNum (endPos d) then
        match statSize fs h with
        | Err e => Done (d, (voffset, readBuf, Some e))
        | Ok size => finish (Pos (readPos d) >=? size) d
        end
      else finish false d
  | _ => Done (set_readFile None d, (voffset, [], Some ErrUnexpectedEOF))
  end.

(** [readOne] with its backward [goto CheckFileOpen].  Every jump
    follows an increment of [readPos.FileNum] below [endPos.FileNum], so
    [k], the number of files up to the end, bounds the jumps. *)
Fixpoint readOne_from (k : nat) (fs : dataFiles) (d : diskQueueReader) :
  exec (diskQueueReader * readOut) :=
  let voffset := virtualReadOffset d in
  match openReadFile fs d with
  | Err e => Done (d, (voffset, [], Some e))
  | Ok h =>
    let d := set_readFile (Some h) d in
    if FileNum (readPos d) <? FileNum (endPos d) then
      match statSize fs h with
      | Err e => Done (d, (voffset, [], Some e))
      | Ok size =>
        if Pos (readPos d) >=? size then
          let d := set_readPos
                     (mkOffset (add64 (FileNum (readPos d)) 1) 0) d in
          let d := set_readFile None d in
          match k with
          | O => OutOfFuel
          | S k' => readOne_from k' fs d
          end
        else readFrame fs d h voffset
      end
    else readFrame fs d h voffset
  end.

Definition readOne (fs : dataFiles) (d : diskQueueReader) :
  exec (diskQueueReader * readOut) :=
  readOne_from (Z.to_nat (FileNum (endPos d) - FileNum (readPos d))) fs d.

(* ================================================================== *)
(** * Metadata *)
(* ================================================================== *)

Definition nl : ascii := ascii_of_nat 10.

(** [%d] of [fmt.Fprintf] for a signed integer. *)
Definition format_d (z : Z) : string := NilZero.string_of_int (Z.to_int z).

(** [metaDataFileName], for a directory name that [path.Join] leaves as
    it is and that holds no [%]: the clean-up [path.Join] does on the
    directory name is left out, and so are the verbs [Sprintf] would
    read in it. *)
Definition metaDataFileName (d : diskQueueReader) : string :=
  (dataPath d ++ "/" ++ readerMetaName d
     ++ ".diskqueue.meta.reader.dat")%string.

(** The three lines [persistMetaData] prints. *)
Definition metaContent (d : diskQueueReader) : string :=
  (format_d (totalMsgCnt d) ++ String nl
     (format_d (FileNum (confirmedOffset d)) ++ ","
        ++ format_d (Pos (confirmedOffset d)) ++ ","
        ++ format_d (virtualConfirmedOffset d) ++ String nl
     (format_d (FileNum (endPos d)) ++ ","
        ++ format_d (Pos (endPos d)) ++ ","
        ++ format_d (virtualEnd d) ++ String nl EmptyString)))%string.

(** Writing [c] at the start of a file opened with [O_RDWR|O_CREATE]
    (no truncation): what an older file had beyond [c] stays. *)
Definition overwrite (c : string) (old : option string) : string :=
  match old with
  | None => c
  | Some o =>
    (c ++ substring (String.length c) (String.length o - String.length c) o)%string
  end.

(** [persistMetaData]; [rnd] is the number [rand.Int()] returns.  Of the
    failures only the one of creating the temporary file is modelled. *)
Definition persistMetaData (rnd : Z) (m : metaFS) (d : diskQueueReader) :
  metaFS * option error :=
  let fileName := metaDataFileName d in
  let tmpFileName := (fileName ++ "." ++ format_d rnd ++ ".tmp")%string in
  if writable m then
    let m := meta_put tmpFileName
               (overwrite (metaContent d) (contents m tmpFileName)) m in
    (atomicRename tmpFileName fileName m, None)
  else (m, Some ErrPermission).

(** [sync] *)
Definition sync (rnd : Z) (m : metaFS) (d : diskQueueReader) :
  metaFS * diskQueueReader * option error :=
  match persistMetaData rnd m d with
  | (m, Some e) => (m, d, Some e)
  | (m, None) => (m, set_needSync false d, None)
  end.

(** The scanner behind [fmt.Fscanf] for the verbs and literals of the
    metadata format.  [%d] passes over spaces other than the newline,
    takes an optional sign and the longest run of decimal digits, and
    fails on no digit or on a value outside [int64].  A comma of the
    format must be the next character of the input.  A newline of the
    format matches spaces other than the newline followed by a newline,
    or by the end of the input.  The input is read as bytes: of the
    spaces of [unicode.IsSpace] those are covered that are one byte
    long. *)
Definition is_digit (c : ascii) : bool :=
  ((48 <=? nat_of_ascii c) && (nat_of_ascii c <=? 57))%nat.

(** Blank, tab, vertical tab, form feed and carriage return. *)
Definition is_blank (c : ascii) : bool :=
  ((nat_of_ascii c =? 32) || (nat_of_ascii c =? 9)
   || (nat_of_ascii c =? 11) || (nat_of_ascii c =? 12)
   || (nat_of_ascii c =? 13))%nat.

Fixpoint skip_blanks (s : string) : string :=
  match s with
  | String c s' => if is_blank c then skip_blanks s' else s
  | EmptyString => s
  end.

Fixpoint scan_digits (s : string) : string * string :=
  match s with
  | String c s' =>
    if is_digit c then
      let (ds, rest) := scan_digits s' in (String c ds, rest)
    else (EmptyString, s)
  | EmptyString => (EmptyString, EmptyString)
  end.

Definition scan_sign (s : string) : bool * string :=
  match s with
  | String c s' =>
    if Ascii.eqb c "-" then (true, s')
    else if Ascii.eqb c "+" then (false, s')
    else (false, s)
  | EmptyString => (false, s)
  end.

Definition scan_d (s : string) : option (Z * string) :=
  let (neg, s1) := scan_sign (skip_blanks s) in
  let (ds, rest) := scan_digits s1 in
  match ds with
  | EmptyString => None
  | _ =>
    match NilEmpty.uint_of_string ds with
    | None => None
    | Some u =>
      let z := if neg then - Z.of_uint u else Z.of_uint u in
      if int64b z then Some (z, rest) else None
    end
  end.

Definition expect (c : ascii) (s : string) : option string :=
  match s with
  | String c' rest => if Ascii.eqb c c' then Some rest else None
  | EmptyString => None
  end.

Definition expect_newline (s : string) : option string :=
  match skip_blanks s with
  | String c rest => if Ascii.eqb c nl then Some rest else None
  | EmptyString => Some EmptyString
  end.

(** [Fscanf] stores every value as soon as it is scanned, so a failure
    leaves the fields before it assigned: a scan step ends with the
    reader and the rest of the input, or with the reader alone. *)
Definition scanStep : Type :=
  diskQueueReader * string -> (diskQueueReader * string) + diskQueueReader.

Definition scan_into (set : Z -> diskQueueReader -> diskQueueReader) :
  scanStep :=
  fun st =>
    match scan_d (snd st) with
    | Some (v, rest) => inl (set v (fst st), rest)
    | None => inr (fst st)
    end.

Definition scan_lit (c : ascii) : scanStep :=
  fun st =>
    match expect c (snd st) with
    | Some rest => inl (fst st, rest)
    | None => inr (fst st)
    end.

Definition scan_newline : scanStep :=
  fun st =>
    match expect_newline (snd st) with
    | Some rest => inl (fst st, rest)
    | None => inr (fst st)
    end.

Definition scan_then (f g : scanStep) : scanStep :=
  fun st =>
    match f st with
    | inl st' => g st'
    | inr d => inr d
    end.

Infix ">>>" := scan_then (at level 61, left associativity).

(** The call of [fmt.Fscanf] in [retrieveMetaData]. *)
Definition Fscanf_meta : scanStep :=
  scan_into set_totalMsgCnt >>> scan_newline
  >>> scan_into (fun v d =>
        set_confirmedOffset (set_FileNum v (confirmedOffset d)) d)
  >>> scan_lit ","
  >>> scan_into (fun v d =>
        set_confirmedOffset (set_Pos v (confirmedOffset d)) d)
  >>> scan_lit ","
  >>> scan_into set_virtualConfirmedOffset >>> scan_newline
  >>> scan_into (fun v d => set_endPos (set_FileNum v (endPos d)) d)
  >>> scan_lit ","
  >>> scan_into (fun v d => set_endPos (set_Pos v (endPos d)) d)
  >>> scan_lit ","
  >>> scan_into set_virtualEnd >>> scan_newline.

(** [retrieveMetaData] *)
Definition retrieveMetaData (m : metaFS) (d : diskQueueReader) :
  diskQueueReader * option error :=
  match contents m (metaDataFileName d) with
  | None => (d, Some ErrNotExist)
  | Some s =>
    match Fscanf_meta (d, s) with
    | inr d => (d, Some ErrScan)
    | inl (d, _) =>
      let d := set_readPos (confirmedOffset d) d in
      let d := set_virtualReadOffset (virtualConfirmedOffset d) d in
      (d, None)
    end
  end.

(** [newDiskQueueReader]: the struct literal (every field it does not
    name has Go's zero value), then [retrieveMetaData], whose error is
    only logged.  The engine it starts on the reader is [ioLoop] below. *)
Definition newDiskQueueReader (m : metaFS)
  (readFrom' metaname dataPath' : string) (maxBytesPerFile' : Z)
  (minMsgSize' maxMsgSize' : Z) (syncEvery' syncTimeout' : Z)
  (autoSkip : bool) : diskQueueReader :=
  let d := {|
    readPos := mkOffset 0 0;
    endPos := mkOffset 0 0;
    virtualReadOffset := 0;
    virtualEnd := 0;
    depth := 0;
    totalMsgCnt := 0;
    readerMetaName := metaname;
    readFrom := readFrom';
    dataPath := dataPath';
    maxBytesPerFile := maxBytesPerFile';
    minMsgSize := minMsgSize';
    maxMsgSize := maxMsgSize';
    syncEvery := syncEvery';
    syncTimeout := syncTimeout';
    exitFlag := 0;
    needSync := false;
    nextReadPos := mkOffset 0 0;
    confirmedOffset := mkOffset 0 0;
    virtualConfirmedOffset := 0;
    readFile := None;
    autoSkipError := autoSkip;
    maxConfirmWin := 10000
  |} in
  fst (retrieveMetaData m d).

(* ================================================================== *)
(** * The I/O engine *)
(* ================================================================== *)

(** The local variables of [ioLoop].  [r] is the channel used in the
    select: [true] for [d.readResultChan], [false] for nil.  [syncerr] is
    only logged and is left out. *)
Record loopVars : Type := mkLoopVars {
  dataRead : ReadResult;
  rerr : option error;
  count : Z;
  r : bool;
  continueRead : bool
}.

(** Their values when the loop is entered. *)
Definition loopVars_init : loopVars :=
  mkLoopVars (mkReadResult 0 [] None) None 0 false true.

(** The state the engine task owns: the reader, its local variables and
    the files it writes. *)
Record engine : Type := mkEngine {
  rd : diskQueueReader;
  lv : loopVars;
  mfs : metaFS
}.

(** Where the part of an iteration before the select ends: at the
    select, or at the [continue] after an automatic skip. *)
Inductive phase : Type :=
| AtSelect (e : engine)
| Continue (e : engine).

(** The communications the select waits for. *)
Inductive event : Type :=
| EvDeliver
| EvSkip (skipInfo : BackendOffset)
| EvEndUpdated (endPos' : diskQueueEndInfo)
| EvConfirm (confirmInfo : BackendOffset)
| EvTick
| EvExit.

(** What the engine sends in answer. *)
Inductive reply : Type :=
| Delivered (rr : ReadResult)
| SkipResponse (e : option error)
| EndUpdatedResponse
| ConfirmResponse (e : option error)
| NoReply
| Exited
| NotSelectable.

(** The start of an iteration: the sync bookkeeping. *)
Definition ioLoop_housekeeping (rnd : Z) (e : engine) : engine :=
  let d := rd e in
  let v := lv e in
  let m := mfs e in
  let '(d, count') :=
    if count v =? syncEvery d then (set_needSync true d, 0)
    else (d, count v) in
  let '(m, d) :=
    if needSync d then
      let '(m, d, _) := sync rnd m d in (m, d)
    else (m, d) in
  mkEngine d
    (mkLoopVars (dataRead v) (rerr v) count' (r v) (continueRead v)) m.

(** The choice of [r], with the read-ahead. *)
Definition ioLoop_readiness (fs : dataFiles) (e : engine) : exec phase :=
  let d := rd e in
  let v := lv e in
  let m := mfs e in
  let arm (b : bool) :=
    Done (AtSelect
            (mkEngine d
               (mkLoopVars (dataRead v) (rerr v) (count v) b
                  (continueRead v))
               m)) in
  match rerr v with
  | Some _ => arm false
  | None =>
    if add64 (virtualConfirmedOffset d) (maxConfirmWin d)
       <? virtualReadOffset d then arm false
    else if (FileNum (readPos d) <? FileNum (endPos d))
            || (Pos (readPos d) <? Pos (endPos d)) then
      if continueRead v then
        match readOne fs d with
        | Panicked => Panicked
        | OutOfFuel => OutOfFuel
        | Done (d, (off, dat, rerr')) =>
          let dataRead' := mkReadResult off dat rerr' in
          match rerr' with
          | Some _ =>
            if autoSkipError d then
              Done (Continue
                      (mkEngine (handleReadError fs d)
                         (mkLoopVars dataRead' None (count v) (r v)
                            (continueRead v))
                         m))
            else
              Done (AtSelect
                      (mkEngine d
                         (mkLoopVars dataRead' rerr' (count v) true
                            (continueRead v))
                         m))
          | None =>
            Done (AtSelect
                    (mkEngine d
                       (mkLoopVars dataRead' rerr' (count v) true false)
                       m))
          end
        end
      else arm true
    else arm false
  end.

(** The part of an iteration before the select. *)
Definition ioLoop_head (fs : dataFiles) (rnd : Z) (e : engine) : exec phase :=
  ioLoop_readiness fs (ioLoop_housekeeping rnd e).

(** The end-update case of the select. *)
Definition handleEndUpdated (endPos' : diskQueueEndInfo)
  (d : diskQueueReader) : diskQueueReader :=
  let d := if negb (FileNum (endPos d) =? EndFileNum endPos')
              && (EndPos endPos' =? 0)
           then set_needSync true d else d in
  let d := if FileNum (readPos d) >? EndFileNum endPos' then
             let d := set_readPos
                        (set_FileNum (EndFileNum endPos') (readPos d)) d in
             let d := set_readPos (set_Pos (EndPos endPos') (readPos d)) d in
             set_virtualReadOffset (VirtualEnd endPos') d
           else d in
  let d := if (FileNum (readPos d) =? EndFileNum endPos')
              && (Pos (readPos d) >? EndPos endPos') then
             let d := set_readPos (set_Pos (EndPos endPos') (readPos d)) d in
             set_virtualReadOffset (VirtualEnd endPos') d
           else d in
  let d := set_endPos (set_Pos (EndPos endPos') (endPos d)) d in
  let d := set_endPos (set_FileNum (EndFileNum endPos') (endPos d)) d in
  let d := set_totalMsgCnt (TotalMsgCnt endPos') d in
  set_virtualEnd (VirtualEnd endPos') d.

(** The select of an iteration, for the communication [ev] that takes
    place.  A send on [r] is possible only when [r] is not nil. *)
Definition ioLoop_select (fuel : nat) (fs : dataFiles) (ev : event)
  (e : engine) : exec (engine * reply) :=
  let d := rd e in
  let v := lv e in
  match ev with
  | EvDeliver =>
    if r v then
      match rerr v with
      | None =>
        Done (mkEngine (checkTailCorruption d)
                (mkLoopVars (dataRead v) (rerr v) (count v) (r v) true)
                (mfs e),
              Delivered (dataRead v))
      | Some _ => Done (e, Delivered (dataRead v))
      end
    else Done (e, NotSelectable)
  | EvSkip skipInfo =>
    match internalSkipTo fuel fs d skipInfo with
    | None => OutOfFuel
    | Some (d, skiperr) =>
      Done (mkEngine d
              (mkLoopVars (dataRead v) None (count v) (r v) (continueRead v))
              (mfs e),
            SkipResponse skiperr)
    end
  | EvEndUpdated endPos' =>
    Done (mkEngine (handleEndUpdated endPos' d)
            (mkLoopVars (dataRead v) (rerr v) (add64 (count v) 1) (r v)
               (continueRead v))
            (mfs e),
          EndUpdatedResponse)
  | EvConfirm confirmInfo =>
    match internalConfirm fuel fs d confirmInfo with
    | None => OutOfFuel
    | Some (d, cerr) => Done (mkEngine d v (mfs e), ConfirmResponse cerr)
    end
  | EvTick =>
    if count v >? 0 then
      Done (mkEngine (set_needSync true d)
              (mkLoopVars (dataRead v) (rerr v) 0 (r v) (continueRead v))
              (mfs e),
            NoReply)
    else Done (e, NoReply)
  | EvExit => Done (e, Exited)
  end.

(** One iteration of the [for] loop of [ioLoop]. *)
Definition ioLoop_iter (fuel : nat) (fs : dataFiles) (rnd : Z) (ev : event)
  (e : engine) : exec (engine * reply) :=
  match ioLoop_head fs rnd e with
  | Done (AtSelect e) => ioLoop_select fuel fs ev e
  | Done (Continue e) => Done (e, NoReply)
  | Panicked => Panicked
  | OutOfFuel => OutOfFuel
  end.

(** The [for] loop of [ioLoop], for the communications [evs] in the
    order they take place: the engine the last iteration leaves and the
    answers sent, or the way the loop broke off. *)
Fixpoint ioLoop_run (fuel : nat) (fs : dataFiles) (rnd : Z)
  (evs : list event) (e : engine) : exec (engine * list reply) :=
  match evs with
  | [] => Done (e, [])
  | ev :: evs' =>
    match ioLoop_iter fuel fs rnd ev e with
    | Done (e, Exited) => Done (e, [Exited])
    | Done (e, rp) =>
      match ioLoop_run fuel fs rnd evs' e with
      | Done (e, rps) => Done (e, rp :: rps)
      | Panicked => Panicked
      | OutOfFuel => OutOfFuel
      end
    | Panicked => Panicked
    | OutOfFuel => OutOfFuel
    end
  end.

(** [ioLoop] as [newDiskQueueReader] starts it on the reader [d]: the
    sync ticker is made before the loop is entered, and
    [time.NewTicker] panics for an interval that is not positive; the
    loop then runs from the first values of the local variables. *)
Definition ioLoop (fuel : nat) (fs : dataFiles) (rnd : Z)
  (evs : list event) (d : diskQueueReader) (m : metaFS) :
  exec (engine * list reply) :=
  if syncTimeout d <=? 0 then Panicked
  else ioLoop_run fuel fs rnd evs (mkEngine d loopVars_init m).

(* ================================================================== *)
(** * The public operations *)
(* ================================================================== *)

(** What a public operation hands to the engine over its channel. *)
Inductive request : Type :=
| ReqConfirm (offset : BackendOffset)
| ReqSkip (offset : BackendOffset)
| ReqEndUpdated (e : diskQueueEndInfo).

(** How a public operation proceeds once it holds the lock: it returns
    at once with its error value (nil for an operation that has no
    result), or it sends a request to the engine and waits for the
    answer. *)
Inductive call : Type :=
| Returned (err : option error)
| Handed (req : request).

(** The event a request becomes in the select of the engine. *)
Definition event_of (q : request) : event :=
  match q with
  | ReqConfirm offset => EvConfirm offset
  | ReqSkip offset => EvSkip offset
  | ReqEndUpdated e => EvEndUpdated e
  end.

(** The public operations give back the reader as they leave it. *)

(** [UpdateQueueEnd] *)
Definition UpdateQueueEnd (d : diskQueueReader) (e : BackendQueueEnd) :
  diskQueueReader * call :=
  match e with
  | DiskQueueEnd (Some end') =>
    if exitFlag d =? 1 then (d, Returned None)
    else (d, Handed (ReqEndUpdated end'))
  | _ => (d, Returned None)
  end.

(** [ConfirmRead] *)
Definition ConfirmRead (d : diskQueueReader) (offset : BackendOffset) :
  diskQueueReader * call :=
  if exitFlag d =? 1 then (d, Returned (Some ErrExiting))
  else (d, Handed (ReqConfirm offset)).

(** [SkipReadToOffset] *)
Definition SkipReadToOffset (d : diskQueueReader) (offset : Z) :
  diskQueueReader * call :=
  if exitFlag d =? 1 then (d, Returned (Some ErrExiting))
  else (d, Handed (ReqSkip offset)).

(** [SkipToNext] *)
Definition SkipToNext (d : diskQueueReader) : diskQueueReader * call :=
  if exitFlag d =? 1 then (d, Returned (Some ErrExiting))
  else (d, Returned None).

(** [SkipToEnd] *)
Definition SkipToEnd (d : diskQueueReader) : diskQueueReader * call :=
  if exitFlag d =? 1 then (d, Returned (Some ErrExiting))
  else (d, Handed (ReqSkip (virtualEnd d))).

(** [Depth] *)
Definition Depth (d : diskQueueReader) : Z :=
  if FileNum (confirmedOffset d) >? FileNum (endPos d) then 0
  else if FileNum (endPos d) =? FileNum (confirmedOffset d) then
    sub64 (Pos (endPos d)) (Pos (confirmedOffset d))
  else sub64 (virtualEnd d) (virtualConfirmedOffset d).

(** [exit], once the engine has answered on [exitSyncChan].  [exit] is
    the only place that writes [exitFlag] and the only place that closes
    [exitChan], and it does both while it holds the lock: when [exit] is
    entered the channel is closed exactly when the flag is 1, and
    [close] on a closed channel panics. *)
Definition exit (deleted : bool) (d : diskQueueReader) :
  exec diskQueueReader :=
  if exitFlag d =? 1 then Panicked
  else
    let d := set_exitFlag 1 d in
    let d := set_readFile None d in
    Done (if deleted then skipToEndofFile d else d).

(** [Delete] *)
Definition Delete (d : diskQueueReader) :
  exec (diskQueueReader * option error) :=
  match exit true d with
  | Done d => Done (d, None)
  | Panicked => Panicked
  | OutOfFuel => OutOfFuel
  end.

(** [Close] *)
Definition Close (rnd : Z) (m : metaFS) (d : diskQueueReader) :
  exec (metaFS * diskQueueReader * option error) :=
  match exit false d with
  | Done d => Done (sync rnd m d)
  | Panicked => Panicked
  | OutOfFuel => OutOfFuel
  end.

(* ================================================================== *)
(** * The remaining functions of the source *)
(* ================================================================== *)

(** [GetOffset] *)
Definition GetOffset (d : diskQueueEndInfo) : BackendOffset := VirtualEnd d.

(** [GetTotalMsgCnt] *)
Definition GetTotalMsgCnt (d : diskQueueEndInfo) : Z := TotalMsgCnt d.

(** Go's [==] on two [diskQueueEndInfo] values. *)
Definition endInfo_eqb (a b : diskQueueEndInfo) : bool :=
  (EndFileNum a =? EndFileNum b) && (EndPos a =? EndPos b)
  && (VirtualEnd a =? VirtualEnd b) && (TotalMsgCnt a =? TotalMsgCnt b).

(** [IsSame]: the type assertion, then [*d == *otherDiskEnd]; the
    dereference of a nil pointer of the right type panics. *)
Definition IsSame (d : diskQueueEndInfo) (other : BackendQueueEnd) :
  exec bool :=
  match other with
  | DiskQueueEnd (Some otherDiskEnd) => Done (endInfo_eqb d otherDiskEnd)
  | DiskQueueEnd None => Panicked
  | OtherQueueEnd => Done false
  end.

(** [%06d] of [fmt.Sprintf]: the decimal digits padded with zeros to six
    characters, the sign of a negative number counted in. *)
Definition pad_uint (w : nat) (u : Decimal.uint) : Decimal.uint :=
  Nat.iter (w - Decimal.nb_digits u) Decimal.D0 u.

Definition format_06d (z : Z) : string :=
  match Z.to_int z with
  | Decimal.Pos u => NilEmpty.string_of_uint (pad_uint 6 u)
  | Decimal.Neg u => String "-" (NilEmpty.string_of_uint (pad_uint 5 u))
  end.

(** [path.Clean]: the name is cut at its slashes; empty elements and
    [.] elements are dropped; a [..] element takes away the element
    before it, is dropped at the root, and is kept at the start of a
    name that is not rooted; the empty result is [.]. *)
Fixpoint split_slash (s : string) : list string :=
  match s with
  | EmptyString => [EmptyString]
  | String c rest =>
    if Ascii.eqb c "/" then EmptyString :: split_slash rest
    else
      match split_slash rest with
      | [] => [String c EmptyString]
      | x :: xs => String c x :: xs
      end
  end.

Definition is_rooted (s : string) : bool :=
  match s with
  | String c _ => Ascii.eqb c "/"
  | EmptyString => false
  end.

(** [stack] holds the elements kept so far, the last one first. *)
Fixpoint clean_elems (rooted : bool) (stack : list string)
  (elems : list string) : list string :=
  match elems with
  | [] => List.rev stack
  | e :: es =>
    if String.eqb e "" || String.eqb e "." then clean_elems rooted stack es
    else if String.eqb e ".." then
      match stack with
      | top :: stack' =>
        if String.eqb top ".." then clean_elems rooted (e :: stack) es
        else clean_elems rooted stack' es
      | [] =>
        if rooted then clean_elems rooted [] es
        else clean_elems rooted [e] es
      end
    else clean_elems rooted (e :: stack) es
  end.

Fixpoint join_slash (elems : list string) : string :=
  match elems with
  | [] => EmptyString
  | [e] => e
  | e :: es => (e ++ "/" ++ join_slash es)%string
  end.

Definition path_Clean (s : string) : string :=
  let out :=
    ((if is_rooted s then "/" else "")
       ++ join_slash (clean_elems (is_rooted s) [] (split_slash s)))%string in
  if String.eqb out "" then "." else out.

(** [path.Join] of two elements: empty elements are ignored, the others
    are joined with a slash and cleaned. *)
Definition path_Join (a b : string) : string :=
  if String.eqb a "" then
    if String.eqb b "" then EmptyString else path_Clean b
  else if String.eqb b "" then path_Clean a
  else path_Clean (a ++ "/" ++ b).

(** [fmt.Sprintf] with a string and an [int64] as arguments, for the
    formats made of plain characters, [%%], and the verbs [%s] and [%06d]
    once each in this order.  For any other format (a verb that does
    not fit its argument, more or fewer verbs than arguments, another
    verb or flag) the result is [None]: what [Sprintf] prints in these
    cases is not modelled. *)
Inductive fmt_token : Type :=
| TLit (c : ascii)
| TPercent
| TString
| TInt06
| TOther.

Fixpoint fmt_tokens (format : string) : list fmt_token :=
  match format with
  | EmptyString => []
  | String c rest =>
    if Ascii.eqb c "%" then
      match rest with
      | String "%" rest' => TPercent :: fmt_tokens rest'
      | String "s" rest' => TString :: fmt_tokens rest'
      | String "0" (String "6" (String "d" rest')) =>
        TInt06 :: fmt_tokens rest'
      | _ => [TOther]
      end
    else TLit c :: fmt_tokens rest
  end.

(** [k] counts the arguments used so far. *)
Fixpoint fmt_render (ts : list fmt_token) (k : nat) (s : string) (n : Z) :
  option string :=
  match ts with
  | [] => if (k =? 2)%nat then Some EmptyString else None
  | TLit c :: ts' => option_map (String c) (fmt_render ts' k s n)
  | TPercent :: ts' => option_map (String "%") (fmt_render ts' k s n)
  | TString :: ts' =>
    if (k =? 0)%nat then option_map (append s) (fmt_render ts' 1 s n)
    else None
  | TInt06 :: ts' =>
    if (k =? 1)%nat then
      option_map (append (format_06d n)) (fmt_render ts' 2 s n)
    else None
  | TOther :: _ => None
  end.

Definition Sprintf_s_06d (format s : string) (n : Z) : option string :=
  fmt_render (fmt_tokens format) 0 s n.

(** No [%] occurs in the string. *)
Fixpoint no_percent (s : string) : bool :=
  match s with
  | EmptyString => true
  | String c rest => negb (Ascii.eqb c "%") && no_percent rest
  end.

(** [fileName]: the data path joined with the pattern is the format, so
    that a [%] in the data path is read by [Sprintf] as well. *)
Definition fileName (d : diskQueueReader) (fileNum : Z) : option string :=
  Sprintf_s_06d (path_Join (dataPath d) "%s.diskqueue.%06d.dat")
    (readFrom d) fileNum.

(* ================================================================== *)
(** * Notions used to state the properties *)
(* ================================================================== *)

(** The end of the segment [stepOffset] measures the first step
    against: the size of the file of [cur] when [cur] lies in a file
    before the one of [maxStep], the position of [maxStep] otherwise. *)
Definition segmentEnd (fs : dataFiles) (cur maxStep : diskQueueOffset) :
  result Z :=
  if FileNum cur <? FileNum maxStep then getCurrentFileEnd fs cur
  else Ok (Pos maxStep).

(** Every data file has a size an [int64] holds, as [os.FileInfo.Size]
    reports it. *)
Definition files_fit (fs : dataFiles) : Prop :=
  forall n bs, fs n = Some bs -> Z.of_nat (List.length bs) <= max_int64.

(** The reader a step of the engine ends with, when it returns. *)
Definition reader_of (x : exec (engine * reply)) : option diskQueueReader :=
  match x with
  | Done (e, _) => Some (rd e)
  | _ => None
  end.

(** A scan step that leaves the part [proj] of the reader alone,
    whether it succeeds or fails. *)
Definition scan_keeps {A : Type} (proj : diskQueueReader -> A)
  (f : scanStep) : Prop :=
  forall st,
    match f st with
    | inl st' => proj (fst st') = proj (fst st)
    | inr d' => proj d' = proj (fst st)
    end.

(** The fields [persistMetaData] prints are Go [int64] values. *)
Definition meta_fields_int64 (d : diskQueueReader) : Prop :=
  int64 (totalMsgCnt d)
  /\ int64 (FileNum (confirmedOffset d))
  /\ int64 (Pos (confirmedOffset d))
  /\ int64 (virtualConfirmedOffset d)
  /\ int64 (FileNum (endPos d))
  /\ int64 (Pos (endPos d))
  /\ int64 (virtualEnd d).

(** The answer of a step of the engine, when it returns. *)
Definition reply_of (x : exec (engine * reply)) : option reply :=
  match x with
  | Done (_, rp) => Some rp
  | _ => None
  end.

(** Whether the part before the select ends at the select with the
    output channel armed. *)
Definition armed_at_select (x : exec phase) : bool :=
  match x with
  | Done (AtSelect e) => r (lv e)
  | _ => false
  end.

(** The part of the reader [readOne] leaves alone. *)
Definition read_frame_rel (d d' : diskQueueReader) : Prop :=
  endPos d' = endPos d
  /\ virtualEnd d' = virtualEnd d
  /\ confirmedOffset d' = confirmedOffset d
  /\ virtualConfirmedOffset d' = virtualConfirmedOffset d
  /\ maxConfirmWin d' = maxConfirmWin d
  /\ autoSkipError d' = autoSkipError d
  /\ minMsgSize d' = minMsgSize d
  /\ maxMsgSize d' = maxMsgSize d
  /\ exitFlag d' = exitFlag d.

(* ================================================================== *)
(** * Readers, engines and files of the examples *)
(* ================================================================== *)

(** Concrete data used in the examples below: a data file holding
    [frames] messages of ten payload bytes (frames of 14 bytes). *)
Definition frame10 : list byte :=
  [x00; x00; x00; x0a] ++ repeat x41 10.

Fixpoint frames10 (n : nat) : list byte :=
  match n with
  | O => []
  | S n' => frame10 ++ frames10 n'
  end.

(** File 0 holds one frame, file 1 two frames. *)
Definition rolled_files : dataFiles :=
  fun n => if n =? 0 then Some (frames10 1)
           else if n =? 1 then Some (frames10 2)
           else None.

Definition no_meta : metaFS := mkMetaFS (fun _ => None) true.

(** A reader as [newDiskQueueReader] makes it when no metadata file
    exists. *)
Definition fresh_reader : diskQueueReader :=
  newDiskQueueReader no_meta "topic" "channel" "/data" 1048576 0 1024 2500 2
    false.

(** The reader after two frames were read from [rolled_files] and
    nothing was confirmed: the end is declared at position 28 of file 1,
    the read position is in the middle of that file. *)
Definition reading_reader : diskQueueReader :=
  set_virtualReadOffset 28
    (set_readPos (mkOffset 1 14)
       (set_virtualEnd 42
          (set_endPos (mkOffset 1 28) (set_totalMsgCnt 3 fresh_reader)))).

(** A reader whose read position is in a later file than the declared
    end, at a smaller position. *)
Definition beyond_end_reader : diskQueueReader :=
  set_readPos (mkOffset 2 14) (set_endPos (mkOffset 1 100) fresh_reader).

(** A metadata file that declares the end in file 1 and the confirmed
    position in file 2, the reader made from it, and data files in
    which file 2 holds one frame. *)
Definition stale_meta : metaFS :=
  mkMetaFS
    (fun n =>
       if String.eqb n "/data/channel.diskqueue.meta.reader.dat"
       then Some ("3" ++ String nl
                    ("2,0,128" ++ String nl
                       ("1,100,114" ++ String nl EmptyString)))%string
       else None)
    true.

Definition stale_reader : diskQueueReader :=
  newDiskQueueReader stale_meta "topic" "channel" "/data" 1048576 0 1024 2500
    2 false.

Definition later_files : dataFiles :=
  fun n => if n =? 2 then Some (frames10 1) else None.


(** A reader on which [Close] or [Delete] was called. *)
Definition closed_reader : diskQueueReader :=
  match exit false reading_reader with
  | Done d => d
  | _ => reading_reader
  end.

(** The reader of the examples after it confirmed all it read. *)
Definition confirmed_reader : diskQueueReader :=
  set_virtualConfirmedOffset 28
    (set_confirmedOffset (mkOffset 1 14) reading_reader).

(** The engine of the examples between two iterations: the reader is in
    the middle of file 1 and no read error is held. *)
Definition running_engine : engine :=
  mkEngine reading_reader loopVars_init no_meta.

(** Frames of six payload bytes (ten bytes each). *)
Definition frame6 : list byte := [x00; x00; x00; x06] ++ repeat x42 6.

Fixpoint frames6 (n : nat) : list byte :=
  match n with
  | O => []
  | S n' => frame6 ++ frames6 n'
  end.

(** File 0 holds a thousand frames of ten bytes, file 1 one frame of 14
    bytes. *)
Definition window_files : dataFiles :=
  fun n => if n =? 0 then Some (frames6 1000)
           else if n =? 1 then Some (frames10 1)
           else None.

(** The engine as [ioLoop] starts it on a new reader. *)
Definition fresh_engine : engine :=
  mkEngine fresh_reader loopVars_init no_meta.

(** The offsets of the messages among the answers of a run. *)
Fixpoint delivered_offsets (rps : list reply) : list BackendOffset :=
  match rps with
  | [] => []
  | Delivered rr :: rps' => rr_offset rr :: delivered_offsets rps'
  | _ :: rps' => delivered_offsets rps'
  end.

(** The engine after all of file 0 was delivered and nothing was
    confirmed: exactly [maxConfirmWin] bytes wait for a confirm. *)
Definition window_full_engine : engine :=
  mkEngine
    (set_virtualReadOffset 10000
       (set_readPos (mkOffset 1 0)
          (set_virtualEnd 10014
             (set_endPos (mkOffset 1 14)
                (set_totalMsgCnt 1001 fresh_reader)))))
    (mkLoopVars (mkReadResult 9990 (repeat x42 6) None) None 1001 true true)
    no_meta.

(* ================================================================== *)
(** * Invariants *)
(* ================================================================== *)

(** The file numbers of the read position and of the end are [int64]
    values, and the read position is not in a file after the one of the
    end. *)
Definition files_ordered (d : diskQueueReader) : Prop :=
  int64 (FileNum (readPos d))
  /\ int64 (FileNum (endPos d))
  /\ FileNum (readPos d) <= FileNum (endPos d).

(** The end descriptor of an end update holds an [int64] file number. *)
Definition event_typed (ev : event) : Prop :=
  match ev with
  | EvEndUpdated q => int64 (EndFileNum q)
  | _ => True
  end.

(** The confirmed position is not beyond the read position, in the
    files and in the virtual stream. *)
Definition confirmed_behind_read (d : diskQueueReader) : Prop :=
  offset_le (confirmedOffset d) (readPos d)
  /\ virtualConfirmedOffset d <= virtualReadOffset d.

(** The part of the reader a confirm leaves alone. *)
Definition confirm_frame_rel (d d' : diskQueueReader) : Prop :=
  readPos d' = readPos d
  /\ virtualReadOffset d' = virtualReadOffset d
  /\ endPos d' = endPos d
  /\ virtualEnd d' = virtualEnd d
  /\ totalMsgCnt d' = totalMsgCnt d
  /\ readFile d' = readFile d
  /\ needSync d' = needSync d
  /\ exitFlag d' = exitFlag d.



(** The end the reader holds, as a descriptor. *)
Definition current_end (d : diskQueueReader) : diskQueueEndInfo :=
  mkEndInfo (FileNum (endPos d)) (Pos (endPos d)) (virtualEnd d)
    (totalMsgCnt d).


(** Files 0, 1 and 2 of 14, 28 and 14 bytes. *)
Definition three_files : dataFiles :=
  fun n => if n =? 0 then Some (frames10 1)
           else if n =? 1 then Some (frames10 2)
           else if n =? 2 then Some (frames10 1)
           else None.

(* ================================================================== *)
(** * Properties *)
(* ================================================================== *)

(** ** Machine integers *)

Lemma wrap64_id z : int64 z -> wrap64 z = z.
Proof.
  unfold int64, min_int64, max_int64, wrap64. intros H.
  rewrite Z.mod_small; lia.
Qed.

Lemma wrap64_int64 z : int64 (wrap64 z).
Proof.
  unfold int64, min_int64, max_int64, wrap64.
  pose proof (Z.mod_pos_bound (z + 2 ^ 63) (2 ^ 64) ltac:(lia)). lia.
Qed.

Lemma add64_id a b : int64 (a + b) -> add64 a b = a + b.
Proof. apply wrap64_id. Qed.

Lemma sub64_id a b : int64 (a - b) -> sub64 a b = a - b.
Proof. apply wrap64_id. Qed.

Lemma int64b_true z : int64b z = true <-> int64 z.
Proof.
  unfold int64b, int64. rewrite andb_true_iff, !Z.leb_le. tauto.
Qed.

(** Case analysis on the comparisons the embedding uses. *)
Ltac zcmp :=
  repeat match goal with
  | |- context [?a >? ?b] => rewrite (Z.gtb_ltb a b)
  | |- context [?a >=? ?b] => rewrite (Z.geb_leb a b)
  | H : context [?a >? ?b] |- _ => rewrite (Z.gtb_ltb a b) in H
  | H : context [?a >=? ?b] |- _ => rewrite (Z.geb_leb a b) in H
  end.

Ltac zcase :=
  zcmp;
  repeat match goal with
  | |- context [?a <? ?b] => destruct (Z.ltb_spec a b)
  | |- context [?a <=? ?b] => destruct (Z.leb_spec a b)
  | |- context [?a =? ?b] => destruct (Z.eqb_spec a b)
  | H : context [?a <? ?b] |- _ => destruct (Z.ltb_spec a b)
  | H : context [?a <=? ?b] |- _ => destruct (Z.leb_spec a b)
  | H : context [?a =? ?b] |- _ => destruct (Z.eqb_spec a b)
  end.

(** Case analysis on every conditional of a goal, and the facts the
    chosen branches stand for. *)
Ltac split_ifs :=
  repeat match goal with
  | |- context [if ?b then _ else _] => destruct b eqn:?; simpl in *
  end.

Ltac bool_facts :=
  repeat match goal with
  | H : _ && _ = true |- _ => apply andb_true_iff in H; destruct H
  | H : _ && _ = false |- _ => apply andb_false_iff in H
  | H : _ || _ = true |- _ => apply orb_true_iff in H
  | H : _ || _ = false |- _ => apply orb_false_iff in H; destruct H
  | H : negb _ = true |- _ => apply negb_true_iff in H
  | H : negb _ = false |- _ => apply negb_false_iff in H
  | H : (_ =? _) = true |- _ => apply Z.eqb_eq in H
  | H : (_ =? _) = false |- _ => apply Z.eqb_neq in H
  | H : (_ <? _) = true |- _ => apply Z.ltb_lt in H
  | H : (_ <? _) = false |- _ => apply Z.ltb_ge in H
  | H : (_ <=? _) = true |- _ => apply Z.leb_le in H
  | H : (_ <=? _) = false |- _ => apply Z.leb_gt in H
  | H : (_ >? _) = true |- _ => rewrite Z.gtb_ltb in H
  | H : (_ >? _) = false |- _ => rewrite Z.gtb_ltb in H
  | H : (_ >=? _) = true |- _ => rewrite Z.geb_leb in H
  | H : (_ >=? _) = false |- _ => rewrite Z.geb_leb in H
  end.

(** ** The order on offsets *)

Lemma GreatThan_spec a b : GreatThan a b = true <-> offset_lt b a.
Proof.
  unfold GreatThan, offset_lt. zcase; simpl; split; intros; try lia; auto;
    try discriminate.
Qed.

Lemma GreatThan_false a b : GreatThan a b = false <-> offset_le a b.
Proof.
  unfold GreatThan, offset_le. zcase; simpl; split; intros; try lia; auto;
    try discriminate.
Qed.

Lemma offset_eqb_eq a b : offset_eqb a b = true <-> a = b.
Proof.
  unfold offset_eqb. destruct a, b; simpl.
  rewrite andb_true_iff, !Z.eqb_eq. split.
  - intros [-> ->]; reflexivity.
  - intros [= -> ->]; auto.
Qed.

(** ** The step loop and its fuel *)

(** More fuel never changes a result. *)
Lemma stepOffset_loop_mono k fs cur maxStep :
  forall o s res,
    stepOffset_loop k fs cur o s maxStep = Some res ->
    forall k', (k <= k')%nat ->
      stepOffset_loop k' fs cur o s maxStep = Some res.
Proof.
  induction k as [|k IH]; intros o s res H k' Hk; [discriminate|].
  destruct k' as [|k']; [lia|].
  simpl in *.
  destruct (if FileNum cur <? FileNum maxStep
            then getCurrentFileEnd fs o else Ok (Pos maxStep)); auto.
  destruct (s >? sub64 a (Pos o)); auto.
  destruct (GreatThan _ maxStep); auto.
  destruct (sub64 s (sub64 a (Pos o)) =? 0); auto.
  apply IH; [assumption | lia].
Qed.

Lemma stepOffset_mono k fs cur s maxStep res :
  stepOffset k fs cur s maxStep = Some res ->
  forall k', (k <= k')%nat -> stepOffset k' fs cur s maxStep = Some res.
Proof.
  unfold stepOffset. intros H k' Hk.
  destruct (FileNum cur >? FileNum maxStep); auto.
  destruct (s =? 0); auto.
  eapply stepOffset_loop_mono; eauto.
Qed.

(** Two runs that both end agree, whatever their fuel. *)
Lemma stepOffset_loop_det k1 k2 fs cur o s maxStep r1 r2 :
  stepOffset_loop k1 fs cur o s maxStep = Some r1 ->
  stepOffset_loop k2 fs cur o s maxStep = Some r2 ->
  r1 = r2.
Proof.
  intros H1 H2.
  apply stepOffset_loop_mono with (k' := Nat.max k1 k2) in H1; [|lia].
  apply stepOffset_loop_mono with (k' := Nat.max k1 k2) in H2; [|lia].
  congruence.
Qed.

Lemma stepOffset_det k1 k2 fs cur s maxStep r1 r2 :
  stepOffset k1 fs cur s maxStep = Some r1 ->
  stepOffset k2 fs cur s maxStep = Some r2 ->
  r1 = r2.
Proof.
  intros H1 H2.
  apply stepOffset_mono with (k' := Nat.max k1 k2) in H1; [|lia].
  apply stepOffset_mono with (k' := Nat.max k1 k2) in H2; [|lia].
  congruence.
Qed.

(** The loop looks at [cur] only to compare its file number with the
    one of [maxStep]. *)
Lemma stepOffset_loop_cur k fs cur cur' maxStep :
  (FileNum cur <? FileNum maxStep) = (FileNum cur' <? FileNum maxStep) ->
  forall o s,
    stepOffset_loop k fs cur o s maxStep
    = stepOffset_loop k fs cur' o s maxStep.
Proof.
  intros E. induction k as [|k IH]; intros o s; [reflexivity|].
  simpl. rewrite E.
  destruct (if FileNum cur' <? FileNum maxStep
            then getCurrentFileEnd fs o else Ok (Pos maxStep)); auto.
  destruct (s >? sub64 a (Pos o)); auto.
  destruct (GreatThan _ maxStep); auto.
  destruct (sub64 s (sub64 a (Pos o)) =? 0); auto.
Qed.

(** The loop ends: every pass that does not return moves to the next
    file, and no file lies beyond the one of [maxStep]. *)
Lemma stepOffset_loop_terminates fs cur maxStep :
  FileNum maxStep < max_int64 ->
  forall k o s,
    min_int64 <= FileNum o <= FileNum maxStep ->
    FileNum maxStep - FileNum o < Z.of_nat k ->
    exists res, stepOffset_loop k fs cur o s maxStep = Some res.
Proof.
  intros Hmax. induction k as [|k IH]; intros o s Ho Hk; [lia|].
  simpl.
  destruct (if FileNum cur <? FileNum maxStep
            then getCurrentFileEnd fs o else Ok (Pos maxStep)); eauto.
  destruct (s >? sub64 a (Pos o)).
  - destruct (GreatThan _ maxStep) eqn:G; eauto.
    destruct (sub64 s (sub64 a (Pos o)) =? 0); eauto.
    apply GreatThan_false in G. unfold offset_le in G. simpl in G.
    rewrite add64_id in * by (unfold int64, max_int64, min_int64 in *; lia).
    apply IH; simpl; rewrite ?add64_id
      by (unfold int64, max_int64, min_int64 in *; lia);
      unfold min_int64 in *; lia.
  - destruct (GreatThan _ maxStep); eauto.
Qed.

Lemma stepOffset_terminates fs cur s maxStep :
  FileNum maxStep < max_int64 ->
  min_int64 <= FileNum cur ->
  exists res,
    stepOffset (S (Z.to_nat (FileNum maxStep - FileNum cur))) fs cur s maxStep
    = Some res.
Proof.
  intros Hmax Hmin. unfold stepOffset.
  destruct (Z.gtb_spec (FileNum cur) (FileNum maxStep)); eauto.
  destruct (s =? 0); eauto.
  apply stepOffset_loop_terminates; auto; lia.
Qed.

(** ** Stepping by a negative count *)

Lemma segmentEnd_loop fs cur maxStep :
  (if FileNum cur <? FileNum maxStep
   then getCurrentFileEnd fs cur else Ok (Pos maxStep))
  = segmentEnd fs cur maxStep.
Proof. reflexivity. Qed.

(** C2, the claim as stated fails: from position 10 of file 0, with the
    bound at position 20 of the same file, the count -5 is not rejected;
    [stepOffset] returns position 5, behind the start. *)
Lemma stepOffset_negative_accepted :
  FileNum (mkOffset 0 10) <= FileNum (mkOffset 0 20) /\ -5 < 0 /\
  stepOffset 1 (fun _ => None) (mkOffset 0 10) (-5) (mkOffset 0 20)
  = Some (Ok (mkOffset 0 5)).
Proof. repeat split; try lia; reflexivity. Qed.

(** C2, as amended: [stepOffset] does not reject a negative count.  For
    every [cur] with [cur.FileNum <= maxStep.FileNum] whose position
    lies between 0 and the end of its segment (the size of its file when
    it is in a file before the one of [maxStep], [maxStep.Pos]
    otherwise) and every negative [n], the call returns, without error,
    the offset [(cur.FileNum, cur.Pos + n)]: the position moves
    backward. *)
Theorem stepOffset_negative_moves_backward
  (fuel : nat) (fs : dataFiles) (cur maxStep : diskQueueOffset)
  (n fend : Z) :
  FileNum cur <= FileNum maxStep ->
  segmentEnd fs cur maxStep = Ok fend ->
  0 <= Pos cur <= fend ->
  fend <= max_int64 ->
  min_int64 <= n < 0 ->
  stepOffset (S fuel) fs cur n maxStep
  = Some (Ok (mkOffset (FileNum cur) (Pos cur + n))).
Proof.
  intros Hf Hend Hpos Hfit Hn.
  unfold stepOffset.
  destruct (Z.gtb_spec (FileNum cur) (FileNum maxStep)); [lia|].
  destruct (Z.eqb_spec n 0); [lia|].
  simpl. rewrite segmentEnd_loop, Hend.
  assert (Hd : sub64 fend (Pos cur) = fend - Pos cur).
  { apply sub64_id. unfold int64, min_int64, max_int64 in *. lia. }
  rewrite Hd.
  destruct (Z.gtb_spec n (fend - Pos cur)); [lia|].
  assert (Ha : add64 (Pos cur) n = Pos cur + n).
  { apply add64_id. unfold int64, min_int64, max_int64 in *. lia. }
  rewrite Ha.
  destruct (GreatThan _ maxStep) eqn:G; [|reflexivity].
  exfalso. apply GreatThan_spec in G. unfold offset_lt in G. simpl in G.
  unfold segmentEnd in Hend.
  destruct (Z.ltb_spec (FileNum cur) (FileNum maxStep)).
  - lia.
  - injection Hend as <-. lia.
Qed.

Lemma stepOffset_negative_moves_backward_witness :
  stepOffset 1 (fun n => if n =? 0 then Some (repeat x00 30) else None)
    (mkOffset 0 14) (-14) (mkOffset 1 28)
  = Some (Ok (mkOffset 0 0)).
Proof.
  apply (stepOffset_negative_moves_backward 0
           (fun n => if n =? 0 then Some (repeat x00 30) else None)
           (mkOffset 0 14) (mkOffset 1 28) (-14) 30).
  - simpl; lia.
  - reflexivity.
  - simpl; lia.
  - unfold max_int64; lia.
  - unfold min_int64; lia.
Defined.

(** ** Additivity of the step *)

Section Additivity.

Variable fs : dataFiles.
Variables cur maxStep : diskQueueOffset.
Variable m : Z.

Hypothesis fs_fit : files_fit fs.
Hypothesis max_pos : 0 <= Pos maxStep <= max_int64.
Hypothesis max_file : FileNum maxStep < max_int64.
Hypothesis m_nonneg : 0 <= m.

(** Inside the loop: a run for [s] bytes that ends in [y], followed by
    a step of [m] bytes from [y], agrees with the run for [s + m]
    bytes from the same loop state. *)
Lemma stepOffset_loop_additive :
  forall k1 o s k2 k3 y z z',
    min_int64 <= FileNum cur <= FileNum o ->
    FileNum o <= FileNum maxStep ->
    0 <= Pos o ->
    0 < s ->
    Pos o + s + m <= max_int64 ->
    stepOffset_loop k1 fs cur o s maxStep = Some (Ok y) ->
    stepOffset k2 fs y m maxStep = Some (Ok z) ->
    stepOffset_loop k3 fs cur o (s + m) maxStep = Some (Ok z') ->
    z = z'.
Proof.
  induction k1 as [|k1 IH]; intros o s k2 k3 y z z' Hcur Ho Hpos Hs Hsum
    H1 H2 H3; [discriminate|].
  destruct k3 as [|k3]; [discriminate|].
  simpl in H1, H3.
  destruct (if FileNum cur <? FileNum maxStep
            then getCurrentFileEnd fs o else Ok (Pos maxStep))
    as [fend|e] eqn:Hend; [|discriminate].
  assert (Hfend : 0 <= fend <= max_int64).
  { destruct (FileNum cur <? FileNum maxStep).
    - unfold getCurrentFileEnd in Hend.
      destruct (fs (FileNum o)) as [bs|] eqn:Hbs; [|discriminate].
      injection Hend as <-. split; [lia|]. eapply fs_fit; eauto.
    - injection Hend as <-. assumption. }
  assert (Hd : sub64 fend (Pos o) = fend - Pos o).
  { apply sub64_id. unfold int64, min_int64, max_int64 in *. lia. }
  rewrite Hd in H1, H3.
  assert (Hinc : add64 (FileNum o) 1 = FileNum o + 1).
  { apply add64_id. unfold int64, min_int64, max_int64 in *. lia. }
  rewrite Hinc in H1, H3.
  destruct (Z.gtb_spec s (fend - Pos o)) as [Hgt|Hle].
  - (* the run for [s] moves to the next file, and so does the other *)
    destruct (Z.gtb_spec (s + m) (fend - Pos o)); [|lia].
    destruct (GreatThan (mkOffset (FileNum o + 1) 0) maxStep) eqn:G;
      [discriminate|].
    apply GreatThan_false in G. unfold offset_le in G. simpl in G.
    assert (Hs1 : sub64 s (fend - Pos o) = s - (fend - Pos o)).
    { apply sub64_id. unfold int64, min_int64, max_int64 in *. lia. }
    assert (Hs3 : sub64 (s + m) (fend - Pos o)
                  = s - (fend - Pos o) + m).
    { unfold sub64. rewrite wrap64_id.
      - lia.
      - unfold int64, min_int64, max_int64 in *. lia. }
    rewrite Hs1 in H1. rewrite Hs3 in H3.
    destruct (Z.eqb_spec (s - (fend - Pos o)) 0); [lia|].
    destruct (Z.eqb_spec (s - (fend - Pos o) + m) 0); [lia|].
    apply (IH (mkOffset (FileNum o + 1) 0) (s - (fend - Pos o))
              k2 k3 y z z'); simpl; try assumption;
      unfold min_int64, max_int64 in *; lia.
  - (* the run for [s] ends in this file *)
    assert (Ha : add64 (Pos o) s = Pos o + s).
    { apply add64_id. unfold int64, min_int64, max_int64 in *. lia. }
    rewrite Ha in H1.
    destruct (GreatThan (set_Pos (Pos o + s) o) maxStep) eqn:Gy;
      [discriminate|].
    injection H1 as <-.
    apply GreatThan_false in Gy. unfold offset_le in Gy. simpl in Gy.
    unfold stepOffset in H2. simpl in H2.
    destruct (Z.gtb_spec (FileNum o) (FileNum maxStep)); [lia|].
    destruct (Z.eqb_spec m 0) as [->|Hm].
    + (* nothing more to step *)
      injection H2 as <-.
      rewrite Z.add_0_r in H3.
      destruct (Z.gtb_spec s (fend - Pos o)); [lia|].
      rewrite Ha in H3.
      destruct (GreatThan (set_Pos (Pos o + s) o) maxStep);
        [discriminate|].
      injection H3 as <-. reflexivity.
    + destruct k2 as [|k2]; [discriminate|].
      simpl in H2.
      destruct (Z.gtb_spec (s + m) (fend - Pos o)) as [Hgt3|Hle3].
      * (* the long run moves on; the second step must follow it *)
        destruct (GreatThan (mkOffset (FileNum o + 1) 0) maxStep) eqn:G;
          [discriminate|].
        apply GreatThan_false in G. unfold offset_le in G. simpl in G.
        assert (Hlt : FileNum o < FileNum maxStep) by lia.
        destruct (Z.ltb_spec (FileNum o) (FileNum maxStep)); [|lia].
        destruct (Z.ltb_spec (FileNum cur) (FileNum maxStep)); [|lia].
        unfold getCurrentFileEnd in Hend, H2. simpl in H2.
        destruct (fs (FileNum o)) as [bs|]; [|discriminate].
        injection Hend as Hend.
        rewrite Hend in H2.
        assert (Hd2 : sub64 fend (Pos o + s) = fend - (Pos o + s)).
        { apply sub64_id. unfold int64, min_int64, max_int64 in *. lia. }
        rewrite Hd2, Hinc in H2.
        destruct (Z.gtb_spec m (fend - (Pos o + s))); [|lia].
        destruct (GreatThan (mkOffset (FileNum o + 1) 0) maxStep) eqn:G';
          [discriminate|].
        assert (Hs2 : sub64 m (fend - (Pos o + s))
                      = s - (fend - Pos o) + m).
        { unfold sub64. rewrite wrap64_id.
          - lia.
          - unfold int64, min_int64, max_int64 in *. lia. }
        assert (Hs3 : sub64 (s + m) (fend - Pos o)
                      = s - (fend - Pos o) + m).
        { unfold sub64. rewrite wrap64_id.
          - lia.
          - unfold int64, min_int64, max_int64 in *. lia. }
        rewrite Hs2 in H2. rewrite Hs3 in H3.
        destruct (Z.eqb_spec (s - (fend - Pos o) + m) 0); [lia|].
        rewrite (stepOffset_loop_cur k2 fs (set_Pos (Pos o + s) o) cur)
          in H2.
        -- pose proof (stepOffset_loop_det _ _ _ _ _ _ _ _ _ H2 H3) as E.
           congruence.
        -- simpl.
           destruct (Z.ltb_spec (FileNum o) (FileNum maxStep));
             destruct (Z.ltb_spec (FileNum cur) (FileNum maxStep));
             auto; lia.
      * (* both end in this file *)
        assert (Ha3 : add64 (Pos o) (s + m) = Pos o + s + m).
        { unfold add64. rewrite wrap64_id.
          - lia.
          - unfold int64, min_int64, max_int64 in *. lia. }
        rewrite Ha3 in H3.
        destruct (GreatThan (set_Pos (Pos o + s + m) o) maxStep) eqn:Gz;
          [discriminate|].
        injection H3 as <-.
        apply GreatThan_false in Gz. unfold offset_le in Gz. simpl in Gz.
        destruct (if FileNum o <? FileNum maxStep
                  then getCurrentFileEnd fs (set_Pos (Pos o + s) o)
                  else Ok (Pos maxStep)) as [fend2|e2] eqn:Hend2;
          [|discriminate].
        assert (Hfend2 : 0 <= fend2 <= max_int64).
        { destruct (FileNum o <? FileNum maxStep).
          - unfold getCurrentFileEnd in Hend2. simpl in Hend2.
            destruct (fs (FileNum o)) as [bs|] eqn:Hbs; [|discriminate].
            injection Hend2 as <-. split; [lia|]. eapply fs_fit; eauto.
          - injection Hend2 as <-. assumption. }
        assert (Hd2 : sub64 fend2 (Pos o + s) = fend2 - (Pos o + s)).
        { apply sub64_id. unfold int64, min_int64, max_int64 in *. lia. }
        rewrite Hd2, Hinc in H2.
        assert (Ha2 : add64 (Pos o + s) m = Pos o + s + m).
        { apply add64_id. unfold int64, min_int64, max_int64 in *. lia. }
        rewrite Ha2 in H2.
        destruct (Z.gtb_spec m (fend2 - (Pos o + s))) as [Hgt2|Hle2].
        -- (* the second step would leave the file: then it fails *)
           exfalso.
           destruct (Z.ltb_spec (FileNum o) (FileNum maxStep)) as [Hlt|Hge].
           ++ destruct (Z.ltb_spec (FileNum cur) (FileNum maxStep));
                [|lia].
              unfold getCurrentFileEnd in Hend, Hend2. simpl in Hend2.
              destruct (fs (FileNum o)); [|discriminate].
              injection Hend as Hend. injection Hend2 as Hend2. lia.
           ++ destruct (GreatThan (mkOffset (FileNum o + 1) 0) maxStep)
                eqn:G; [discriminate|].
              apply GreatThan_false in G. unfold offset_le in G.
              simpl in G. lia.
        -- destruct (GreatThan _ maxStep); [discriminate|].
           injection H2 as <-. reflexivity.
Qed.

End Additivity.
(** ** What a step reaches *)

(** The loop never hands back an offset beyond [maxStep], and never one
    in a file before the one it started in. *)
Lemma stepOffset_loop_bounded k fs cur maxStep :
  forall o s y,
    stepOffset_loop k fs cur o s maxStep = Some (Ok y) ->
    GreatThan y maxStep = false.
Proof.
  induction k as [|k IH]; intros o s y H; [discriminate|].
  simpl in H.
  destruct (if FileNum cur <? FileNum maxStep
            then getCurrentFileEnd fs o else Ok (Pos maxStep));
    [|discriminate].
  destruct (s >? sub64 a (Pos o)).
  - destruct (GreatThan _ maxStep) eqn:G; [discriminate|].
    destruct (sub64 s (sub64 a (Pos o)) =? 0).
    + injection H as <-. exact G.
    + eapply IH; eauto.
  - destruct (GreatThan _ maxStep) eqn:G; [discriminate|].
    injection H as <-. exact G.
Qed.

Lemma stepOffset_bounded fuel fs cur maxStep y n :
  stepOffset fuel fs cur n maxStep = Some (Ok y) ->
  (n = 0 /\ y = cur) \/ (n <> 0 /\ offset_le y maxStep).
Proof.
  unfold stepOffset. intros H.
  destruct (Z.gtb_spec (FileNum cur) (FileNum maxStep)); [discriminate|].
  destruct (Z.eqb_spec n 0) as [Hn0|Hn].
  - injection H as <-. auto.
  - apply stepOffset_loop_bounded in H. apply GreatThan_false in H. auto.
Qed.

Lemma stepOffset_keeps_below fuel fs cur maxStep y n :
  stepOffset fuel fs cur n maxStep = Some (Ok y) ->
  offset_le cur maxStep -> offset_le y maxStep.
Proof.
  intros H Hle. apply stepOffset_bounded in H.
  destruct H as [[_ ->]|[_ H]]; assumption.
Qed.

(** The distance looks at the fuel only to recurse. *)
Lemma getVirtualOffsetDistance_from_S fs next :
  forall k prev,
    FileNum prev < FileNum next ->
    getVirtualOffsetDistance_from (S k) fs prev next
    = match getCurrentFileEnd fs prev with
      | Err e => Err e
      | Ok fsize =>
        match getVirtualOffsetDistance_from k fs
                (mkOffset (add64 (FileNum prev) 1) 0) next with
        | Err e => Err e
        | Ok vdiff => Ok (add64 vdiff (sub64 fsize (Pos prev)))
        end
      end.
Proof.
  intros k prev H. simpl.
  destruct (GreatThan prev next) eqn:G.
  - apply GreatThan_spec in G. unfold offset_lt in G. lia.
  - destruct (Z.eqb_spec (FileNum prev) (FileNum next)); [lia|reflexivity].
Qed.

Section StepDistance.

Variable fs : dataFiles.
Variables cur maxStep : diskQueueOffset.

Hypothesis fs_fit : files_fit fs.
Hypothesis max_pos : 0 <= Pos maxStep <= max_int64.
Hypothesis max_file : FileNum maxStep < max_int64.

(** Inside the loop: the offset a run for [s] bytes ends in lies [s]
    bytes after the loop state it started from. *)
Lemma stepOffset_loop_distance :
  forall k o s y,
    min_int64 <= FileNum cur <= FileNum o ->
    FileNum o <= FileNum maxStep ->
    0 <= Pos o ->
    0 < s ->
    Pos o + s <= max_int64 ->
    stepOffset_loop k fs cur o s maxStep = Some (Ok y) ->
    FileNum o <= FileNum y
    /\ getVirtualOffsetDistance fs o y = Ok s.
Proof.
  induction k as [|k IH]; intros o s y Hcur Ho Hpos Hs Hsum H;
    [discriminate|].
  simpl in H.
  destruct (if FileNum cur <? FileNum maxStep
            then getCurrentFileEnd fs o else Ok (Pos maxStep))
    as [fend|e] eqn:Hend; [|discriminate].
  assert (Hfend : 0 <= fend <= max_int64).
  { destruct (FileNum cur <? FileNum maxStep).
    - unfold getCurrentFileEnd in Hend.
      destruct (fs (FileNum o)) as [bs|] eqn:Hbs; [|discriminate].
      injection Hend as <-. split; [lia|]. eapply fs_fit; eauto.
    - injection Hend as <-. assumption. }
  assert (Hd : sub64 fend (Pos o) = fend - Pos o).
  { apply sub64_id. unfold int64, min_int64, max_int64 in *. lia. }
  rewrite Hd in H.
  assert (Hinc : add64 (FileNum o) 1 = FileNum o + 1).
  { apply add64_id. unfold int64, min_int64, max_int64 in *. lia. }
  rewrite Hinc in H.
  destruct (Z.gtb_spec s (fend - Pos o)) as [Hgt|Hle].
  - destruct (GreatThan (mkOffset (FileNum o + 1) 0) maxStep) eqn:G;
      [discriminate|].
    apply GreatThan_false in G. unfold offset_le in G. simpl in G.
    assert (Hs1 : sub64 s (fend - Pos o) = s - (fend - Pos o)).
    { apply sub64_id. unfold int64, min_int64, max_int64 in *. lia. }
    rewrite Hs1 in H.
    destruct (Z.eqb_spec (s - (fend - Pos o)) 0); [lia|].
    destruct (Z.ltb_spec (FileNum cur) (FileNum maxStep)); [|lia].
    apply IH in H; simpl; try (unfold min_int64, max_int64 in *; lia).
    destruct H as [Hfy Hdist]. simpl in Hfy.
    split; [lia|].
    unfold getVirtualOffsetDistance in *. simpl in Hdist.
    replace (Z.to_nat (FileNum y - FileNum o))
      with (S (Z.to_nat (FileNum y - (FileNum o + 1)))) by lia.
    rewrite getVirtualOffsetDistance_from_S by lia.
    rewrite Hend, Hinc, Hdist, Hd.
    f_equal. rewrite add64_id; [lia|].
    unfold int64, min_int64, max_int64 in *. lia.
  - assert (Ha : add64 (Pos o) s = Pos o + s).
    { apply add64_id. unfold int64, min_int64, max_int64 in *. lia. }
    rewrite Ha in H.
    destruct (GreatThan (set_Pos (Pos o + s) o) maxStep); [discriminate|].
    injection H as <-. simpl. split; [lia|].
    unfold getVirtualOffsetDistance. simpl.
    rewrite Z.sub_diag. simpl.
    unfold GreatThan. simpl.
    destruct (Z.gtb_spec (FileNum o) (FileNum o)); [lia|].
    rewrite Z.eqb_refl. simpl.
    destruct (Z.gtb_spec (Pos o) (Pos o + s)); [lia|].
    f_equal. rewrite sub64_id; [lia|].
    unfold int64, min_int64, max_int64 in *. lia.
Qed.

End StepDistance.


(** C3, the claim as stated fails where the 64-bit arithmetic wraps.
    With files of 14, 28 and 14 bytes and the bound at position 14 of
    file 2, start at position [2^62] of file 0 and take the counts
    [2^62 + 14] and [30], both non-negative.  The three calls all return
    without error, but the two steps in a row end in file 2 and the
    single step ends in file 1. *)
Lemma stepOffset_not_additive_on_overflow :
  0 <= 2 ^ 62 + 14 /\ 0 <= 30
  /\ stepOffset 3 three_files (mkOffset 0 (2 ^ 62)) (2 ^ 62 + 14)
       (mkOffset 2 14)
     = Some (Ok (mkOffset 1 (- 2 ^ 63)))
  /\ stepOffset 3 three_files (mkOffset 1 (- 2 ^ 63)) 30 (mkOffset 2 14)
     = Some (Ok (mkOffset 2 (- 2 ^ 63 + 2)))
  /\ stepOffset 3 three_files (mkOffset 0 (2 ^ 62)) (2 ^ 62 + 14 + 30)
       (mkOffset 2 14)
     = Some (Ok (mkOffset 1 (- 2 ^ 63 + 30)))
  /\ mkOffset 2 (- 2 ^ 63 + 2) <> mkOffset 1 (- 2 ^ 63 + 30).
Proof.
  split; [lia|]. split; [lia|].
  split; [vm_compute; reflexivity|].
  split; [vm_compute; reflexivity|].
  split; [vm_compute; reflexivity|].
  discriminate.
Qed.

(** C3, as amended: the step is additive where the 64-bit arithmetic of
    the source computes exactly.  For files whose sizes fit 64 bits, a
    bound with a non-negative position in a file below the greatest
    64-bit number, a start [x] with a non-negative position, and
    non-negative counts [n] and [m] with [x.Pos + n + m] not above the
    greatest 64-bit integer: if stepping [n] bytes from [x] gives [y],
    stepping [m] bytes from [y] gives [z], and stepping [n + m] bytes
    from [x] gives [z'], all bounded by [maxStep] and without error,
    then [z = z']. *)
Theorem stepOffset_additive
  (fs : dataFiles) (x maxStep : diskQueueOffset) (n m : Z)
  (k1 k2 k3 : nat) (y z z' : diskQueueOffset) :
  files_fit fs ->
  0 <= Pos maxStep <= max_int64 ->
  FileNum maxStep < max_int64 ->
  min_int64 <= FileNum x ->
  0 <= Pos x ->
  0 <= n ->
  0 <= m ->
  Pos x + n + m <= max_int64 ->
  stepOffset k1 fs x n maxStep = Some (Ok y) ->
  stepOffset k2 fs y m maxStep = Some (Ok z) ->
  stepOffset k3 fs x (n + m) maxStep = Some (Ok z') ->
  z = z'.
Proof.
  intros Hfit Hmp Hmf Hxf Hxp Hn Hm Hsum H1 H2 H3.
  assert (H1' := H1). assert (H3' := H3).
  unfold stepOffset in H1, H3.
  destruct (Z.gtb_spec (FileNum x) (FileNum maxStep)); [discriminate|].
  destruct (Z.eqb_spec n 0) as [->|Hn0].
  - injection H1 as <-. simpl in H3'.
    pose proof (stepOffset_det _ _ _ _ _ _ _ _ H2 H3') as E. congruence.
  - destruct (Z.eqb_spec (n + m) 0); [lia|].
    eapply (stepOffset_loop_additive fs x maxStep m Hfit Hmp Hmf Hm
              k1 x n k2 k3 y z z'); try eassumption; lia.
Qed.

Lemma rolled_files_fit : files_fit rolled_files.
Proof.
  intros n bs. unfold rolled_files.
  destruct (n =? 0); [|destruct (n =? 1)]; intros [= <-];
    unfold max_int64; simpl; lia.
Qed.

Lemma stepOffset_additive_witness :
  stepOffset 2 rolled_files (mkOffset 0 0) 14 (mkOffset 1 28)
    = Some (Ok (mkOffset 0 14))
  /\ stepOffset 2 rolled_files (mkOffset 0 14) 14 (mkOffset 1 28)
    = Some (Ok (mkOffset 1 14))
  /\ stepOffset 2 rolled_files (mkOffset 0 0) (14 + 14) (mkOffset 1 28)
    = Some (Ok (mkOffset 1 14))
  /\ mkOffset 1 14 = mkOffset 1 14.
Proof.
  split; [reflexivity | split; [reflexivity | split; [reflexivity | ]]].
  apply (stepOffset_additive rolled_files (mkOffset 0 0) (mkOffset 1 28)
           14 14 2 2 2 (mkOffset 0 14) (mkOffset 1 14) (mkOffset 1 14)).
  - exact rolled_files_fit.
  - unfold max_int64; simpl; lia.
  - unfold max_int64; simpl; lia.
  - unfold min_int64; simpl; lia.
  - simpl; lia.
  - lia.
  - lia.
  - unfold max_int64; simpl; lia.
  - reflexivity.
  - reflexivity.
  - reflexivity.
Defined.

(** ** Confirm *)

(** Without overflow the step count [internalConfirm] passes on is the
    plain difference. *)
Lemma diffVirtual_exact offset vconf :
  int64 offset -> 0 <= vconf <= offset -> sub64 offset vconf = offset - vconf.
Proof.
  intros H1 H2. apply sub64_id. unfold int64, min_int64, max_int64 in *. lia.
Qed.

(** C1: the four cases of a confirm request, in the order the engine
    tests them.  Offset -1 confirms everything that was read; an offset
    not above [virtualConfirmedOffset] changes nothing; an offset above
    [virtualReadOffset] fails with [ErrConfirmSizeInvalid]; otherwise
    [confirmedOffset] is stepped from its current value by
    [offset - virtualConfirmedOffset] bytes bounded by [readPos], and a
    failed step fails the request with [ErrConfirmSizeInvalid].  A
    request that fails leaves the reader as it was.  The request always
    returns once the step has enough fuel.  That the step advances by
    this number of bytes is measured with the distance of the source:
    where the 64-bit arithmetic is exact, a request that succeeds in the
    last case leaves the confirmed position
    [offset - virtualConfirmedOffset] bytes after the old one and not
    beyond [readPos], with [virtualConfirmedOffset = offset]. *)
Theorem internalConfirm_cases
  (fuel : nat) (fs : dataFiles) (d : diskQueueReader)
  (offset : BackendOffset) :
  (offset = -1 ->
   internalConfirm fuel fs d offset
   = Some (set_virtualConfirmedOffset (virtualReadOffset d)
             (set_confirmedOffset (readPos d) d), None))
  /\ (offset <> -1 -> offset <= virtualConfirmedOffset d ->
      internalConfirm fuel fs d offset = Some (d, None))
  /\ (offset <> -1 -> virtualConfirmedOffset d < offset ->
      virtualReadOffset d < offset ->
      internalConfirm fuel fs d offset = Some (d, Some ErrConfirmSizeInvalid))
  /\ (offset <> -1 ->
      virtualConfirmedOffset d < offset <= virtualReadOffset d ->
      forall res,
        stepOffset fuel fs (confirmedOffset d)
          (sub64 offset (virtualConfirmedOffset d)) (readPos d) = Some res ->
        internalConfirm fuel fs d offset
        = Some (match res with
                | Ok newConfirm =>
                  (set_virtualConfirmedOffset offset
                     (set_confirmedOffset newConfirm d), None)
                | Err _ => (d, Some ErrConfirmSizeInvalid)
                end))
  /\ (forall d' e,
        internalConfirm fuel fs d offset = Some (d', Some e) ->
        d' = d /\ e = ErrConfirmSizeInvalid)
  /\ (FileNum (readPos d) < max_int64 ->
      min_int64 <= FileNum (confirmedOffset d) ->
      exists res,
        internalConfirm
          (S (Z.to_nat (FileNum (readPos d) - FileNum (confirmedOffset d))))
          fs d offset = Some res)
  /\ (files_fit fs ->
      0 <= Pos (readPos d) <= max_int64 ->
      FileNum (readPos d) < max_int64 ->
      min_int64 <= FileNum (confirmedOffset d) ->
      0 <= Pos (confirmedOffset d) ->
      offset <> -1 ->
      virtualConfirmedOffset d < offset <= virtualReadOffset d ->
      Pos (confirmedOffset d) + (offset - virtualConfirmedOffset d)
      <= max_int64 ->
      forall d',
        internalConfirm fuel fs d offset = Some (d', None) ->
        getVirtualOffsetDistance fs (confirmedOffset d) (confirmedOffset d')
        = Ok (offset - virtualConfirmedOffset d)
        /\ offset_le (confirmedOffset d') (readPos d)
        /\ virtualConfirmedOffset d' = offset).
Proof.
  unfold internalConfirm.
  split; [|split; [|split; [|split; [|split; [|split]]]]].
  - intros ->. reflexivity.
  - intros Hn Hle.
    destruct (Z.eqb_spec offset (-1)); [contradiction|].
    destruct (Z.leb_spec offset (virtualConfirmedOffset d)); [reflexivity|lia].
  - intros Hn Hc Hr.
    destruct (Z.eqb_spec offset (-1)); [contradiction|].
    destruct (Z.leb_spec offset (virtualConfirmedOffset d)); [lia|].
    destruct (Z.gtb_spec offset (virtualReadOffset d)); [reflexivity|lia].
  - intros Hn [Hc Hr] res Hstep.
    destruct (Z.eqb_spec offset (-1)); [contradiction|].
    destruct (Z.leb_spec offset (virtualConfirmedOffset d)); [lia|].
    destruct (Z.gtb_spec offset (virtualReadOffset d)); [lia|].
    rewrite Hstep. destruct res; reflexivity.
  - intros d' e.
    destruct (offset =? -1); [intros [= _ E]; discriminate|].
    destruct (offset <=? virtualConfirmedOffset d);
      [intros [= _ E]; discriminate|].
    destruct (offset >? virtualReadOffset d); [intros [= <- <-]; auto|].
    destruct (stepOffset _ _ _ _ _) as [[p|e']|]; intros [= E1 E2];
      try discriminate; subst; auto.
  - intros Hmax Hmin.
    destruct (offset =? -1); eauto.
    destruct (offset <=? virtualConfirmedOffset d); eauto.
    destruct (offset >? virtualReadOffset d); eauto.
    destruct (stepOffset_terminates fs (confirmedOffset d)
                (sub64 offset (virtualConfirmedOffset d)) (readPos d)
                Hmax Hmin) as [res ->].
    destruct res; eauto.
  - intros Hfit Hrp Hrf Hcf Hcp Hn [Hc Hr] Hsum d'.
    destruct (Z.eqb_spec offset (-1)); [contradiction|].
    destruct (Z.leb_spec offset (virtualConfirmedOffset d)); [lia|].
    destruct (Z.gtb_spec offset (virtualReadOffset d)); [lia|].
    assert (Hdiff : sub64 offset (virtualConfirmedOffset d)
                    = offset - virtualConfirmedOffset d).
    { apply sub64_id. unfold int64, min_int64, max_int64 in *. lia. }
    rewrite Hdiff.
    destruct (stepOffset fuel fs (confirmedOffset d)
                (offset - virtualConfirmedOffset d) (readPos d))
      as [[p|e]|] eqn:Hstep; try discriminate.
    intros [= <-]. simpl.
    split; [|split; [|reflexivity]].
    + unfold stepOffset in Hstep.
      destruct (Z.gtb_spec (FileNum (confirmedOffset d))
                  (FileNum (readPos d))); [discriminate|].
      destruct (Z.eqb_spec (offset - virtualConfirmedOffset d) 0); [lia|].
      eapply (stepOffset_loop_distance fs (confirmedOffset d) (readPos d)
                Hfit Hrp Hrf); [| | | | |exact Hstep]; lia.
    + apply stepOffset_bounded in Hstep.
      destruct Hstep as [[Hz _]|[_ Hle]]; [lia|exact Hle].
Qed.

Lemma internalConfirm_cases_witness :
  internalConfirm 2 rolled_files reading_reader (-1)
  = Some (set_virtualConfirmedOffset 28
            (set_confirmedOffset (mkOffset 1 14) reading_reader), None)
  /\ internalConfirm 2 rolled_files reading_reader 0
     = Some (reading_reader, None)
  /\ internalConfirm 2 rolled_files reading_reader 29
     = Some (reading_reader, Some ErrConfirmSizeInvalid)
  /\ internalConfirm 2 rolled_files reading_reader 28
     = Some (set_virtualConfirmedOffset 28
               (set_confirmedOffset (mkOffset 1 14) reading_reader), None)
  /\ internalConfirm 2 rolled_files reading_reader 14
     = Some (set_virtualConfirmedOffset 14
               (set_confirmedOffset (mkOffset 0 14) reading_reader), None)
  /\ internalConfirm 2 rolled_files reading_reader 21
     = Some (set_virtualConfirmedOffset 21
               (set_confirmedOffset (mkOffset 1 7) reading_reader), None)
  /\ getVirtualOffsetDistance rolled_files (mkOffset 0 0) (mkOffset 1 7)
     = Ok (21 - 0)
  /\ offset_le (mkOffset 1 7) (mkOffset 1 14).
Proof.
  split; [|split; [|split; [|split; [|split; [|split]]]]].
  - apply (proj1 (internalConfirm_cases 2 rolled_files reading_reader (-1))).
    reflexivity.
  - apply (proj1 (proj2
             (internalConfirm_cases 2 rolled_files reading_reader 0))).
    + lia.
    + simpl; lia.
  - apply (proj1 (proj2 (proj2
             (internalConfirm_cases 2 rolled_files reading_reader 29)))).
    + lia.
    + simpl; lia.
    + simpl; lia.
  - apply (proj1 (proj2 (proj2 (proj2
             (internalConfirm_cases 2 rolled_files reading_reader 28))))
             ltac:(lia) ltac:(simpl; lia) (Ok (mkOffset 1 14))).
    reflexivity.
  - apply (proj1 (proj2 (proj2 (proj2
             (internalConfirm_cases 2 rolled_files reading_reader 14))))
             ltac:(lia) ltac:(simpl; lia) (Ok (mkOffset 0 14))).
    reflexivity.
  - apply (proj1 (proj2 (proj2 (proj2
             (internalConfirm_cases 2 rolled_files reading_reader 21))))
             ltac:(lia) ltac:(simpl; lia) (Ok (mkOffset 1 7))).
    reflexivity.
  - destruct (proj2 (proj2 (proj2 (proj2 (proj2 (proj2
                (internalConfirm_cases 2 rolled_files reading_reader 21))))))
                rolled_files_fit
                ltac:(unfold max_int64; simpl; lia)
                ltac:(unfold max_int64; simpl; lia)
                ltac:(unfold min_int64; simpl; lia)
                ltac:(simpl; lia)
                ltac:(lia)
                ltac:(simpl; lia)
                ltac:(unfold max_int64; simpl; lia)
                (set_virtualConfirmedOffset 21
                   (set_confirmedOffset (mkOffset 1 7) reading_reader))
                eq_refl) as (H1 & H2 & _).
    split; [exact H1|exact H2].
Defined.

(** ** Skip *)



(** ** The tail check *)

(** Within the files up to the declared end the check does what the
    specification says: a read position beyond the end is forced back
    to it, any other state is left alone. *)
Lemma checkTailCorruption_within_files d :
  FileNum (readPos d) <= FileNum (endPos d) ->
  (offset_lt (endPos d) (readPos d) ->
   checkTailCorruption d = set_needSync true (skipToEndofFile d))
  /\ (offset_le (readPos d) (endPos d) -> checkTailCorruption d = d).
Proof.
  intros Hf. unfold checkTailCorruption, offset_lt, offset_le.
  split; intros H.
  - destruct (Z.ltb_spec (FileNum (readPos d)) (FileNum (endPos d))); [lia|].
    destruct (Z.ltb_spec (Pos (readPos d)) (Pos (endPos d))); [lia|].
    simpl. destruct (offset_eqb (readPos d) (endPos d)) eqn:E; [|reflexivity].
    apply offset_eqb_eq in E. rewrite E in H. lia.
  - destruct (Z.ltb_spec (FileNum (readPos d)) (FileNum (endPos d)));
      [reflexivity|].
    destruct (Z.ltb_spec (Pos (readPos d)) (Pos (endPos d))); [reflexivity|].
    simpl. destruct (offset_eqb (readPos d) (endPos d)) eqn:E; [reflexivity|].
    exfalso. assert (readPos d = endPos d).
    { destruct (readPos d), (endPos d); simpl in *. f_equal; lia. }
    apply offset_eqb_eq in H2. congruence.
Qed.

(** What the forced state is. *)
Lemma skipToEndofFile_fields d :
  readPos (skipToEndofFile d) = endPos d
  /\ virtualReadOffset (skipToEndofFile d) = virtualEnd d
  /\ confirmedOffset (skipToEndofFile d) = endPos d
  /\ virtualConfirmedOffset (skipToEndofFile d) = virtualEnd d
  /\ readFile (skipToEndofFile d) = None.
Proof. repeat split. Qed.

(** The check runs after every delivery of a datum that carries no
    error. *)
Lemma deliver_runs_tail_check fuel fs e :
  r (lv e) = true -> rerr (lv e) = None ->
  ioLoop_select fuel fs EvDeliver e
  = Done (mkEngine (checkTailCorruption (rd e))
            (mkLoopVars (dataRead (lv e)) None (count (lv e)) true true)
            (mfs e),
          Delivered (dataRead (lv e))).
Proof.
  intros Hr He. unfold ioLoop_select. rewrite Hr, He. reflexivity.
Qed.

(** The state of the next lemma arises in the engine: a reader made
    from a metadata file whose confirmed position lies in a file after
    the declared end reads and delivers the frame of that file, and after
    the delivery its read position is still beyond the end. *)
Lemma tail_check_missed_after_delivery :
  readPos stale_reader = mkOffset 2 0
  /\ endPos stale_reader = mkOffset 1 100
  /\ reader_of
       (ioLoop_iter 0 later_files 0 EvDeliver
          (mkEngine stale_reader loopVars_init stale_meta))
     = Some (set_readFile (Some (mkHandle 2 14))
               (set_virtualReadOffset 142
                  (set_readPos (mkOffset 2 14) stale_reader))).
Proof. repeat split. Qed.

(** C5, where the source misses its own case: with the read position
    at position 14 of file 2 and the end declared at position 100 of
    file 1, the read position is beyond the end, and the check leaves
    the reader as it is, because 14 is below 100. *)
Lemma checkTailCorruption_misses_later_file :
  offset_lt (endPos beyond_end_reader) (readPos beyond_end_reader)
  /\ readPos beyond_end_reader <> endPos beyond_end_reader
  /\ checkTailCorruption beyond_end_reader = beyond_end_reader.
Proof.
  split; [left; simpl; lia|]. split; [discriminate|reflexivity].
Qed.

(** ** End update *)

Lemma handleEndUpdated_fields q d :
  endPos (handleEndUpdated q d) = mkOffset (EndFileNum q) (EndPos q)
  /\ virtualEnd (handleEndUpdated q d) = VirtualEnd q
  /\ totalMsgCnt (handleEndUpdated q d) = TotalMsgCnt q
  /\ confirmedOffset (handleEndUpdated q d) = confirmedOffset d
  /\ virtualConfirmedOffset (handleEndUpdated q d) = virtualConfirmedOffset d.
Proof.
  destruct d, q. unfold handleEndUpdated. simpl.
  split_ifs; repeat split.
Qed.

Lemma handleEndUpdated_readPos q d :
  (offset_lt (mkOffset (EndFileNum q) (EndPos q)) (readPos d) ->
   readPos (handleEndUpdated q d) = mkOffset (EndFileNum q) (EndPos q)
   /\ virtualReadOffset (handleEndUpdated q d) = VirtualEnd q)
  /\ (offset_le (readPos d) (mkOffset (EndFileNum q) (EndPos q)) ->
      readPos (handleEndUpdated q d) = readPos d
      /\ virtualReadOffset (handleEndUpdated q d) = virtualReadOffset d).
Proof.
  destruct d as [[rf rp] ? ? ? ? ? ? ? ? ? ? ? ? ? ? ? ? ? ? ? ? ?], q.
  unfold handleEndUpdated, offset_lt, offset_le. simpl.
  split_ifs; bool_facts;
    (split; intros Hq; split; try reflexivity; try lia);
    unfold set_Pos, set_FileNum; simpl; f_equal; lia.
Qed.

Lemma handleEndUpdated_needSync q d :
  needSync (handleEndUpdated q d)
  = needSync d
    || (negb (FileNum (endPos d) =? EndFileNum q) && (EndPos q =? 0)).
Proof.
  destruct d, q. unfold handleEndUpdated. simpl.
  split_ifs; rewrite ?orb_true_r, ?orb_false_r; reflexivity.
Qed.

(** ** Metadata *)

Lemma string_app_assoc (a b c : string) :
  ((a ++ b) ++ c = a ++ (b ++ c))%string.
Proof. induction a; simpl; congruence. Qed.

Lemma scan_digits_uint u c rest :
  is_digit c = false ->
  scan_digits (NilEmpty.string_of_uint u ++ String c rest)
  = (NilEmpty.string_of_uint u, String c rest).
Proof.
  intros Hc. induction u; simpl; rewrite ?Hc, ?IHu; reflexivity.
Qed.

Lemma uint_head u :
  u <> Nil ->
  exists ch s, NilEmpty.string_of_uint u = String ch s
               /\ is_digit ch = true.
Proof.
  destruct u; intros H; [contradiction| ..]; simpl; eauto.
Qed.

Lemma scan_d_uint u c rest :
  u <> Nil -> is_digit c = false ->
  scan_d (NilEmpty.string_of_uint u ++ String c rest)
  = if int64b (Z.of_uint u) then Some (Z.of_uint u, String c rest) else None.
Proof.
  intros Hu Hc. unfold scan_d.
  destruct (uint_head u Hu) as (ch & s & Hs & Hd).
  assert (Hskip : skip_blanks (NilEmpty.string_of_uint u ++ String c rest)
                  = (NilEmpty.string_of_uint u ++ String c rest)%string).
  { rewrite Hs. simpl.
    destruct ch as [[] [] [] [] [] [] [] []]; try discriminate; reflexivity. }
  rewrite Hskip.
  assert (Hsign : scan_sign (NilEmpty.string_of_uint u ++ String c rest)
                  = (false, (NilEmpty.string_of_uint u ++ String c rest)%string)).
  { rewrite Hs. simpl.
    destruct ch as [[] [] [] [] [] [] [] []]; try discriminate; reflexivity. }
  rewrite Hsign, scan_digits_uint by assumption.
  rewrite NilEmpty.usu. rewrite Hs. reflexivity.
Qed.

Lemma scan_d_neg_uint u c rest :
  u <> Nil -> is_digit c = false ->
  scan_d (String "-" (NilEmpty.string_of_uint u ++ String c rest))
  = if int64b (- Z.of_uint u) then Some (- Z.of_uint u, String c rest)
    else None.
Proof.
  intros Hu Hc. unfold scan_d. simpl.
  rewrite scan_digits_uint by assumption.
  destruct (uint_head u Hu) as (ch & s & Hs & Hd).
  rewrite NilEmpty.usu. rewrite Hs. reflexivity.
Qed.

Lemma scan_d_format z c rest :
  int64 z -> is_digit c = false ->
  scan_d (format_d z ++ String c rest) = Some (z, String c rest).
Proof.
  intros Hz Hc. apply int64b_true in Hz.
  unfold format_d. destruct z as [|p|p]; simpl.
  - unfold scan_d. simpl. rewrite Hc. reflexivity.
  - pose proof (DecimalPos.Unsigned.to_uint_nonnil p) as Hn.
    assert (E : NilZero.string_of_uint (Pos.to_uint p)
                = NilEmpty.string_of_uint (Pos.to_uint p)).
    { unfold NilZero.string_of_uint. destruct (Pos.to_uint p); congruence. }
    rewrite E, scan_d_uint by assumption.
    unfold Z.of_uint. rewrite DecimalPos.Unsigned.of_to. simpl. rewrite Hz. reflexivity.
  - pose proof (DecimalPos.Unsigned.to_uint_nonnil p) as Hn.
    assert (E : NilZero.string_of_uint (Pos.to_uint p)
                = NilEmpty.string_of_uint (Pos.to_uint p)).
    { unfold NilZero.string_of_uint. destruct (Pos.to_uint p); congruence. }
    rewrite E.
    rewrite scan_d_neg_uint by assumption.
    unfold Z.of_uint. rewrite DecimalPos.Unsigned.of_to. simpl. rewrite Hz. reflexivity.
Qed.

Lemma metaContent_app d tail :
  (metaContent d ++ tail)%string
  = (format_d (totalMsgCnt d) ++ String nl
      (format_d (FileNum (confirmedOffset d)) ++ String ","
        (format_d (Pos (confirmedOffset d)) ++ String ","
          (format_d (virtualConfirmedOffset d) ++ String nl
            (format_d (FileNum (endPos d)) ++ String ","
              (format_d (Pos (endPos d)) ++ String ","
                (format_d (virtualEnd d) ++ String nl tail)))))))%string.
Proof.
  unfold metaContent.
  repeat (rewrite ?string_app_assoc; simpl; f_equal).
Qed.

Lemma overwrite_app c old : exists tail, overwrite c old = (c ++ tail)%string.
Proof.
  destruct old; simpl.
  - eauto.
  - exists EmptyString. induction c; simpl; congruence.
Qed.

Lemma Fscanf_meta_content d d0 tail :
  meta_fields_int64 d ->
  Fscanf_meta (d0, (metaContent d ++ tail)%string)
  = inl (set_virtualEnd (virtualEnd d)
          (set_endPos (endPos d)
            (set_virtualConfirmedOffset (virtualConfirmedOffset d)
              (set_confirmedOffset (confirmedOffset d)
                (set_totalMsgCnt (totalMsgCnt d) d0)))), tail).
Proof.
  intros (H1 & H2 & H3 & H4 & H5 & H6 & H7).
  rewrite metaContent_app.
  unfold Fscanf_meta, scan_then, scan_into, scan_lit, scan_newline,
    expect_newline. simpl.
  repeat (rewrite scan_d_format by (assumption || reflexivity); simpl).
  destruct d as [? [ef ep] ? ? ? ? ? ? ? ? ? ? ? ? ? ? ? [cf cp] ? ? ? ?].
  reflexivity.
Qed.

(** Reading back what was just persisted: the scan succeeds and assigns
    the seven printed fields. *)
Lemma retrieve_after_persist rnd m d d0 :
  writable m = true ->
  meta_fields_int64 d ->
  readerMetaName d0 = readerMetaName d ->
  dataPath d0 = dataPath d ->
  snd (persistMetaData rnd m d) = None
  /\ retrieveMetaData (fst (persistMetaData rnd m d)) d0
     = (set_virtualReadOffset (virtualConfirmedOffset d)
          (set_readPos (confirmedOffset d)
             (set_virtualEnd (virtualEnd d)
                (set_endPos (endPos d)
                   (set_virtualConfirmedOffset (virtualConfirmedOffset d)
                      (set_confirmedOffset (confirmedOffset d)
                         (set_totalMsgCnt (totalMsgCnt d) d0)))))),
        None).
Proof.
  intros Hw Hint Hname Hpath.
  unfold persistMetaData. rewrite Hw.
  split; [reflexivity|].
  unfold retrieveMetaData.
  assert (Hfile : metaDataFileName d0 = metaDataFileName d).
  { unfold metaDataFileName. rewrite Hname, Hpath. reflexivity. }
  rewrite Hfile. unfold atomicRename, meta_put. cbn [contents fst].
  rewrite !String.eqb_refl.
  match goal with
  | |- context [overwrite ?c ?o] => destruct (overwrite_app c o) as [tail ->]
  end.
  rewrite Fscanf_meta_content by assumption.
  reflexivity.
Qed.

(** C7: the metadata round trip.  When the directory is writable and
    the printed fields are [int64] values, [persistMetaData] succeeds,
    and [retrieveMetaData] into any reader with the same metadata name
    and data path (a fresh one in particular) succeeds and yields
    [totalMsgCnt], [confirmedOffset], [virtualConfirmedOffset], [endPos]
    and [virtualEnd] as they were in memory when they were persisted,
    with the read position and offset equal to the confirmed ones. *)
Theorem metadata_roundtrip (rnd : Z) (m : metaFS) (d d0 : diskQueueReader) :
  writable m = true ->
  meta_fields_int64 d ->
  readerMetaName d0 = readerMetaName d ->
  dataPath d0 = dataPath d ->
  exists m' d',
    persistMetaData rnd m d = (m', None)
    /\ retrieveMetaData m' d0 = (d', None)
    /\ totalMsgCnt d' = totalMsgCnt d
    /\ confirmedOffset d' = confirmedOffset d
    /\ virtualConfirmedOffset d' = virtualConfirmedOffset d
    /\ endPos d' = endPos d
    /\ virtualEnd d' = virtualEnd d
    /\ readPos d' = confirmedOffset d'
    /\ virtualReadOffset d' = virtualConfirmedOffset d'.
Proof.
  intros Hw Hint Hname Hpath.
  destruct (retrieve_after_persist rnd m d d0 Hw Hint Hname Hpath)
    as [Hp Hr].
  exists (fst (persistMetaData rnd m d)).
  eexists. split.
  - destruct (persistMetaData rnd m d) as [m' err]. simpl in Hp.
    rewrite Hp. reflexivity.
  - split; [exact Hr|]. repeat split.
Qed.

Lemma metadata_roundtrip_witness :
  exists m' d',
    persistMetaData 7 no_meta confirmed_reader = (m', None)
    /\ retrieveMetaData m' fresh_reader = (d', None)
    /\ totalMsgCnt d' = 3
    /\ confirmedOffset d' = mkOffset 1 14
    /\ virtualConfirmedOffset d' = 28
    /\ endPos d' = mkOffset 1 28
    /\ virtualEnd d' = 42
    /\ readPos d' = confirmedOffset d'
    /\ virtualReadOffset d' = virtualConfirmedOffset d'.
Proof.
  apply (metadata_roundtrip 7 no_meta confirmed_reader fresh_reader).
  - reflexivity.
  - unfold meta_fields_int64, int64, min_int64, max_int64; simpl; lia.
  - reflexivity.
  - reflexivity.
Defined.

(** The same through the constructor: a reader made by
    [newDiskQueueReader] with the names of [d] starts from what [d]
    persisted. *)
Corollary metadata_roundtrip_constructor
  (rnd : Z) (m : metaFS) (d : diskQueueReader) (readFrom' : string)
  (maxBytes minMsg maxMsg every timeout : Z) (autoSkip : bool) :
  writable m = true ->
  meta_fields_int64 d ->
  let d' := newDiskQueueReader (fst (persistMetaData rnd m d)) readFrom'
              (readerMetaName d) (dataPath d) maxBytes minMsg maxMsg every
              timeout autoSkip in
  totalMsgCnt d' = totalMsgCnt d
  /\ confirmedOffset d' = confirmedOffset d
  /\ virtualConfirmedOffset d' = virtualConfirmedOffset d
  /\ endPos d' = endPos d
  /\ virtualEnd d' = virtualEnd d
  /\ readPos d' = confirmedOffset d
  /\ virtualReadOffset d' = virtualConfirmedOffset d.
Proof.
  intros Hw Hint d'. subst d'. unfold newDiskQueueReader.
  match goal with
  | |- context [retrieveMetaData _ ?d0] =>
    destruct (retrieve_after_persist rnd m d d0 Hw Hint eq_refl eq_refl)
      as [_ Hr]
  end.
  rewrite Hr. repeat split.
Qed.

(** ** End update, stated for the engine *)

(** C6: an end update with the descriptor [q].  Afterwards [endPos],
    [virtualEnd] and [totalMsgCnt] are those of [q]; a read position
    beyond the new end is clamped to it, any other is kept, so that
    [readPos <= endPos] holds after every end update; and [needSync] is
    set when the file number of [q] differs from the one of the previous
    end and the position of [q] is 0. *)
Theorem end_update_sets_end_and_clamps
  (fuel : nat) (fs : dataFiles) (e : engine) (q : diskQueueEndInfo) :
  exists e',
    ioLoop_select fuel fs (EvEndUpdated q) e = Done (e', EndUpdatedResponse)
    /\ endPos (rd e') = mkOffset (EndFileNum q) (EndPos q)
    /\ virtualEnd (rd e') = VirtualEnd q
    /\ totalMsgCnt (rd e') = TotalMsgCnt q
    /\ offset_le (readPos (rd e')) (endPos (rd e'))
    /\ (offset_lt (mkOffset (EndFileNum q) (EndPos q)) (readPos (rd e)) ->
        readPos (rd e') = mkOffset (EndFileNum q) (EndPos q)
        /\ virtualReadOffset (rd e') = VirtualEnd q)
    /\ (offset_le (readPos (rd e)) (mkOffset (EndFileNum q) (EndPos q)) ->
        readPos (rd e') = readPos (rd e)
        /\ virtualReadOffset (rd e') = virtualReadOffset (rd e))
    /\ (FileNum (endPos (rd e)) <> EndFileNum q -> EndPos q = 0 ->
        needSync (rd e') = true)
    /\ needSync (rd e')
       = needSync (rd e)
         || (negb (FileNum (endPos (rd e)) =? EndFileNum q)
             && (EndPos q =? 0))
    /\ confirmedOffset (rd e') = confirmedOffset (rd e)
    /\ virtualConfirmedOffset (rd e') = virtualConfirmedOffset (rd e).
Proof.
  eexists. split; [reflexivity|]. cbn [rd].
  destruct (handleEndUpdated_fields q (rd e)) as (He & Hv & Ht & Hc & Hvc).
  destruct (handleEndUpdated_readPos q (rd e)) as (Hgt & Hle).
  pose proof (handleEndUpdated_needSync q (rd e)) as Hs.
  repeat split; try assumption.
  - rewrite He.
    assert (Hcase : offset_lt (mkOffset (EndFileNum q) (EndPos q))
                      (readPos (rd e))
                    \/ offset_le (readPos (rd e))
                         (mkOffset (EndFileNum q) (EndPos q))).
    { unfold offset_lt, offset_le. simpl. lia. }
    destruct Hcase as [H|H].
    + destruct (Hgt H) as [-> _]. right. simpl. lia.
    + destruct (Hle H) as [-> _]. exact H.
  - apply Hgt; assumption.
  - apply Hgt; assumption.
  - apply Hle; assumption.
  - apply Hle; assumption.
  - intros Hf Hp. rewrite Hs.
    apply Z.eqb_neq in Hf. apply Z.eqb_eq in Hp. rewrite Hf, Hp.
    apply orb_true_r.
Qed.

Lemma end_update_sets_end_and_clamps_witness :
  exists e',
    ioLoop_select 0 rolled_files (EvEndUpdated (mkEndInfo 0 14 14 1))
      running_engine = Done (e', EndUpdatedResponse)
    /\ endPos (rd e') = mkOffset 0 14
    /\ readPos (rd e') = mkOffset 0 14
    /\ virtualReadOffset (rd e') = 14.
Proof.
  destruct (end_update_sets_end_and_clamps 0 rolled_files running_engine
              (mkEndInfo 0 14 14 1))
    as (e' & Hrun & Hend & _ & _ & _ & Hclamp & _).
  exists e'. split; [exact Hrun|]. split; [exact Hend|].
  apply Hclamp. left. simpl. lia.
Defined.

(** ** The public operations after exit *)

(** C9, the claim as stated fails for [UpdateQueueEnd]: on a reader
    whose exit flag is set it returns at once, but it has no error to
    return; the caller is not told that the reader is exiting. *)
Lemma UpdateQueueEnd_after_exit_no_error :
  exitFlag closed_reader = 1
  /\ UpdateQueueEnd closed_reader (DiskQueueEnd (Some (mkEndInfo 1 42 56 4)))
     = (closed_reader, Returned None)
  /\ UpdateQueueEnd closed_reader (DiskQueueEnd (Some (mkEndInfo 1 42 56 4)))
     <> (closed_reader, Returned (Some ErrExiting)).
Proof.
  split; [reflexivity|]. split; [reflexivity|discriminate].
Qed.

(** C9, as amended: once the exit flag is set, [ConfirmRead],
    [SkipReadToOffset] and [SkipToEnd] fail at once with the "exiting"
    error and [UpdateQueueEnd] returns at once without an error value;
    none of them hands a request to the engine, and the reader is left
    as it was. *)
Theorem public_operations_after_exit (d : diskQueueReader) :
  exitFlag d = 1 ->
  (forall offset, ConfirmRead d offset = (d, Returned (Some ErrExiting)))
  /\ (forall offset,
        SkipReadToOffset d offset = (d, Returned (Some ErrExiting)))
  /\ SkipToEnd d = (d, Returned (Some ErrExiting))
  /\ (forall e, UpdateQueueEnd d e = (d, Returned None)).
Proof.
  intros H.
  unfold ConfirmRead, SkipReadToOffset, SkipToEnd, UpdateQueueEnd.
  rewrite H. simpl. repeat split.
  intros [[q|]|]; reflexivity.
Qed.

Lemma public_operations_after_exit_witness :
  ConfirmRead closed_reader 28 = (closed_reader, Returned (Some ErrExiting))
  /\ SkipReadToOffset closed_reader 42
     = (closed_reader, Returned (Some ErrExiting))
  /\ SkipToEnd closed_reader = (closed_reader, Returned (Some ErrExiting))
  /\ UpdateQueueEnd closed_reader OtherQueueEnd
     = (closed_reader, Returned None).
Proof.
  destruct (public_operations_after_exit closed_reader eq_refl)
    as (Hc & Hs & He & Hu).
  split; [apply Hc|]. split; [apply Hs|]. split; [exact He|apply Hu].
Defined.

(** Before exit a request is handed to the engine. *)
Lemma public_operations_before_exit d :
  exitFlag d <> 1 ->
  (forall offset, ConfirmRead d offset = (d, Handed (ReqConfirm offset)))
  /\ (forall offset,
        SkipReadToOffset d offset = (d, Handed (ReqSkip offset)))
  /\ SkipToEnd d = (d, Handed (ReqSkip (virtualEnd d)))
  /\ (forall q,
        UpdateQueueEnd d (DiskQueueEnd (Some q))
        = (d, Handed (ReqEndUpdated q))).
Proof.
  intros H. apply Z.eqb_neq in H.
  unfold ConfirmRead, SkipReadToOffset, SkipToEnd, UpdateQueueEnd.
  rewrite H. repeat split.
Qed.

(** ** The confirm window of a new reader *)

Lemma scan_into_keeps {A : Type} (proj : diskQueueReader -> A)
  (set : Z -> diskQueueReader -> diskQueueReader) :
  (forall v d, proj (set v d) = proj d) -> scan_keeps proj (scan_into set).
Proof.
  intros H [d s]. unfold scan_into. simpl.
  destruct (scan_d s) as [[v rest]|]; simpl; auto.
Qed.

Lemma scan_lit_keeps {A : Type} (proj : diskQueueReader -> A) c :
  scan_keeps proj (scan_lit c).
Proof.
  intros [d s]. unfold scan_lit. simpl. destruct (expect c s); reflexivity.
Qed.

Lemma scan_newline_keeps {A : Type} (proj : diskQueueReader -> A) :
  scan_keeps proj scan_newline.
Proof.
  intros [d s]. unfold scan_newline. simpl.
  destruct (expect_newline s); reflexivity.
Qed.

Lemma scan_then_keeps {A : Type} (proj : diskQueueReader -> A) f g :
  scan_keeps proj f -> scan_keeps proj g -> scan_keeps proj (f >>> g).
Proof.
  intros Hf Hg st. unfold scan_then.
  specialize (Hf st). destruct (f st) as [st'|d']; [|assumption].
  specialize (Hg st'). destruct (g st'); congruence.
Qed.

Lemma Fscanf_meta_keeps_maxConfirmWin : scan_keeps maxConfirmWin Fscanf_meta.
Proof.
  unfold Fscanf_meta.
  repeat apply scan_then_keeps;
    try apply scan_lit_keeps; try apply scan_newline_keeps;
    apply scan_into_keeps; reflexivity.
Qed.

Lemma retrieveMetaData_maxConfirmWin m d :
  maxConfirmWin (fst (retrieveMetaData m d)) = maxConfirmWin d.
Proof.
  unfold retrieveMetaData.
  destruct (contents m (metaDataFileName d)) as [s|]; [|reflexivity].
  pose proof (Fscanf_meta_keeps_maxConfirmWin (d, s)) as H.
  destruct (Fscanf_meta (d, s)) as [[d' rest]|d']; simpl in *; assumption.
Qed.

(** C10: whatever the arguments and whatever the metadata file holds,
    the reader [newDiskQueueReader] returns has a confirm window of
    10000 bytes; no argument of the constructor sets it. *)
Theorem newDiskQueueReader_maxConfirmWin
  (m : metaFS) (readFrom' metaname dataPath' : string)
  (maxBytes minMsg maxMsg every timeout : Z) (autoSkip : bool) :
  maxConfirmWin
    (newDiskQueueReader m readFrom' metaname dataPath' maxBytes minMsg maxMsg
       every timeout autoSkip)
  = 10000.
Proof.
  unfold newDiskQueueReader. rewrite retrieveMetaData_maxConfirmWin.
  reflexivity.
Qed.

(** ** The output gate of the engine *)

Lemma ioLoop_housekeeping_shape rnd e :
  exists b cnt m,
    ioLoop_housekeeping rnd e
    = mkEngine (set_needSync b (rd e))
        (mkLoopVars (dataRead (lv e)) (rerr (lv e)) cnt (r (lv e))
           (continueRead (lv e)))
        m.
Proof.
  destruct e as [d v m]. destruct d.
  unfold ioLoop_housekeeping, sync, persistMetaData. simpl.
  repeat match goal with
  | |- context [if ?c then _ else _] => destruct c; simpl
  end;
    do 3 eexists; reflexivity.
Qed.

Lemma read_frame_rel_refl d : read_frame_rel d d.
Proof. repeat split. Qed.

Lemma read_frame_rel_trans d1 d2 d3 :
  read_frame_rel d1 d2 -> read_frame_rel d2 d3 -> read_frame_rel d1 d3.
Proof.
  unfold read_frame_rel. intros H1 H2.
  decompose [and] H1. decompose [and] H2. repeat split; congruence.
Qed.

Lemma readFrame_keeps fs d h voffset d' out :
  readFrame fs d h voffset = Done (d', out) -> read_frame_rel d d'.
Proof.
  unfold readFrame.
  destruct (handleBytes fs h) as [|b0 [|b1 [|b2 [|b3 rest]]]];
    try (intros [= <- _]; repeat split).
  destruct ((be_int32 b0 b1 b2 b3 <? minMsgSize d)
            || (be_int32 b0 b1 b2 b3 >? maxMsgSize d));
    [intros [= <- _]; repeat split|].
  destruct (be_int32 b0 b1 b2 b3 <? 0); [discriminate|].
  destruct (Z.of_nat (List.length rest) <? be_int32 b0 b1 b2 b3);
    [intros [= <- _]; repeat split|].
  cbv zeta.
  match goal with
  | |- context [if ?c then match statSize ?f ?x with _ => _ end else _] =>
    destruct c; [destruct (statSize f x); [|intros [= <- _]; repeat split]|]
  end;
    split_ifs; intros [= <- _]; repeat split.
Qed.

Lemma readOne_from_keeps fs :
  forall k d d' out,
    readOne_from k fs d = Done (d', out) -> read_frame_rel d d'.
Proof.
  induction k as [|k IH]; intros d d' out; simpl;
    (destruct (openReadFile fs d) as [h|err];
       [|intros [= <- _]; repeat split]);
    cbn [readPos endPos set_readFile];
    (destruct (FileNum (readPos d) <? FileNum (endPos d));
       [destruct (statSize fs h);
          [destruct (Pos (readPos d) >=? a)|intros [= <- _]; repeat split]|]);
    try discriminate;
    try (intros H; apply readFrame_keeps in H;
         eapply read_frame_rel_trans; [|exact H]; repeat split).
  intros H. apply IH in H.
  eapply read_frame_rel_trans; [|exact H]. repeat split.
Qed.

Lemma readOne_keeps fs d d' out :
  readOne fs d = Done (d', out) -> read_frame_rel d d'.
Proof. apply readOne_from_keeps. Qed.

(** With a non-negative minimal message size the read never panics, and
    the bound on the jumps is never exhausted. *)
Lemma readFrame_returns fs d h voffset :
  0 <= minMsgSize d -> exists res, readFrame fs d h voffset = Done res.
Proof.
  intros Hmin. unfold readFrame.
  destruct (handleBytes fs h) as [|b0 [|b1 [|b2 [|b3 rest]]]]; eauto.
  destruct (Z.ltb_spec (be_int32 b0 b1 b2 b3) (minMsgSize d)); simpl; eauto.
  destruct (be_int32 b0 b1 b2 b3 >? maxMsgSize d); eauto.
  destruct (Z.ltb_spec (be_int32 b0 b1 b2 b3) 0); [lia|].
  destruct (Z.of_nat (List.length rest) <? be_int32 b0 b1 b2 b3); eauto.
  cbv zeta.
  match goal with
  | |- context [if ?c then match statSize ?f ?x with _ => _ end else _] =>
    destruct c; [destruct (statSize f x)|]
  end; eauto.
Qed.

Lemma readOne_from_returns fs :
  forall k d,
    int64 (FileNum (readPos d)) -> int64 (FileNum (endPos d)) ->
    0 <= minMsgSize d ->
    FileNum (endPos d) - FileNum (readPos d) <= Z.of_nat k ->
    exists res, readOne_from k fs d = Done res.
Proof.
  induction k as [|k IH]; intros d Hr He Hmin Hk; simpl;
    (destruct (openReadFile fs d) as [h|err]; [|eauto]);
    cbn [readPos endPos set_readFile];
    (destruct (Z.ltb_spec (FileNum (readPos d)) (FileNum (endPos d)));
       [destruct (statSize fs h);
          [destruct (Pos (readPos d) >=? a)|eauto]|]);
    try (apply readFrame_returns; assumption);
    try lia.
  apply IH; simpl; try assumption.
  - rewrite add64_id; unfold int64, min_int64, max_int64 in *; lia.
  - rewrite add64_id; unfold int64, min_int64, max_int64 in *; lia.
Qed.

Lemma readOne_returns fs d :
  int64 (FileNum (readPos d)) -> int64 (FileNum (endPos d)) ->
  0 <= minMsgSize d ->
  exists res, readOne fs d = Done res.
Proof.
  intros. apply readOne_from_returns; auto. lia.
Qed.

(** Up to the file of the declared end the test of the source is the
    lexicographic order. *)
Lemma arming_test_lt d :
  FileNum (readPos d) <= FileNum (endPos d) ->
  ((FileNum (readPos d) <? FileNum (endPos d))
   || (Pos (readPos d) <? Pos (endPos d)) = true
   <-> offset_lt (readPos d) (endPos d)).
Proof.
  intros H. unfold offset_lt.
  rewrite orb_true_iff, !Z.ltb_lt. lia.
Qed.

Lemma ioLoop_readiness_armed fs e e' :
  FileNum (readPos (rd e)) <= FileNum (endPos (rd e)) ->
  ioLoop_readiness fs e = Done (AtSelect e') ->
  (r (lv e') = true
   <-> rerr (lv e) = None
       /\ ~ (add64 (virtualConfirmedOffset (rd e)) (maxConfirmWin (rd e))
             < virtualReadOffset (rd e))
       /\ offset_lt (readPos (rd e)) (endPos (rd e))).
Proof.
  intros Hf. unfold ioLoop_readiness.
  pose proof (arming_test_lt (rd e) Hf) as Harm.
  destruct (rerr (lv e)) as [err|].
  { intros [= <-]. simpl. split; [discriminate|intros [H _]; discriminate]. }
  destruct (Z.ltb_spec
              (add64 (virtualConfirmedOffset (rd e)) (maxConfirmWin (rd e)))
              (virtualReadOffset (rd e))) as [Hw|Hw].
  { intros [= <-]. simpl. split; [discriminate|intros (_ & H & _); lia]. }
  destruct ((FileNum (readPos (rd e)) <? FileNum (endPos (rd e)))
            || (Pos (readPos (rd e)) <? Pos (endPos (rd e)))) eqn:Ha.
  - assert (Hlt : offset_lt (readPos (rd e)) (endPos (rd e)))
      by (apply Harm; reflexivity).
    destruct (continueRead (lv e)).
    + destruct (readOne fs (rd e)) as [[d1 [[off dat] [err|]]]| |];
        try discriminate.
      * destruct (autoSkipError d1); [discriminate|].
        intros [= <-]. simpl. split; auto. intros _. repeat split; auto. lia.
      * intros [= <-]. simpl. split; auto. intros _. repeat split; auto. lia.
    + intros [= <-]. simpl. split; auto. intros _. repeat split; auto. lia.
  - intros [= <-]. simpl. split; [discriminate|].
    intros (_ & _ & H). apply Harm in H. discriminate.
Qed.

Lemma ioLoop_readiness_armed_window fs e e' :
  ioLoop_readiness fs e = Done (AtSelect e') ->
  r (lv e') = true ->
  rerr (lv e) = None
  /\ ~ (add64 (virtualConfirmedOffset (rd e)) (maxConfirmWin (rd e))
        < virtualReadOffset (rd e)).
Proof.
  unfold ioLoop_readiness.
  destruct (rerr (lv e)) as [err|]; [intros [= <-]; discriminate|].
  destruct (Z.ltb_spec
              (add64 (virtualConfirmedOffset (rd e)) (maxConfirmWin (rd e)))
              (virtualReadOffset (rd e))) as [Hw|Hw];
    [intros [= <-]; discriminate|].
  intros _ _. split; [reflexivity|lia].
Qed.

Lemma ioLoop_readiness_continue fs e e' :
  ioLoop_readiness fs e = Done (Continue e') ->
  autoSkipError (rd e) = true
  /\ rerr (lv e') = None
  /\ rr_err (dataRead (lv e')) <> None
  /\ r (lv e') = r (lv e).
Proof.
  unfold ioLoop_readiness.
  destruct (rerr (lv e)) as [err|]; [discriminate|].
  destruct (_ <? _); [discriminate|].
  destruct (_ || _); [|discriminate].
  destruct (continueRead (lv e)); [|discriminate].
  destruct (readOne fs (rd e)) as [[d1 [[off dat] [err|]]]| |] eqn:Hread;
    try discriminate.
  destruct (autoSkipError d1) eqn:Ha; [|discriminate].
  intros [= <-]. simpl.
  apply readOne_keeps in Hread. unfold read_frame_rel in Hread.
  decompose [and] Hread.
  repeat split; congruence.
Qed.

Lemma ioLoop_readiness_returns fs e :
  int64 (FileNum (readPos (rd e))) -> int64 (FileNum (endPos (rd e))) ->
  0 <= minMsgSize (rd e) ->
  exists ph, ioLoop_readiness fs e = Done ph.
Proof.
  intros Hr He Hmin. unfold ioLoop_readiness.
  destruct (rerr (lv e)); eauto.
  destruct (_ <? _); eauto.
  destruct (_ || _); eauto.
  destruct (continueRead (lv e)); eauto.
  destruct (readOne_returns fs (rd e) Hr He Hmin) as [[d1 [[off dat] err]] ->].
  destruct err; [destruct (autoSkipError d1)|]; eauto.
Qed.

(** Without overflow the window test of the source says that more than
    [maxConfirmWin] bytes wait for a confirm. *)
Lemma window_gate_exact d :
  int64 (virtualConfirmedOffset d + maxConfirmWin d) ->
  (add64 (virtualConfirmedOffset d) (maxConfirmWin d) < virtualReadOffset d
   <-> virtualReadOffset d - virtualConfirmedOffset d > maxConfirmWin d).
Proof. intros H. rewrite add64_id by assumption. lia. Qed.

(** C4, the claim as stated fails: with exactly [maxConfirmWin] bytes
    read and not confirmed, no read error held and the read position
    before the end, the output channel is armed and the next message is
    delivered. *)
Lemma output_armed_at_full_window :
  virtualReadOffset (rd window_full_engine)
    - virtualConfirmedOffset (rd window_full_engine)
    >= maxConfirmWin (rd window_full_engine)
  /\ rerr (lv window_full_engine) = None
  /\ offset_lt (readPos (rd window_full_engine))
       (endPos (rd window_full_engine))
  /\ armed_at_select (ioLoop_head window_files 0 window_full_engine) = true
  /\ reply_of (ioLoop_iter 0 window_files 0 EvDeliver window_full_engine)
     = Some (Delivered (mkReadResult 10000 (repeat x41 10) None)).
Proof.
  split; [vm_compute; discriminate|].
  split; [reflexivity|].
  split; [right; simpl; lia|].
  split; vm_compute; reflexivity.
Qed.

(** C4, as amended.  In an iteration that reaches the select from a
    state whose read position is not in a file after the one of the
    declared end, the output channel is armed if and only if (a) no read
    error is held from an earlier iteration, (b) the window is not
    exceeded, where it is exceeded only when
    [virtualConfirmedOffset + maxConfirmWin < virtualReadOffset] (more
    than [maxConfirmWin] bytes wait), and (c) [readPos] is before
    [endPos] in the lexicographic order; all three taken at the start
    of the iteration.  An iteration does not reach the select only when
    its read-ahead failed and [autoSkipError] is set.  No [ReadResult]
    is delivered in an iteration that started with a held error or with
    the window exceeded.  The part before the select always returns for
    a reader whose minimal message size is not negative. *)
Theorem output_armed_iff (fs : dataFiles) (rnd : Z) (e : engine) :
  (forall e',
     FileNum (readPos (rd e)) <= FileNum (endPos (rd e)) ->
     ioLoop_head fs rnd e = Done (AtSelect e') ->
     (r (lv e') = true
      <-> rerr (lv e) = None
          /\ ~ (add64 (virtualConfirmedOffset (rd e)) (maxConfirmWin (rd e))
                < virtualReadOffset (rd e))
          /\ offset_lt (readPos (rd e)) (endPos (rd e))))
  /\ (forall e',
        ioLoop_head fs rnd e = Done (Continue e') ->
        autoSkipError (rd e) = true
        /\ rerr (lv e') = None
        /\ rr_err (dataRead (lv e')) <> None)
  /\ (forall fuel e' rr,
        ioLoop_iter fuel fs rnd EvDeliver e = Done (e', Delivered rr) ->
        rerr (lv e) = None
        /\ ~ (add64 (virtualConfirmedOffset (rd e)) (maxConfirmWin (rd e))
              < virtualReadOffset (rd e)))
  /\ (int64 (FileNum (readPos (rd e))) ->
      int64 (FileNum (endPos (rd e))) ->
      0 <= minMsgSize (rd e) ->
      exists ph, ioLoop_head fs rnd e = Done ph).
Proof.
  unfold ioLoop_iter, ioLoop_head.
  destruct (ioLoop_housekeeping_shape rnd e) as (b & cnt & m & ->).
  split; [|split; [|split]].
  - intros e' Hf H. apply ioLoop_readiness_armed in H; [|exact Hf]. exact H.
  - intros e' H. apply ioLoop_readiness_continue in H.
    destruct H as (H1 & H2 & H3 & _). auto.
  - intros fuel e' rr.
    destruct (ioLoop_readiness fs _) as [[e1|e1]| |] eqn:Hhead;
      try discriminate.
    unfold ioLoop_select.
    destruct (r (lv e1)) eqn:Hr; [|discriminate].
    intros _. eapply ioLoop_readiness_armed_window in Hhead; eauto.
  - intros Hr He Hmin. apply ioLoop_readiness_returns; assumption.
Qed.

Lemma output_armed_iff_witness :
  exists e',
    ioLoop_head window_files 0 window_full_engine = Done (AtSelect e')
    /\ (r (lv e') = true
        <-> rerr (lv window_full_engine) = None
            /\ ~ (add64 (virtualConfirmedOffset (rd window_full_engine))
                    (maxConfirmWin (rd window_full_engine))
                  < virtualReadOffset (rd window_full_engine))
            /\ offset_lt (readPos (rd window_full_engine))
                 (endPos (rd window_full_engine))).
Proof.
  eexists. split.
  - vm_compute. reflexivity.
  - apply (proj1 (output_armed_iff window_files 0 window_full_engine)).
    + simpl; lia.
    + vm_compute. reflexivity.
Defined.

(** ** Runs of the engine *)

(** The file-roll scenario of the specification: one frame in file 0,
    two in file 1, the end declared at position 28 of file 1.  The three
    messages come with the virtual offsets 0, 14 and 28, a confirm of 42
    succeeds, and afterwards the depth is 0. *)
Example file_roll_run :
  match ioLoop_run 2 rolled_files 0
          [EvEndUpdated (mkEndInfo 1 28 42 3);
           EvDeliver; EvDeliver; EvDeliver; EvDeliver; EvConfirm 42]
          fresh_engine with
  | Done (e, rps) =>
    delivered_offsets rps = [0; 14; 28]
    /\ nth 4 rps NoReply = NotSelectable
    /\ nth 5 rps NoReply = ConfirmResponse None
    /\ readPos (rd e) = mkOffset 1 28
    /\ confirmedOffset (rd e) = mkOffset 1 28
    /\ Depth (rd e) = 0
  | _ => False
  end.
Proof. vm_compute. repeat split. Qed.

(** The state of [output_armed_at_full_window] arises in a run from a
    new reader: after the end update and the delivery of the thousand
    frames of file 0 with no confirm, 10000 bytes wait, and the next
    iteration delivers the frame of file 1 at the virtual offset
    10000. *)
Example full_window_run :
  match ioLoop_run 0 window_files 0
          (EvEndUpdated (mkEndInfo 1 14 10014 1001) :: repeat EvDeliver 1000)
          fresh_engine with
  | Done (e, rps) =>
    virtualReadOffset (rd e) - virtualConfirmedOffset (rd e)
    = maxConfirmWin (rd e)
    /\ readPos (rd e) = mkOffset 1 0
    /\ List.length (delivered_offsets rps) = 1000%nat
    /\ reply_of (ioLoop_iter 0 window_files 0 EvDeliver e)
       = Some (Delivered (mkReadResult 10000 (repeat x41 10) None))
  | _ => False
  end.
Proof. vm_compute. repeat split. Qed.

(* ================================================================== *)
(** * Further properties of the reader *)
(* ================================================================== *)

(** ** Further properties of the offset algebra *)

(** X1: [GreatThan] is a strict total order on offsets: no offset is greater
    than itself, two offsets are never each greater than the other, the
    relation is transitive, and two offsets of which neither is greater
    than the other are equal. *)
Theorem GreatThan_strict_order (a b c : diskQueueOffset) :
  GreatThan a a = false
  /\ (GreatThan a b = true -> GreatThan b a = false)
  /\ (GreatThan a b = true -> GreatThan b c = true -> GreatThan a c = true)
  /\ (GreatThan a b = false -> GreatThan b a = false -> a = b).
Proof.
  split; [|split; [|split]].
  - apply GreatThan_false. unfold offset_le. lia.
  - rewrite GreatThan_spec, GreatThan_false. unfold offset_lt, offset_le. lia.
  - rewrite !GreatThan_spec. unfold offset_lt. lia.
  - rewrite !GreatThan_false. unfold offset_le. intros H1 H2.
    destruct a, b; simpl in *. f_equal; lia.
Qed.

Lemma GreatThan_strict_order_witness :
  GreatThan (mkOffset 1 0) (mkOffset 0 14) = true
  /\ GreatThan (mkOffset 0 14) (mkOffset 1 0) = false
  /\ GreatThan (mkOffset 2 0) (mkOffset 0 14) = true.
Proof.
  split; [reflexivity|]. split.
  - apply (proj1 (proj2 (GreatThan_strict_order (mkOffset 1 0) (mkOffset 0 14)
                           (mkOffset 0 0)))).
    reflexivity.
  - apply (proj1 (proj2 (proj2
             (GreatThan_strict_order (mkOffset 2 0) (mkOffset 1 0)
                (mkOffset 0 14))))); reflexivity.
Defined.

(** X2: an offset [stepOffset] returns is never in a file after the
    file of [maxStep]; after a step other than zero it is not beyond
    [maxStep]; a step of zero returns the start as it is; and from a start
    that is not beyond [maxStep] the result is not beyond it either. *)
Theorem stepOffset_within_bound
  (fuel : nat) (fs : dataFiles) (cur maxStep y : diskQueueOffset) (n : Z) :
  stepOffset fuel fs cur n maxStep = Some (Ok y) ->
  FileNum y <= FileNum maxStep
  /\ (n <> 0 -> offset_le y maxStep)
  /\ (n = 0 -> y = cur)
  /\ (offset_le cur maxStep -> offset_le y maxStep).
Proof.
  unfold stepOffset. intros H.
  destruct (Z.gtb_spec (FileNum cur) (FileNum maxStep)); [discriminate|].
  destruct (Z.eqb_spec n 0) as [Hn0|Hn].
  - injection H as <-. repeat split; auto; try lia.
  - apply stepOffset_loop_bounded in H. apply GreatThan_false in H.
    repeat split; auto; try lia. unfold offset_le in H. lia.
Qed.

Lemma stepOffset_within_bound_witness :
  FileNum (mkOffset 1 14) <= FileNum (mkOffset 1 28)
  /\ offset_le (mkOffset 1 14) (mkOffset 1 28).
Proof.
  destruct (stepOffset_within_bound 2 rolled_files (mkOffset 0 0)
              (mkOffset 1 28) (mkOffset 1 14) 28 eq_refl)
    as (H1 & H2 & _).
  split; [exact H1|]. apply H2. lia.
Defined.

(** Arithmetic modulo 2^64. *)
Lemma wrap64_add_l a b : wrap64 (wrap64 a + b) = wrap64 (a + b).
Proof.
  unfold wrap64. f_equal.
  replace ((a + 2 ^ 63) mod 2 ^ 64 - 2 ^ 63 + b + 2 ^ 63)
    with ((a + 2 ^ 63) mod 2 ^ 64 + b) by lia.
  rewrite Zplus_mod_idemp_l. f_equal. lia.
Qed.

Lemma wrap64_add_r a b : wrap64 (a + wrap64 b) = wrap64 (a + b).
Proof.
  replace (a + wrap64 b) with (wrap64 b + a) by lia.
  rewrite wrap64_add_l. f_equal; lia.
Qed.

Lemma sub64_chain pa pb pc :
  sub64 pc pa = add64 (sub64 pb pa) (sub64 pc pb).
Proof.
  unfold add64, sub64. rewrite wrap64_add_l, wrap64_add_r. f_equal; lia.
Qed.

Lemma add64_swap a b c : add64 a (add64 b c) = add64 b (add64 a c).
Proof.
  unfold add64. rewrite !wrap64_add_r. f_equal; lia.
Qed.

Lemma add64_swap_r a b c : add64 (add64 a b) c = add64 (add64 a c) b.
Proof.
  unfold add64. rewrite !wrap64_add_l. f_equal; lia.
Qed.

Lemma getVirtualOffsetDistance_from_det fs next :
  forall k k' prev r1 r2,
    getVirtualOffsetDistance_from k fs prev next = Ok r1 ->
    getVirtualOffsetDistance_from k' fs prev next = Ok r2 ->
    r1 = r2.
Proof.
  induction k as [|k IH]; intros k' prev r1 r2 H1 H2;
    destruct k'; simpl in H1, H2;
    destruct (GreatThan prev next); try discriminate;
    destruct (FileNum prev =? FileNum next); try congruence;
    destruct (getCurrentFileEnd fs prev); try discriminate.
  destruct (getVirtualOffsetDistance_from k fs _ next) eqn:E1;
    [|discriminate].
  destruct (getVirtualOffsetDistance_from k' fs _ next) eqn:E2;
    [|discriminate].
  pose proof (IH _ _ _ _ E1 E2). congruence.
Qed.

Lemma getVirtualOffsetDistance_from_additive fs b c v k2 :
  getVirtualOffsetDistance_from k2 fs b c = Ok v ->
  forall k1 a u k3 w,
    getVirtualOffsetDistance_from k1 fs a b = Ok u ->
    getVirtualOffsetDistance_from k3 fs a c = Ok w ->
    w = add64 u v.
Proof.
  intros Hbc.
  assert (Hle : FileNum b <= FileNum c).
  { destruct k2; simpl in Hbc;
      destruct (GreatThan b c) eqn:G; try discriminate;
      apply GreatThan_false in G; unfold offset_le in G; lia. }
  induction k1 as [|k1 IH]; intros a u k3 w Hab Hac.
  - (* no recursion left: [a] and [b] are in one file *)
    simpl in Hab.
    destruct (GreatThan a b) eqn:Gab; [discriminate|].
    destruct (Z.eqb_spec (FileNum a) (FileNum b)) as [Hf|Hf].
    + injection Hab as <-.
      destruct k3, k2; simpl in Hac, Hbc;
        destruct (GreatThan a c); try discriminate;
        destruct (GreatThan b c); try discriminate;
        rewrite <- Hf in Hbc;
        destruct (Z.eqb_spec (FileNum a) (FileNum c));
        unfold getCurrentFileEnd in *; rewrite <- ?Hf in Hbc;
        destruct (fs (FileNum a)); try discriminate;
        try (injection Hac as <-; injection Hbc as <-;
             apply sub64_chain).
      destruct (getVirtualOffsetDistance_from k3 fs _ c) eqn:E3;
        [|discriminate].
      destruct (getVirtualOffsetDistance_from k2 fs _ c) eqn:E2;
        [|discriminate].
      rewrite <- ?Hf in E2.
      pose proof (getVirtualOffsetDistance_from_det _ _ _ _ _ _ _ E3 E2).
      subst. injection Hac as <-. injection Hbc as <-.
      rewrite (sub64_chain (Pos a) (Pos b)). apply add64_swap.
    + destruct (getCurrentFileEnd fs a); discriminate.
  - simpl in Hab.
    destruct (GreatThan a b) eqn:Gab; [discriminate|].
    apply GreatThan_false in Gab. unfold offset_le in Gab.
    destruct (Z.eqb_spec (FileNum a) (FileNum b)) as [Hf|Hf].
    + injection Hab as <-.
      destruct k3, k2; simpl in Hac, Hbc;
        destruct (GreatThan a c); try discriminate;
        destruct (GreatThan b c); try discriminate;
        rewrite <- Hf in Hbc;
        destruct (Z.eqb_spec (FileNum a) (FileNum c));
        unfold getCurrentFileEnd in *; rewrite <- ?Hf in Hbc;
        destruct (fs (FileNum a)); try discriminate;
        try (injection Hac as <-; injection Hbc as <-;
             apply sub64_chain).
      destruct (getVirtualOffsetDistance_from k3 fs _ c) eqn:E3;
        [|discriminate].
      destruct (getVirtualOffsetDistance_from k2 fs _ c) eqn:E2;
        [|discriminate].
      rewrite <- ?Hf in E2.
      pose proof (getVirtualOffsetDistance_from_det _ _ _ _ _ _ _ E3 E2).
      subst. injection Hac as <-. injection Hbc as <-.
      rewrite (sub64_chain (Pos a) (Pos b)). apply add64_swap.
    + destruct (getCurrentFileEnd fs a) as [fsize|] eqn:Hsz; [|discriminate].
      destruct (getVirtualOffsetDistance_from k1 fs _ b) as [u'|] eqn:E1;
        [|discriminate].
      injection Hab as <-.
      destruct k3; simpl in Hac;
        destruct (GreatThan a c); try discriminate;
        (destruct (Z.eqb_spec (FileNum a) (FileNum c)); [lia|]);
        rewrite Hsz in Hac; try discriminate.
      destruct (getVirtualOffsetDistance_from k3 fs _ c) as [w'|] eqn:E3;
        [|discriminate].
      injection Hac as <-.
      rewrite (IH _ _ _ _ E1 E3). apply add64_swap_r.
Qed.

(** X3: virtual distances add up.  When the distances from [a] to [b],
    from [b] to [c] and from [a] to [c] are all defined, the last is the
    64-bit sum of the first two, and their plain sum when that fits 64
    bits. *)
Theorem getVirtualOffsetDistance_additive
  (fs : dataFiles) (a b c : diskQueueOffset) (u v w : BackendOffset) :
  getVirtualOffsetDistance fs a b = Ok u ->
  getVirtualOffsetDistance fs b c = Ok v ->
  getVirtualOffsetDistance fs a c = Ok w ->
  w = add64 u v /\ (int64 (u + v) -> w = u + v).
Proof.
  unfold getVirtualOffsetDistance. intros Hab Hbc Hac.
  pose proof (getVirtualOffsetDistance_from_additive _ _ _ _ _ Hbc
                _ _ _ _ _ Hab Hac) as E.
  split; [exact E|]. intros Hr. rewrite E. apply add64_id. exact Hr.
Qed.

Lemma getVirtualOffsetDistance_additive_witness :
  getVirtualOffsetDistance rolled_files (mkOffset 0 0) (mkOffset 0 14) = Ok 14
  /\ getVirtualOffsetDistance rolled_files (mkOffset 0 14) (mkOffset 1 14)
     = Ok 14
  /\ getVirtualOffsetDistance rolled_files (mkOffset 0 0) (mkOffset 1 14)
     = Ok 28
  /\ 28 = 14 + 14.
Proof.
  split; [reflexivity|]. split; [reflexivity|]. split; [reflexivity|].
  apply (proj2 (getVirtualOffsetDistance_additive rolled_files
                  (mkOffset 0 0) (mkOffset 0 14) (mkOffset 1 14) 14 14 28
                  eq_refl eq_refl eq_refl)).
  unfold int64, min_int64, max_int64. lia.
Defined.

(** X4: [getVirtualOffsetDistance] measures what [stepOffset] steps.  When
    the sizes of the files fit 64 bits and no position overflows, the
    offset [stepOffset] reaches from [x] by [n >= 0] bytes lies [n] bytes
    after [x]. *)
Theorem stepOffset_then_distance
  (fuel : nat) (fs : dataFiles) (x maxStep y : diskQueueOffset) (n : Z) :
  files_fit fs ->
  0 <= Pos maxStep <= max_int64 ->
  FileNum maxStep < max_int64 ->
  min_int64 <= FileNum x ->
  0 <= Pos x ->
  0 <= n ->
  Pos x + n <= max_int64 ->
  stepOffset fuel fs x n maxStep = Some (Ok y) ->
  getVirtualOffsetDistance fs x y = Ok n.
Proof.
  intros Hfit Hmp Hmf Hxf Hxp Hn Hsum H.
  unfold stepOffset in H.
  destruct (Z.gtb_spec (FileNum x) (FileNum maxStep)); [discriminate|].
  destruct (Z.eqb_spec n 0) as [Hn0|Hn0].
  - injection H as <-. subst n.
    unfold getVirtualOffsetDistance. rewrite Z.sub_diag. simpl.
    unfold GreatThan.
    destruct (Z.gtb_spec (FileNum x) (FileNum x)); [lia|].
    rewrite Z.eqb_refl. simpl.
    destruct (Z.gtb_spec (Pos x) (Pos x)); [lia|].
    f_equal. rewrite sub64_id; [lia|].
    unfold int64, min_int64, max_int64. lia.
  - eapply (stepOffset_loop_distance fs x maxStep Hfit Hmp Hmf); eauto; lia.
Qed.

Lemma stepOffset_then_distance_witness :
  stepOffset 2 rolled_files (mkOffset 0 0) 28 (mkOffset 1 28)
  = Some (Ok (mkOffset 1 14))
  /\ getVirtualOffsetDistance rolled_files (mkOffset 0 0) (mkOffset 1 14)
     = Ok 28.
Proof.
  split; [reflexivity|].
  apply (stepOffset_then_distance 2 rolled_files (mkOffset 0 0)
           (mkOffset 1 28) (mkOffset 1 14) 28).
  - exact rolled_files_fit.
  - unfold max_int64; simpl; lia.
  - unfold max_int64; simpl; lia.
  - unfold min_int64; simpl; lia.
  - simpl; lia.
  - lia.
  - unfold max_int64; simpl; lia.
  - reflexivity.
Defined.

(** X5: [stepOffset] returns.  When the file number of the bound is below
    the greatest 64-bit integer, any number of loop rounds above the
    number of files between the start and the bound gives a result, and
    every number of rounds that gives a result gives this one. *)
Theorem stepOffset_returns
  (fs : dataFiles) (cur maxStep : diskQueueOffset) (step : Z) (fuel : nat) :
  FileNum maxStep < max_int64 ->
  min_int64 <= FileNum cur ->
  (Z.to_nat (FileNum maxStep - FileNum cur) < fuel)%nat ->
  exists res,
    stepOffset fuel fs cur step maxStep = Some res
    /\ forall fuel' res',
         stepOffset fuel' fs cur step maxStep = Some res' -> res' = res.
Proof.
  intros Hmax Hmin Hfuel.
  destruct (stepOffset_terminates fs cur step maxStep Hmax Hmin) as [res H].
  exists res. split.
  - eapply stepOffset_mono; [exact H|lia].
  - intros fuel' res' H'. eapply stepOffset_det; eauto.
Qed.

Lemma stepOffset_returns_witness :
  exists res,
    stepOffset 2 rolled_files (mkOffset 0 0) 100 (mkOffset 1 28) = Some res
    /\ forall fuel' res',
         stepOffset fuel' rolled_files (mkOffset 0 0) 100 (mkOffset 1 28)
         = Some res' -> res' = res.
Proof.
  apply (stepOffset_returns rolled_files (mkOffset 0 0) (mkOffset 1 28) 100 2).
  - unfold max_int64; simpl; lia.
  - unfold min_int64; simpl; lia.
  - simpl. lia.
Defined.

(** ** Further properties of the control operations *)

Lemma internalConfirm_frame fuel fs d offset d' err :
  internalConfirm fuel fs d offset = Some (d', err) ->
  confirm_frame_rel d d'.
Proof.
  unfold internalConfirm.
  destruct (offset =? -1); [intros [= <- _]; repeat split|].
  destruct (offset <=? virtualConfirmedOffset d);
    [intros [= <- _]; repeat split|].
  destruct (offset >? virtualReadOffset d); [intros [= <- _]; repeat split|].
  destruct (stepOffset _ _ _ _ _) as [[p|e]|]; intros [= <- _];
    repeat split.
Qed.

(** X6: a confirm keeps the confirmed position behind the read position.
    If the confirmed position is not beyond the read position before
    [internalConfirm], in the files and in the virtual stream, this holds
    afterwards as well; the confirm changes nothing but the confirmed
    position, and it never moves the virtual confirmed offset back. *)
Theorem internalConfirm_keeps_order
  (fuel : nat) (fs : dataFiles) (d d' : diskQueueReader)
  (offset : BackendOffset) (err : option error) :
  confirmed_behind_read d ->
  internalConfirm fuel fs d offset = Some (d', err) ->
  confirmed_behind_read d'
  /\ confirm_frame_rel d d'
  /\ virtualConfirmedOffset d <= virtualConfirmedOffset d'.
Proof.
  intros [Hpos Hv] H.
  split; [|split; [eapply internalConfirm_frame; eauto|]];
    revert H; unfold internalConfirm, confirmed_behind_read;
    destruct (Z.eqb_spec offset (-1));
      try (intros [= <- _]; simpl; try split; try lia;
           unfold offset_le; lia);
    destruct (Z.leb_spec offset (virtualConfirmedOffset d));
      try (intros [= <- _]; simpl; try split; auto; lia);
    destruct (Z.gtb_spec offset (virtualReadOffset d));
      try (intros [= <- _]; simpl; try split; auto; lia);
    destruct (stepOffset _ _ _ _ _) as [[p|e]|] eqn:Hstep;
      try discriminate;
      intros [= <- _]; simpl; try split; auto; try lia.
  eapply stepOffset_keeps_below; eauto.
Qed.

Lemma internalConfirm_keeps_order_witness :
  confirmed_behind_read
    (set_virtualConfirmedOffset 14
       (set_confirmedOffset (mkOffset 0 14) reading_reader))
  /\ 0 <= 14.
Proof.
  destruct (internalConfirm_keeps_order 2 rolled_files reading_reader
              (set_virtualConfirmedOffset 14
                 (set_confirmedOffset (mkOffset 0 14) reading_reader))
              14 None) as (H1 & _ & H2).
  - split; [left; simpl; lia|simpl; lia].
  - reflexivity.
  - split; [exact H1|exact H2].
Defined.

(** X7: a confirm that succeeded can be repeated: confirming the same
    offset again succeeds and leaves the reader as it is. *)
Theorem internalConfirm_idempotent
  (fuel fuel' : nat) (fs : dataFiles) (d d' : diskQueueReader)
  (offset : BackendOffset) :
  internalConfirm fuel fs d offset = Some (d', None) ->
  internalConfirm fuel' fs d' offset = Some (d', None).
Proof.
  unfold internalConfirm.
  destruct (Z.eqb_spec offset (-1)) as [->|Hn].
  - intros [= <-]. destruct d; reflexivity.
  - destruct (Z.leb_spec offset (virtualConfirmedOffset d)) as [Hle|Hgt].
    + intros [= <-].
      destruct (Z.leb_spec offset (virtualConfirmedOffset d)); [reflexivity|lia].
    + destruct (offset >? virtualReadOffset d); [discriminate|].
      destruct (stepOffset _ _ _ _ _) as [[p|e]|]; try discriminate.
      intros [= <-]. simpl.
      rewrite Z.leb_refl. reflexivity.
Qed.

Lemma internalConfirm_idempotent_witness :
  internalConfirm 0 rolled_files confirmed_reader 28
  = Some (confirmed_reader, None).
Proof.
  apply (internalConfirm_idempotent 2 0 rolled_files reading_reader
           confirmed_reader 28).
  reflexivity.
Defined.

(** X8: after a skip that succeeded, from a read position not beyond the
    end, the read position is not beyond the end, the confirmed position
    is the read position, both virtual offsets are the requested one,
    which is not beyond the virtual end, and the end is unchanged. *)
Theorem internalSkipTo_lands_before_end
  (fuel : nat) (fs : dataFiles) (d d' : diskQueueReader)
  (voffset : BackendOffset) :
  offset_le (readPos d) (endPos d) ->
  internalSkipTo fuel fs d voffset = Some (d', None) ->
  offset_le (readPos d') (endPos d')
  /\ confirmedOffset d' = readPos d'
  /\ virtualConfirmedOffset d' = voffset
  /\ virtualReadOffset d' = voffset
  /\ voffset <= virtualEnd d'
  /\ endPos d' = endPos d
  /\ virtualEnd d' = virtualEnd d.
Proof.
  intros Hle. unfold internalSkipTo. simpl.
  destruct (Z.gtb_spec voffset (virtualEnd d)); [discriminate|].
  destruct (Z.eqb_spec voffset (virtualEnd d)) as [Hv|Hv].
  - intros [= <-]. simpl.
    repeat split; try lia. right. lia.
  - destruct (stepOffset _ _ _ _ _) as [[p|e]|] eqn:Hstep; try discriminate.
    intros [= <-]. simpl.
    pose proof (stepOffset_keeps_below _ _ _ _ _ _ Hstep Hle) as Hp.
    repeat split; auto.
Qed.

Lemma internalSkipTo_lands_before_end_witness :
  offset_le (mkOffset 1 21) (mkOffset 1 28) /\ 35 <= 42.
Proof.
  destruct (internalSkipTo_lands_before_end 1 rolled_files reading_reader
              (set_virtualConfirmedOffset 35
                 (set_confirmedOffset (mkOffset 1 21)
                    (set_virtualReadOffset 35
                       (set_readPos (mkOffset 1 21) reading_reader))))
              35) as (H1 & _ & _ & _ & H2 & _).
  - right. simpl. lia.
  - reflexivity.
  - split; [exact H1|exact H2].
Defined.

Lemma ioLoop_readiness_idle fs e :
  readPos (rd e) = endPos (rd e) ->
  exists e',
    ioLoop_readiness fs e = Done (AtSelect e')
    /\ r (lv e') = false /\ rd e' = rd e.
Proof.
  intros H. unfold ioLoop_readiness. rewrite H.
  rewrite !Z.ltb_irrefl. simpl.
  destruct (rerr (lv e)); [eexists; split; [reflexivity|split; reflexivity]|].
  destruct (_ <? _); eexists; split; try reflexivity; split; reflexivity.
Qed.

(** X9: a skip to the virtual end drains the queue.  The engine answers
    without an error; read and confirmed positions are the end; the depth
    is zero; and in the next iteration the result channel is not armed,
    so that no message can be delivered. *)
Theorem skip_to_end_drains
  (fuel : nat) (fs : dataFiles) (rnd : Z) (e : engine) :
  exists e1 e2,
    ioLoop_select fuel fs (EvSkip (virtualEnd (rd e))) e
    = Done (e1, SkipResponse None)
    /\ readPos (rd e1) = endPos (rd e)
    /\ confirmedOffset (rd e1) = endPos (rd e)
    /\ virtualReadOffset (rd e1) = virtualEnd (rd e)
    /\ virtualConfirmedOffset (rd e1) = virtualEnd (rd e)
    /\ Depth (rd e1) = 0
    /\ ioLoop_head fs rnd e1 = Done (AtSelect e2)
    /\ r (lv e2) = false
    /\ reply_of (ioLoop_iter fuel fs rnd EvDeliver e1) = Some NotSelectable.
Proof.
  unfold ioLoop_select, internalSkipTo. simpl.
  destruct (Z.gtb_spec (virtualEnd (rd e)) (virtualEnd (rd e))); [lia|].
  rewrite Z.eqb_refl.
  match goal with
  | |- exists e1 e2, Done (?x, _) = _ /\ _ => set (e1 := x); exists e1
  end.
  assert (Hidle : exists e2,
             ioLoop_head fs rnd e1 = Done (AtSelect e2)
             /\ r (lv e2) = false).
  { unfold ioLoop_head.
    destruct (ioLoop_housekeeping_shape rnd e1) as (b & cnt & m & ->).
    destruct (ioLoop_readiness_idle fs
                (mkEngine (set_needSync b (rd e1))
                   (mkLoopVars (dataRead (lv e1)) (rerr (lv e1)) cnt
                      (r (lv e1)) (continueRead (lv e1))) m))
      as (e2 & H1 & H2 & _); [reflexivity|].
    eauto. }
  destruct Hidle as (e2 & Hhead & Hr).
  exists e2. repeat split; try assumption.
  - unfold Depth. simpl.
    destruct (Z.gtb_spec (FileNum (endPos (rd e))) (FileNum (endPos (rd e))));
      [lia|].
    rewrite Z.eqb_refl. unfold sub64. rewrite Z.sub_diag. reflexivity.
  - unfold ioLoop_iter. rewrite Hhead. unfold ioLoop_select. rewrite Hr.
    reflexivity.
Qed.

(** X10: handling the same end update twice leaves the reader as handling
    it once does. *)
Theorem handleEndUpdated_idempotent (q : diskQueueEndInfo)
  (d : diskQueueReader) :
  handleEndUpdated q (handleEndUpdated q d) = handleEndUpdated q d.
Proof.
  destruct d as [[rf rp] ? ? ? ? ? ? ? ? ? ? ? ? ? ? ? ? ? ? ? ? ?], q.
  unfold handleEndUpdated. simpl.
  split_ifs; bool_facts; try reflexivity; try lia;
    repeat match goal with
    | H : _ \/ _ |- _ => destruct H
    end; try lia; try congruence.
Qed.

(** ** Reading and recovery *)









Lemma handleReadError_facts (fs : dataFiles) (d : diskQueueReader) :
  confirmedOffset (handleReadError fs d) = readPos (handleReadError fs d)
  /\ virtualConfirmedOffset (handleReadError fs d)
     = virtualReadOffset (handleReadError fs d)
  /\ endPos (handleReadError fs d) = endPos d
  /\ virtualEnd (handleReadError fs d) = virtualEnd d
  /\ offset_le (readPos (handleReadError fs d)) (endPos d)
  /\ (readPos (handleReadError fs d) = endPos d
      \/ readPos (handleReadError fs d)
         = mkOffset (add64 (FileNum (readPos d)) 1) 0).
Proof.
  unfold handleReadError.
  destruct (GreatThan _ (endPos d)) eqn:G.
  - simpl. repeat split; auto. right. lia.
  - pose proof G as G'. apply GreatThan_false in G'.
    destruct (getVirtualOffsetDistance fs (readPos d) _).
    + simpl. repeat split; auto.
    + unfold skipToNextFile. simpl.
      destruct (Z.geb_spec (FileNum (readPos d)) (FileNum (endPos d))).
      * simpl. repeat split; auto. right. lia.
      * simpl. repeat split; auto.
Qed.

(** X13: what [handleReadError] establishes on every reader: the confirmed
    position is the read position, in the files and in the virtual
    stream; the end is unchanged; the read position is not beyond the
    end; and a sync is asked for, except on the path where the distance
    to the next file cannot be computed, which returns early with the
    file closed and the sync flag as it was. *)
Theorem handleReadError_recovers (fs : dataFiles) (d : diskQueueReader) :
  confirmedOffset (handleReadError fs d) = readPos (handleReadError fs d)
  /\ virtualConfirmedOffset (handleReadError fs d)
     = virtualReadOffset (handleReadError fs d)
  /\ endPos (handleReadError fs d) = endPos d
  /\ virtualEnd (handleReadError fs d) = virtualEnd d
  /\ offset_le (readPos (handleReadError fs d)) (endPos d)
  /\ (needSync (handleReadError fs d) = true
      \/ (exists e,
            getVirtualOffsetDistance fs (readPos d)
              (mkOffset (add64 (FileNum (readPos d)) 1) 0) = Err e)
         /\ needSync (handleReadError fs d) = needSync d
         /\ readFile (handleReadError fs d) = None).
Proof.
  destruct (handleReadError_facts fs d) as (H1 & H2 & H3 & H4 & H5 & _).
  split; [exact H1|]. split; [exact H2|]. split; [exact H3|].
  split; [exact H4|]. split; [exact H5|].
  unfold handleReadError.
  destruct (GreatThan _ (endPos d)); [left; reflexivity|].
  destruct (getVirtualOffsetDistance fs (readPos d) _) as [v|e] eqn:E;
    [left; reflexivity|].
  right. split; [exists e; reflexivity|].
  unfold skipToNextFile. simpl.
  destruct (FileNum (readPos d) >=? FileNum (endPos d)); split; reflexivity.
Qed.

(** X14: when the file being read exists and is before the file of the
    end, [handleReadError] moves to the start of the next file, advances
    the virtual read offset by what was left of the file read, confirms up
    to there and asks for a sync. *)
Theorem handleReadError_skips_rest_of_file
  (fs : dataFiles) (d : diskQueueReader) (bs : list byte) :
  int64 (FileNum (readPos d)) ->
  int64 (FileNum (endPos d)) ->
  FileNum (readPos d) < FileNum (endPos d) ->
  0 <= Pos (endPos d) ->
  fs (FileNum (readPos d)) = Some bs ->
  readPos (handleReadError fs d) = mkOffset (FileNum (readPos d) + 1) 0
  /\ virtualReadOffset (handleReadError fs d)
     = wrap64 (virtualReadOffset d
               + (Z.of_nat (List.length bs) - Pos (readPos d)))
  /\ confirmedOffset (handleReadError fs d)
     = mkOffset (FileNum (readPos d) + 1) 0
  /\ needSync (handleReadError fs d) = true.
Proof.
  intros Hint Hinte Hlt Hep Hfs.
  assert (Hinc : add64 (FileNum (readPos d)) 1 = FileNum (readPos d) + 1).
  { apply add64_id. unfold int64, min_int64, max_int64 in *. lia. }
  unfold handleReadError. rewrite Hinc.
  destruct (GreatThan _ (endPos d)) eqn:G.
  { apply GreatThan_spec in G. unfold offset_lt in G. simpl in G. lia. }
  unfold getVirtualOffsetDistance. simpl FileNum.
  replace (Z.to_nat (FileNum (readPos d) + 1 - FileNum (readPos d)))
    with 1%nat by lia.
  rewrite getVirtualOffsetDistance_from_S by (simpl; lia).
  unfold getCurrentFileEnd. rewrite Hfs, Hinc. simpl.
  unfold GreatThan. simpl.
  destruct (Z.gtb_spec (FileNum (readPos d) + 1) (FileNum (readPos d) + 1));
    [lia|].
  rewrite Z.eqb_refl. simpl.
  repeat split.
  unfold add64, sub64.
  change (wrap64 (0 - 0)) with 0. rewrite Z.add_0_l.
  rewrite !wrap64_add_r. reflexivity.
Qed.

Lemma handleReadError_skips_rest_of_file_witness :
  readPos (handleReadError rolled_files
             (set_readPos (mkOffset 0 4) reading_reader))
  = mkOffset (0 + 1) 0
  /\ virtualReadOffset
       (handleReadError rolled_files
          (set_readPos (mkOffset 0 4) reading_reader))
     = wrap64 (28 + (14 - 4)).
Proof.
  destruct (handleReadError_skips_rest_of_file rolled_files
              (set_readPos (mkOffset 0 4) reading_reader) (frames10 1))
    as (H1 & H2 & _).
  - unfold int64, min_int64, max_int64; simpl; lia.
  - unfold int64, min_int64, max_int64; simpl; lia.
  - simpl; lia.
  - simpl; lia.
  - reflexivity.
  - split; [exact H1|exact H2].
Defined.

(** ** An invariant of the engine *)

Lemma add64_int64 a b : int64 (add64 a b).
Proof. apply wrap64_int64. Qed.

Ltac ordered_same :=
  unfold files_ordered in *; simpl; intuition.

Lemma readFrame_files_ordered fs d h voffset d' out :
  files_ordered d ->
  readFrame fs d h voffset = Done (d', out) ->
  files_ordered d'.
Proof.
  intros (Hr & He & Hle). unfold readFrame.
  destruct (handleBytes fs h) as [|b0 [|b1 [|b2 [|b3 rest]]]];
    try (intros [= <- _]; ordered_same).
  destruct ((be_int32 b0 b1 b2 b3 <? minMsgSize d)
            || (be_int32 b0 b1 b2 b3 >? maxMsgSize d));
    [intros [= <- _]; ordered_same|].
  destruct (be_int32 b0 b1 b2 b3 <? 0); [discriminate|].
  destruct (Z.of_nat (List.length rest) <? be_int32 b0 b1 b2 b3);
    [intros [= <- _]; ordered_same|].
  cbv zeta. cbn [readPos endPos set_readPos set_virtualReadOffset
                 set_readFile FileNum set_Pos].
  destruct (Z.ltb_spec (FileNum (readPos d)) (FileNum (endPos d))).
  - destruct (statSize fs _); [|intros [= <- _]; ordered_same].
    split_ifs; intros [= <- _]; unfold files_ordered; simpl;
      repeat split; try apply add64_int64; try apply He; try apply Hr;
      try lia;
      rewrite add64_id; unfold int64, min_int64, max_int64 in *; lia.
  - split_ifs; intros [= <- _]; unfold files_ordered; simpl;
      repeat split; try apply He; try apply Hr; lia.
Qed.

Lemma readOne_from_files_ordered fs :
  forall k d d' out,
    files_ordered d ->
    readOne_from k fs d = Done (d', out) ->
    files_ordered d'.
Proof.
  induction k as [|k IH]; intros d d' out Hinv; simpl;
    (destruct (openReadFile fs d) as [h|err];
       [|intros [= <- _]; ordered_same]);
    cbn [readPos endPos set_readFile];
    (destruct (Z.ltb_spec (FileNum (readPos d)) (FileNum (endPos d)));
       [destruct (statSize fs h);
          [destruct (Pos (readPos d) >=? a)|intros [= <- _]; ordered_same]|]);
    try discriminate;
    try (intros Hrun; eapply readFrame_files_ordered; [|exact Hrun];
         exact Hinv).
  intros Hrun. eapply IH; [|exact Hrun].
  destruct Hinv as (Hr & He & Hle). unfold files_ordered. simpl.
  repeat split; try apply add64_int64; try apply He.
  rewrite add64_id; unfold int64, min_int64, max_int64 in *; lia.
Qed.

Lemma handleReadError_files_ordered fs d :
  files_ordered d -> files_ordered (handleReadError fs d).
Proof.
  intros (Hr & He & Hle).
  destruct (handleReadError_facts fs d) as (_ & _ & Hend & _ & Hb & Hcase).
  unfold files_ordered. rewrite Hend.
  split; [|split; [exact He|]].
  - destruct Hcase as [-> | ->]; [exact He|apply add64_int64].
  - unfold offset_le in Hb. lia.
Qed.

Lemma stepOffset_loop_file_int64 k fs cur maxStep :
  forall o s y,
    int64 (FileNum o) ->
    stepOffset_loop k fs cur o s maxStep = Some (Ok y) ->
    int64 (FileNum y).
Proof.
  induction k as [|k IH]; intros o s y Ho H; [discriminate|].
  simpl in H.
  destruct (if FileNum cur <? FileNum maxStep
            then getCurrentFileEnd fs o else Ok (Pos maxStep));
    [|discriminate].
  destruct (s >? sub64 a (Pos o)).
  - destruct (GreatThan _ maxStep); [discriminate|].
    destruct (sub64 s (sub64 a (Pos o)) =? 0).
    + injection H as <-. apply add64_int64.
    + eapply IH; [|exact H]. apply add64_int64.
  - destruct (GreatThan _ maxStep); [discriminate|].
    injection H as <-. exact Ho.
Qed.

Lemma internalSkipTo_files_ordered fuel fs d v d' err :
  files_ordered d ->
  internalSkipTo fuel fs d v = Some (d', err) ->
  files_ordered d'.
Proof.
  intros (Hr & He & Hle). unfold internalSkipTo. simpl.
  destruct (v >? virtualEnd d); [intros [= <- _]; ordered_same|].
  destruct (v =? virtualEnd d).
  - intros [= <- _]. unfold files_ordered. simpl. intuition lia.
  - destruct (stepOffset _ _ _ _ _) as [[p|e]|] eqn:Hstep;
      try discriminate; intros [= <- _]; [|ordered_same].
    assert (Hp : int64 (FileNum p)).
    { unfold stepOffset in Hstep.
      destruct (FileNum (readPos d) >? FileNum (endPos d)); [discriminate|].
      destruct (_ =? 0); [injection Hstep as <-; exact Hr|].
      eapply stepOffset_loop_file_int64; [|exact Hstep]. exact Hr. }
    pose proof (stepOffset_bounded _ _ _ _ _ _ Hstep) as Hb.
    unfold files_ordered. simpl.
    split; [exact Hp|]. split; [exact He|].
    destruct Hb as [[_ ->]|[Hn Hb]]; [exact Hle|].
    unfold offset_le in Hb. lia.
Qed.

Lemma handleEndUpdated_files_ordered q d :
  int64 (EndFileNum q) -> files_ordered d ->
  files_ordered (handleEndUpdated q d).
Proof.
  intros Hq (Hr & He & Hle).
  destruct (handleEndUpdated_fields q d) as (Hend & _).
  destruct (handleEndUpdated_readPos q d) as (Hgt & Hkeep).
  unfold files_ordered. rewrite Hend.
  assert (Hcase : offset_lt (mkOffset (EndFileNum q) (EndPos q)) (readPos d)
                  \/ offset_le (readPos d)
                       (mkOffset (EndFileNum q) (EndPos q))).
  { unfold offset_lt, offset_le. simpl. lia. }
  destruct Hcase as [H|H].
  - destruct (Hgt H) as [E _]. rewrite E. simpl.
    split; [exact Hq|]. split; [exact Hq|lia].
  - destruct (Hkeep H) as [E _]. rewrite E. unfold offset_le in H.
    simpl in *. split; [exact Hr|]. split; [exact Hq|lia].
Qed.

Lemma checkTailCorruption_files_ordered d :
  files_ordered d -> files_ordered (checkTailCorruption d).
Proof.
  intros (Hr & He & Hle). unfold checkTailCorruption.
  destruct (_ || _); [ordered_same|].
  destruct (negb _); [|ordered_same].
  unfold files_ordered. simpl. intuition lia.
Qed.

Lemma ioLoop_head_files_ordered fs rnd e ph :
  files_ordered (rd e) ->
  ioLoop_head fs rnd e = Done ph ->
  files_ordered (rd (match ph with AtSelect e' => e' | Continue e' => e' end)).
Proof.
  intros Hinv. unfold ioLoop_head.
  destruct (ioLoop_housekeeping_shape rnd e) as (b & cnt & m & ->).
  unfold ioLoop_readiness. cbn [rd lv mfs rerr continueRead].
  assert (Hinv' : files_ordered (set_needSync b (rd e))) by ordered_same.
  destruct (rerr (lv e)); [intros [= <-]; exact Hinv'|].
  destruct (_ <? _); [intros [= <-]; exact Hinv'|].
  destruct (_ || _); [|intros [= <-]; exact Hinv'].
  destruct (continueRead (lv e)); [|intros [= <-]; exact Hinv'].
  destruct (readOne fs _) as [[d1 [[off dat] err]]| |] eqn:Hread;
    try discriminate.
  apply readOne_from_files_ordered in Hread; [|exact Hinv'].
  destruct err; [destruct (autoSkipError d1)|]; intros [= <-]; simpl;
    try exact Hread.
  apply handleReadError_files_ordered. exact Hread.
Qed.

Lemma ioLoop_select_files_ordered fuel fs ev e e' rp :
  event_typed ev ->
  files_ordered (rd e) ->
  ioLoop_select fuel fs ev e = Done (e', rp) ->
  files_ordered (rd e').
Proof.
  intros Hev Hinv. unfold ioLoop_select.
  destruct ev as [|v|q|o| |]; simpl in Hev.
  - destruct (r (lv e)); [|intros [= <- _]; exact Hinv].
    destruct (rerr (lv e)); intros [= <- _]; simpl; [exact Hinv|].
    apply checkTailCorruption_files_ordered. exact Hinv.
  - destruct (internalSkipTo fuel fs (rd e) v) as [[d1 err]|] eqn:Hs;
      [|discriminate].
    intros [= <- _]. simpl. eapply internalSkipTo_files_ordered; eauto.
  - intros [= <- _]. simpl. apply handleEndUpdated_files_ordered; assumption.
  - destruct (internalConfirm fuel fs (rd e) o) as [[d1 err]|] eqn:Hc;
      [|discriminate].
    intros [= <- _]. simpl.
    apply internalConfirm_frame in Hc. unfold confirm_frame_rel in Hc.
    destruct Hc as (H1 & _ & H2 & _). unfold files_ordered.
    rewrite H1, H2. exact Hinv.
  - destruct (count (lv e) >? 0); intros [= <- _]; simpl;
      [ordered_same|exact Hinv].
  - intros [= <- _]. exact Hinv.
Qed.

Lemma ioLoop_iter_files_ordered fuel fs rnd ev e e' rp :
  event_typed ev ->
  files_ordered (rd e) ->
  ioLoop_iter fuel fs rnd ev e = Done (e', rp) ->
  files_ordered (rd e').
Proof.
  intros Hev Hinv. unfold ioLoop_iter.
  destruct (ioLoop_head fs rnd e) as [[e1|e1]| |] eqn:Hhead; try discriminate;
    apply ioLoop_head_files_ordered in Hhead; try exact Hinv; simpl in Hhead.
  - intros H. eapply ioLoop_select_files_ordered; eauto.
  - intros [= <- _]. exact Hhead.
Qed.

Lemma ioLoop_run_cons fuel fs rnd ev evs e e' rps :
  ioLoop_run fuel fs rnd (ev :: evs) e = Done (e', rps) ->
  exists e1 rp,
    ioLoop_iter fuel fs rnd ev e = Done (e1, rp)
    /\ (e' = e1
        \/ exists rps2, ioLoop_run fuel fs rnd evs e1 = Done (e', rps2)).
Proof.
  simpl.
  destruct (ioLoop_iter fuel fs rnd ev e) as [[e1 rp]| |]; try discriminate.
  intros H. exists e1, rp. split; [reflexivity|].
  destruct rp;
    try (destruct (ioLoop_run fuel fs rnd evs e1) as [[e2 rps2]| |];
         try discriminate; injection H as <- _; right; eexists;
         reflexivity).
  injection H as <- _. left. reflexivity.
Qed.

(** X15: an invariant of the engine.  Along every run of [ioLoop] whose end
    updates carry 64-bit file numbers, from a reader whose read position
    is in no later file than the end, the read position stays in no later
    file than the end.  In the states so reached the tail check resets a
    read position that is beyond the end, and the arming test is the
    lexicographic comparison of read position and end. *)
Theorem ioLoop_run_files_ordered
  (fuel : nat) (fs : dataFiles) (rnd : Z) (evs : list event)
  (e e' : engine) (rps : list reply) :
  Forall event_typed evs ->
  files_ordered (rd e) ->
  ioLoop_run fuel fs rnd evs e = Done (e', rps) ->
  files_ordered (rd e')
  /\ (offset_lt (endPos (rd e')) (readPos (rd e')) ->
      checkTailCorruption (rd e')
      = set_needSync true (skipToEndofFile (rd e')))
  /\ ((FileNum (readPos (rd e')) <? FileNum (endPos (rd e')))
      || (Pos (readPos (rd e')) <? Pos (endPos (rd e'))) = true
      <-> offset_lt (readPos (rd e')) (endPos (rd e'))).
Proof.
  intros Hevs Hinv Hrun.
  assert (Hfinal : files_ordered (rd e')).
  { revert e e' rps Hinv Hrun.
    induction Hevs as [|ev evs Hev Hevs IH]; intros e e' rps Hinv Hrun.
    - simpl in Hrun. injection Hrun as <- _. exact Hinv.
    - apply ioLoop_run_cons in Hrun.
      destruct Hrun as (e1 & rp & Hiter & Hrest).
      pose proof (ioLoop_iter_files_ordered _ _ _ _ _ _ _ Hev Hinv Hiter)
        as Hinv1.
      destruct Hrest as [->|[rps2 Hrest]]; [exact Hinv1|].
      eapply IH; eauto. }
  split; [exact Hfinal|].
  destruct Hfinal as (_ & _ & Hle).
  split.
  - apply (checkTailCorruption_within_files (rd e') Hle).
  - apply arming_test_lt. exact Hle.
Qed.

Lemma ioLoop_run_files_ordered_witness :
  exists e' rps,
    ioLoop_run 2 rolled_files 0
      [EvEndUpdated (mkEndInfo 1 28 42 3); EvDeliver; EvDeliver; EvConfirm 28]
      fresh_engine = Done (e', rps)
    /\ files_ordered (rd e').
Proof.
  destruct (ioLoop_run 2 rolled_files 0
              [EvEndUpdated (mkEndInfo 1 28 42 3); EvDeliver; EvDeliver;
               EvConfirm 28] fresh_engine) as [[e' rps]| |] eqn:Hrun;
    [|vm_compute in Hrun; discriminate|vm_compute in Hrun; discriminate].
  exists e', rps. split; [reflexivity|].
  apply (proj1 (ioLoop_run_files_ordered 2 rolled_files 0
           [EvEndUpdated (mkEndInfo 1 28 42 3); EvDeliver; EvDeliver;
            EvConfirm 28] fresh_engine e' rps
           ltac:(repeat constructor;
                 unfold int64, min_int64, max_int64; simpl; lia)
           ltac:(unfold files_ordered, int64, min_int64, max_int64;
                 simpl; lia)
           Hrun)).
Defined.

(** ** Life cycle and metadata *)

(** X16: close and reopen.  On a reader that has not exited, with an
    engine that runs (a positive sync interval) and writable metadata,
    [Close] sets the exit flag, leaves no sync pending, drops the read
    file and returns no error; a second [Close], or a [Delete], on the
    closed reader panics ([exit] closes the exit channel again); and a
    reader constructed afterwards for the same metadata name and data
    path starts reading at the confirmed position of the closed one,
    with the same end and the same depth. *)
Theorem close_then_reopen
  (rnd : Z) (m : metaFS) (d : diskQueueReader) (readFrom' : string)
  (maxBytes minMsg maxMsg every timeout : Z) (autoSkip : bool) :
  exitFlag d <> 1 ->
  0 < syncTimeout d ->
  0 < timeout ->
  writable m = true ->
  meta_fields_int64 d ->
  exists m' d1,
    Close rnd m d = Done (m', d1, None)
    /\ exitFlag d1 = 1
    /\ needSync d1 = false
    /\ readFile d1 = None
    /\ (forall rnd' m0, Close rnd' m0 d1 = Panicked)
    /\ Delete d1 = Panicked
    /\ confirmedOffset
         (newDiskQueueReader m' readFrom' (readerMetaName d) (dataPath d)
            maxBytes minMsg maxMsg every timeout autoSkip)
       = confirmedOffset d
    /\ readPos
         (newDiskQueueReader m' readFrom' (readerMetaName d) (dataPath d)
            maxBytes minMsg maxMsg every timeout autoSkip)
       = confirmedOffset d
    /\ virtualReadOffset
         (newDiskQueueReader m' readFrom' (readerMetaName d) (dataPath d)
            maxBytes minMsg maxMsg every timeout autoSkip)
       = virtualConfirmedOffset d
    /\ endPos
         (newDiskQueueReader m' readFrom' (readerMetaName d) (dataPath d)
            maxBytes minMsg maxMsg every timeout autoSkip)
       = endPos d
    /\ Depth
         (newDiskQueueReader m' readFrom' (readerMetaName d) (dataPath d)
            maxBytes minMsg maxMsg every timeout autoSkip)
       = Depth d.
Proof.
  intros Hflag _ _ Hw Hint.
  unfold Close, Delete, exit.
  apply Z.eqb_neq in Hflag. rewrite Hflag. cbv zeta.
  set (d0 := set_readFile None (set_exitFlag 1 d)).
  assert (Hint' : meta_fields_int64 d0) by exact Hint.
  unfold sync, newDiskQueueReader.
  match goal with
  | |- context [retrieveMetaData _ ?dn] =>
    destruct (retrieve_after_persist rnd m d0 dn Hw Hint'
                eq_refl eq_refl) as [Hp Hr]
  end.
  destruct (persistMetaData rnd m d0) as [m' perr] eqn:Hpm.
  simpl in Hp, Hr. subst perr.
  exists m', (set_needSync false d0).
  split; [reflexivity|].
  split; [reflexivity|]. split; [reflexivity|]. split; [reflexivity|].
  split; [intros rnd' m0; reflexivity|]. split; [reflexivity|].
  rewrite Hr. simpl.
  split; [reflexivity|]. split; [reflexivity|]. split; [reflexivity|].
  split; reflexivity.
Qed.

Lemma close_then_reopen_witness :
  exists m' d1,
    Close 7 no_meta confirmed_reader = Done (m', d1, None)
    /\ exitFlag d1 = 1
    /\ needSync d1 = false
    /\ readFile d1 = None
    /\ (forall rnd' m0, Close rnd' m0 d1 = Panicked)
    /\ Delete d1 = Panicked
    /\ confirmedOffset
         (newDiskQueueReader m' "topic" (readerMetaName confirmed_reader)
            (dataPath confirmed_reader) 100 0 1024 10 2 false)
       = confirmedOffset confirmed_reader
    /\ readPos
         (newDiskQueueReader m' "topic" (readerMetaName confirmed_reader)
            (dataPath confirmed_reader) 100 0 1024 10 2 false)
       = confirmedOffset confirmed_reader
    /\ virtualReadOffset
         (newDiskQueueReader m' "topic" (readerMetaName confirmed_reader)
            (dataPath confirmed_reader) 100 0 1024 10 2 false)
       = virtualConfirmedOffset confirmed_reader
    /\ endPos
         (newDiskQueueReader m' "topic" (readerMetaName confirmed_reader)
            (dataPath confirmed_reader) 100 0 1024 10 2 false)
       = endPos confirmed_reader
    /\ Depth
         (newDiskQueueReader m' "topic" (readerMetaName confirmed_reader)
            (dataPath confirmed_reader) 100 0 1024 10 2 false)
       = Depth confirmed_reader.
Proof.
  apply (close_then_reopen 7 no_meta confirmed_reader "topic" 100 0 1024 10 2
           false).
  - simpl; lia.
  - simpl; lia.
  - lia.
  - reflexivity.
  - unfold meta_fields_int64, int64, min_int64, max_int64; simpl; lia.
Defined.







(** X19: the sync bookkeeping at the start of an iteration.  With no sync
    due the engine is unchanged.  With a sync due and metadata that cannot
    be written the sync stays due and the files are untouched.  With a
    sync due and writable metadata the flag is cleared, and reading the
    metadata file back gives the confirmed position, the end and the
    message count of the reader. *)
Theorem housekeeping_sync (rnd : Z) (e : engine) :
  (needSync (rd e) = false -> count (lv e) <> syncEvery (rd e) ->
   ioLoop_housekeeping rnd e = mkEngine (rd e) (lv e) (mfs e))
  /\ (needSync (rd e) = true \/ count (lv e) = syncEvery (rd e) ->
      writable (mfs e) = false ->
      needSync (rd (ioLoop_housekeeping rnd e)) = true
      /\ mfs (ioLoop_housekeeping rnd e) = mfs e)
  /\ (needSync (rd e) = true \/ count (lv e) = syncEvery (rd e) ->
      writable (mfs e) = true ->
      meta_fields_int64 (rd e) ->
      needSync (rd (ioLoop_housekeeping rnd e)) = false
      /\ forall d0,
           readerMetaName d0 = readerMetaName (rd e) ->
           dataPath d0 = dataPath (rd e) ->
           exists d',
             retrieveMetaData (mfs (ioLoop_housekeeping rnd e)) d0
             = (d', None)
             /\ confirmedOffset d' = confirmedOffset (rd e)
             /\ virtualConfirmedOffset d' = virtualConfirmedOffset (rd e)
             /\ endPos d' = endPos (rd e)
             /\ virtualEnd d' = virtualEnd (rd e)
             /\ totalMsgCnt d' = totalMsgCnt (rd e)).
Proof.
  destruct e as [d v m]. simpl.
  split; [|split].
  - intros Hn Hc. unfold ioLoop_housekeeping. simpl.
    apply Z.eqb_neq in Hc. rewrite Hc, Hn. destruct v; reflexivity.
  - intros Hcase Hw. unfold ioLoop_housekeeping, sync, persistMetaData.
    simpl.
    destruct (count v =? syncEvery d) eqn:Hc; simpl.
    + rewrite Hw. simpl. destruct m; simpl in *; subst; auto.
    + destruct Hcase as [Hn|Hc']; [|apply Z.eqb_neq in Hc; contradiction].
      rewrite Hn, Hw. simpl. destruct m; simpl in *; subst; auto.
  - intros Hcase Hw Hint. unfold ioLoop_housekeeping, sync.
    simpl.
    assert (Hgen : forall d1,
               meta_fields_int64 d1 ->
               readerMetaName d1 = readerMetaName d ->
               dataPath d1 = dataPath d ->
               confirmedOffset d1 = confirmedOffset d ->
               virtualConfirmedOffset d1 = virtualConfirmedOffset d ->
               endPos d1 = endPos d -> virtualEnd d1 = virtualEnd d ->
               totalMsgCnt d1 = totalMsgCnt d ->
               forall d0,
                 readerMetaName d0 = readerMetaName d ->
                 dataPath d0 = dataPath d ->
                 exists d',
                   retrieveMetaData (fst (persistMetaData rnd m d1)) d0
                   = (d', None)
                   /\ confirmedOffset d' = confirmedOffset d
                   /\ virtualConfirmedOffset d' = virtualConfirmedOffset d
                   /\ endPos d' = endPos d
                   /\ virtualEnd d' = virtualEnd d
                   /\ totalMsgCnt d' = totalMsgCnt d).
    { intros d1 Hi1 Hn1 Hp1 E1 E2 E3 E4 E5 d0 Hn0 Hp0.
      destruct (retrieve_after_persist rnd m d1 d0 Hw Hi1) as [_ Hr];
        try congruence.
      eexists. split; [exact Hr|]. simpl. repeat split; congruence. }
    assert (Hok : forall d1, snd (persistMetaData rnd m d1) = None).
    { intros d1. unfold persistMetaData. rewrite Hw. reflexivity. }
    destruct (count v =? syncEvery d) eqn:Hc; simpl.
    + specialize (Hgen (set_needSync true d) Hint eq_refl eq_refl eq_refl
                    eq_refl eq_refl eq_refl eq_refl).
      specialize (Hok (set_needSync true d)).
      destruct (persistMetaData rnd m (set_needSync true d)) as [m' pe].
      simpl in *. subst pe. simpl. split; [reflexivity|exact Hgen].
    + destruct Hcase as [Hn|Hc']; [|apply Z.eqb_neq in Hc; contradiction].
      rewrite Hn.
      specialize (Hgen d Hint eq_refl eq_refl eq_refl
                    eq_refl eq_refl eq_refl eq_refl).
      specialize (Hok d).
      destruct (persistMetaData rnd m d) as [m' pe].
      simpl in *. subst pe. simpl. split; [reflexivity|exact Hgen].
Qed.

Lemma housekeeping_sync_witness :
  needSync (rd (ioLoop_housekeeping 7
                  (mkEngine (set_needSync true confirmed_reader)
                     loopVars_init no_meta))) = false.
Proof.
  apply (proj2 (proj2 (housekeeping_sync 7
                         (mkEngine (set_needSync true confirmed_reader)
                            loopVars_init no_meta)))).
  - left. reflexivity.
  - reflexivity.
  - unfold meta_fields_int64, int64, min_int64, max_int64; simpl; lia.
Defined.

(** ** End descriptors *)

Lemma endInfo_eqb_eq a b : endInfo_eqb a b = true <-> a = b.
Proof.
  unfold endInfo_eqb. destruct a, b; simpl.
  rewrite !andb_true_iff, !Z.eqb_eq. split.
  - intros [[[-> ->] ->] ->]. reflexivity.
  - intros [= -> -> -> ->]. auto.
Qed.

(** X20: an end update with the end the reader already holds, as [IsSame]
    tells, changes nothing when the read position is not beyond the end;
    [GetOffset] and [GetTotalMsgCnt] of such an end are the virtual end
    and the message count of the reader. *)
Theorem IsSame_update_is_noop
  (q : diskQueueEndInfo) (d : diskQueueReader) :
  IsSame q (DiskQueueEnd (Some (current_end d))) = Done true ->
  offset_le (readPos d) (endPos d) ->
  handleEndUpdated q d = d
  /\ GetOffset q = virtualEnd d
  /\ GetTotalMsgCnt q = totalMsgCnt d.
Proof.
  unfold IsSame. intros [= H] Hle. apply endInfo_eqb_eq in H. subst q.
  split; [|split; reflexivity].
  destruct d as [[rf rp] [ef ep] ? ? ? ? ? ? ? ? ? ? ? ? ? ? ? ? ? ? ? ?].
  unfold handleEndUpdated, current_end, offset_le in *. simpl in *.
  rewrite Z.eqb_refl. simpl.
  destruct (Z.gtb_spec rf ef); [lia|]. simpl.
  destruct (Z.eqb_spec rf ef); destruct (Z.gtb_spec rp ep); simpl;
    try reflexivity; lia.
Qed.

Lemma IsSame_update_is_noop_witness :
  handleEndUpdated (current_end reading_reader) reading_reader
  = reading_reader.
Proof.
  apply (proj1 (IsSame_update_is_noop (current_end reading_reader)
                  reading_reader eq_refl
                  ltac:(right; simpl; lia))).
Defined.

Lemma IsSame_spec q o :
  IsSame q (DiskQueueEnd (Some o)) = Done true <-> q = o.
Proof.
  unfold IsSame. split.
  - intros [= H]. apply endInfo_eqb_eq. exact H.
  - intros ->. f_equal. apply endInfo_eqb_eq. reflexivity.
Qed.

(** ** Depth *)

(** X21: [Depth] is not negative when the confirmed position is not beyond
    the end, in the files and in the virtual stream, and the values are
    in range; it is the difference of the positions when both are in one
    file, and the difference of the virtual offsets otherwise. *)
Theorem Depth_nonneg (d : diskQueueReader) :
  offset_le (confirmedOffset d) (endPos d) ->
  virtualConfirmedOffset d <= virtualEnd d ->
  0 <= Pos (confirmedOffset d) ->
  Pos (endPos d) <= max_int64 ->
  0 <= virtualConfirmedOffset d ->
  virtualEnd d <= max_int64 ->
  0 <= Depth d
  /\ (FileNum (confirmedOffset d) = FileNum (endPos d) ->
      Depth d = Pos (endPos d) - Pos (confirmedOffset d))
  /\ (FileNum (confirmedOffset d) < FileNum (endPos d) ->
      Depth d = virtualEnd d - virtualConfirmedOffset d).
Proof.
  intros Hle Hv Hp He Hvc Hve. unfold Depth, offset_le in *.
  destruct (Z.gtb_spec (FileNum (confirmedOffset d)) (FileNum (endPos d)));
    [lia|].
  destruct (Z.eqb_spec (FileNum (endPos d)) (FileNum (confirmedOffset d))).
  - rewrite sub64_id by (unfold int64, min_int64, max_int64 in *; lia).
    repeat split; lia.
  - rewrite sub64_id by (unfold int64, min_int64, max_int64 in *; lia).
    repeat split; lia.
Qed.

Lemma Depth_nonneg_witness :
  0 <= Depth confirmed_reader /\ Depth confirmed_reader = 28 - 14.
Proof.
  destruct (Depth_nonneg confirmed_reader
              ltac:(right; simpl; lia)
              ltac:(simpl; lia)
              ltac:(simpl; lia)
              ltac:(unfold max_int64; simpl; lia)
              ltac:(simpl; lia)
              ltac:(unfold max_int64; simpl; lia)) as (H1 & H2 & _).
  split; [exact H1|]. apply H2. reflexivity.
Defined.

(** ** File names *)

Lemma string_app_inv_head (p a b : string) :
  (p ++ a = p ++ b)%string -> a = b.
Proof. induction p; simpl; intros H; [exact H|]. injection H as H. auto. Qed.

Lemma string_app_length (a b : string) :
  String.length (a ++ b) = (String.length a + String.length b)%nat.
Proof. induction a; simpl; congruence. Qed.

Lemma string_app_inv_tail (q a b : string) :
  (a ++ q = b ++ q)%string -> a = b.
Proof.
  revert b. induction a as [|c a IH]; intros [|c' b] H; simpl in H.
  - reflexivity.
  - apply (f_equal String.length) in H. simpl in H.
    rewrite string_app_length in H. lia.
  - apply (f_equal String.length) in H. simpl in H.
    rewrite string_app_length in H. lia.
  - injection H as -> H. f_equal. apply IH. exact H.
Qed.

Lemma of_uint_iter_D0 k u :
  Z.of_uint (Nat.iter k D0 u) = Z.of_uint u.
Proof. induction k; simpl; auto. Qed.

Lemma iter_D0_nonnil k u : u <> Nil -> Nat.iter k D0 u <> Nil.
Proof. destruct k; simpl; [auto|discriminate]. Qed.

Lemma scan_d_format_06d z c rest :
  int64 z -> is_digit c = false ->
  scan_d (format_06d z ++ String c rest) = Some (z, String c rest).
Proof.
  intros Hz Hc. apply int64b_true in Hz.
  unfold format_06d, pad_uint.
  destruct z as [|p|p]; cbv beta iota delta [Z.to_int].
  - unfold scan_d. simpl. rewrite Hc. reflexivity.
  - pose proof (DecimalPos.Unsigned.to_uint_nonnil p) as Hn.
    rewrite scan_d_uint by (try apply iter_D0_nonnil; assumption).
    rewrite of_uint_iter_D0. unfold Z.of_uint. rewrite DecimalPos.Unsigned.of_to.
    simpl. rewrite Hz. reflexivity.
  - pose proof (DecimalPos.Unsigned.to_uint_nonnil p) as Hn.
    cbn [append].
    rewrite scan_d_neg_uint by (try apply iter_D0_nonnil; assumption).
    rewrite of_uint_iter_D0. unfold Z.of_uint. rewrite DecimalPos.Unsigned.of_to.
    simpl. rewrite Hz. reflexivity.
Qed.

Lemma format_06d_inj n m :
  int64 n -> int64 m -> format_06d n = format_06d m -> n = m.
Proof.
  intros Hn Hm H.
  assert (E : scan_d (format_06d n ++ ".") = scan_d (format_06d m ++ "."))
    by (rewrite H; reflexivity).
  change "."%string with (String "." "") in E.
  rewrite !scan_d_format_06d in E by (assumption || reflexivity).
  congruence.
Qed.

(** What [Sprintf] prints depends on the number through the one place of
    [%06d] only. *)
Lemma fmt_render_shape ts s :
  forall k n r,
    fmt_render ts k s n = Some r ->
    ((k = 2)%nat -> forall n', fmt_render ts k s n' = Some r)
    /\ ((k < 2)%nat ->
        exists p q,
          forall n', fmt_render ts k s n'
                     = Some (p ++ format_06d n' ++ q)%string).
Proof.
  induction ts as [|t ts IH]; intros k n r H; simpl in H.
  - destruct (Nat.eqb_spec k 2); [|discriminate].
    split; [intros _ n'; simpl; subst k; exact H|lia].
  - destruct t.
    + destruct (fmt_render ts k s n) as [r0|] eqn:E; [|discriminate].
      destruct (IH _ _ _ E) as [H2 H01]. split.
      * intros Hk n'. simpl. rewrite (H2 Hk n'). exact H.
      * intros Hk. destruct (H01 Hk) as (p & q & Hpq).
        exists (String c p), q. intros n'. simpl. rewrite Hpq. reflexivity.
    + destruct (fmt_render ts k s n) as [r0|] eqn:E; [|discriminate].
      destruct (IH _ _ _ E) as [H2 H01]. split.
      * intros Hk n'. simpl. rewrite (H2 Hk n'). exact H.
      * intros Hk. destruct (H01 Hk) as (p & q & Hpq).
        exists (String "%" p), q. intros n'. simpl. rewrite Hpq.
        reflexivity.
    + destruct (Nat.eqb_spec k 0); [|discriminate]. subst k.
      destruct (fmt_render ts 1 s n) as [r0|] eqn:E; [|discriminate].
      destruct (IH _ _ _ E) as [_ H01]. split; [lia|].
      intros _. destruct (H01 ltac:(lia)) as (p & q & Hpq).
      exists (s ++ p)%string, q. intros n'. simpl. rewrite Hpq. simpl.
      rewrite string_app_assoc. reflexivity.
    + destruct (Nat.eqb_spec k 1); [|discriminate]. subst k.
      destruct (fmt_render ts 2 s n) as [r0|] eqn:E; [|discriminate].
      destruct (IH _ _ _ E) as [H2 _]. split; [lia|].
      intros _. exists EmptyString, r0. intros n'. simpl.
      rewrite (H2 eq_refl n'). reflexivity.
    + discriminate.
Qed.

(** A data path without [%] gives the plain name. *)
Lemma split_slash_nonempty s : split_slash s <> [].
Proof.
  destruct s as [|c s]; simpl; [discriminate|].
  destruct (Ascii.eqb c "/"); [discriminate|].
  destruct (split_slash s); discriminate.
Qed.

Lemma split_slash_app a b :
  split_slash (a ++ String "/" b) = split_slash a ++ split_slash b.
Proof.
  induction a as [|c a IH]; simpl; [reflexivity|].
  destruct (Ascii.eqb c "/"); [rewrite IH; reflexivity|].
  rewrite IH. pose proof (split_slash_nonempty a).
  destruct (split_slash a); [contradiction|reflexivity].
Qed.

Lemma clean_elems_app rooted xs :
  forall stack ys,
    clean_elems rooted stack (xs ++ ys)
    = clean_elems rooted (List.rev (clean_elems rooted stack xs)) ys.
Proof.
  induction xs as [|e xs IH]; intros stack ys; simpl.
  - rewrite rev_involutive. reflexivity.
  - destruct (String.eqb e "" || String.eqb e "."); [apply IH|].
    destruct (String.eqb e ".."); [|apply IH].
    destruct stack as [|top stack']; [destruct rooted; apply IH|].
    destruct (String.eqb top ".."); apply IH.
Qed.

Lemma join_slash_snoc l e :
  join_slash (l ++ [e])
  = ((match l with [] => "" | _ => join_slash l ++ "/" end) ++ e)%string.
Proof.
  induction l as [|x l IH]; [reflexivity|].
  destruct l as [|y l];
    [cbn [app join_slash]; rewrite string_app_assoc; reflexivity|].
  change (join_slash ((x :: y :: l) ++ [e]))
    with (x ++ "/" ++ join_slash ((y :: l) ++ [e]))%string.
  rewrite IH.
  change (join_slash (x :: y :: l))
    with (x ++ "/" ++ join_slash (y :: l))%string.
  rewrite !string_app_assoc. reflexivity.
Qed.

Lemma no_percent_app a b :
  no_percent (a ++ b) = no_percent a && no_percent b.
Proof.
  induction a as [|c a IH]; simpl; [reflexivity|].
  rewrite IH. destruct (Ascii.eqb c "%"); reflexivity.
Qed.

Lemma split_slash_no_percent s :
  no_percent s = true -> Forall (fun e => no_percent e = true) (split_slash s).
Proof.
  induction s as [|c s IH]; simpl; intros H.
  - repeat constructor.
  - destruct (Ascii.eqb c "%") eqn:Ec; [discriminate|]. simpl in H.
    specialize (IH H).
    destruct (Ascii.eqb c "/"); [constructor; [reflexivity|exact IH]|].
    destruct (split_slash s) as [|x xs].
    + repeat constructor. simpl. rewrite Ec. reflexivity.
    + inversion IH; subst. constructor; [|assumption].
      simpl. rewrite Ec. assumption.
Qed.

Lemma clean_elems_no_percent rooted xs :
  forall stack,
    Forall (fun e => no_percent e = true) stack ->
    Forall (fun e => no_percent e = true) xs ->
    Forall (fun e => no_percent e = true) (clean_elems rooted stack xs).
Proof.
  induction xs as [|e xs IH]; intros stack Hs Hx; simpl.
  - apply Forall_rev. exact Hs.
  - inversion Hx; subst.
    destruct (String.eqb e "" || String.eqb e "."); [auto|].
    destruct (String.eqb e "..").
    + destruct stack as [|top stack'].
      * destruct rooted; apply IH; auto.
      * inversion Hs; subst.
        destruct (String.eqb top ".."); apply IH; auto.
    + apply IH; auto.
Qed.

Lemma join_slash_no_percent l :
  Forall (fun e => no_percent e = true) l -> no_percent (join_slash l) = true.
Proof.
  induction 1 as [|x l Hx Hl IH]; [reflexivity|].
  destruct l as [|y l]; [exact Hx|].
  change (join_slash (x :: y :: l))
    with (x ++ "/" ++ join_slash (y :: l))%string.
  rewrite !no_percent_app, Hx, IH. reflexivity.
Qed.

Lemma path_Join_pattern dir :
  no_percent dir = true ->
  exists p,
    no_percent p = true
    /\ path_Join dir "%s.diskqueue.%06d.dat"
       = (p ++ "%s.diskqueue.%06d.dat")%string.
Proof.
  intros Hd. unfold path_Join.
  destruct dir as [|c dir]; [exists EmptyString; split; reflexivity|].
  cbn [String.eqb]. unfold path_Clean.
  set (root := is_rooted
                 (String c dir ++ "/" ++ "%s.diskqueue.%06d.dat")).
  change (String c dir ++ "/" ++ "%s.diskqueue.%06d.dat")%string
    with (String c dir ++ String "/" "%s.diskqueue.%06d.dat")%string.
  rewrite split_slash_app, clean_elems_app.
  change (split_slash "%s.diskqueue.%06d.dat")
    with ["%s.diskqueue.%06d.dat"%string].
  cbn [clean_elems String.eqb Ascii.eqb Bool.eqb orb List.rev].
  rewrite rev_involutive, join_slash_snoc.
  set (l := clean_elems root [] (split_slash (String c dir))).
  assert (Hl : Forall (fun e => no_percent e = true) l).
  { apply clean_elems_no_percent; [constructor|].
    apply split_slash_no_percent. exact Hd. }
  set (pre := match l with
              | [] => EmptyString
              | _ :: _ => (join_slash l ++ "/")%string
              end).
  assert (Hpre : no_percent pre = true).
  { unfold pre. destruct l; [reflexivity|].
    rewrite no_percent_app, join_slash_no_percent by exact Hl. reflexivity. }
  exists ((if root then "/" else "") ++ pre)%string. split.
  - rewrite no_percent_app, Hpre. destruct root; reflexivity.
  - rewrite <- string_app_assoc.
    destruct ((if root then "/" else "") ++ pre)%string; reflexivity.
Qed.

Lemma fmt_tokens_plain p f :
  no_percent p = true ->
  fmt_tokens (p ++ f) = map TLit (list_ascii_of_string p) ++ fmt_tokens f.
Proof.
  induction p as [|c p IH]; simpl; intros H; [reflexivity|].
  destruct (Ascii.eqb c "%"); [discriminate|].
  rewrite IH by exact H. reflexivity.
Qed.

Lemma fmt_render_plain p ts k s n :
  fmt_render (map TLit (list_ascii_of_string p) ++ ts) k s n
  = option_map (append p) (fmt_render ts k s n).
Proof.
  induction p as [|c p IH]; simpl.
  - destruct (fmt_render ts k s n); reflexivity.
  - rewrite IH. destruct (fmt_render ts k s n); reflexivity.
Qed.

(** X22: [fileName] tells file numbers apart.  Where it gives a name to
    one 64-bit file number it gives a name to every other one, and
    different numbers get different names, also numbers of more than six
    digits and negative ones.  For a data path that holds no [%] it
    gives a name to every number: a prefix made from the cleaned path,
    then the name of the topic, [.diskqueue.], the number padded to six
    characters, and [.dat]. *)
Theorem fileName_injective (d : diskQueueReader) (n m : Z) :
  int64 n -> int64 m ->
  (forall s,
     fileName d n = Some s ->
     exists s', fileName d m = Some s' /\ (n <> m -> s <> s'))
  /\ (no_percent (dataPath d) = true ->
      exists p,
        forall k,
          fileName d k
          = Some (p ++ readFrom d ++ ".diskqueue." ++ format_06d k ++ ".dat")
              %string).
Proof.
  intros Hn Hm. unfold fileName, Sprintf_s_06d. split.
  - intros s H.
    destruct (fmt_render_shape _ _ _ _ _ H) as [_ H01].
    destruct (H01 ltac:(lia)) as (p & q & Hpq).
    rewrite Hpq in H. injection H as <-.
    exists (p ++ format_06d m ++ q)%string. split; [apply Hpq|].
    intros Hne E. apply Hne.
    apply string_app_inv_head, string_app_inv_tail in E.
    apply format_06d_inj; assumption.
  - intros Hd.
    destruct (path_Join_pattern (dataPath d) Hd) as (p & Hp & ->).
    exists p. intros k.
    rewrite fmt_tokens_plain, fmt_render_plain by exact Hp.
    cbn [fmt_tokens Ascii.eqb Bool.eqb fmt_render Nat.eqb option_map].
    reflexivity.
Qed.

Lemma fileName_injective_witness :
  fileName fresh_reader 7 = Some "/data/topic.diskqueue.000007.dat"%string
  /\ fileName fresh_reader (-7)
     = Some "/data/topic.diskqueue.-00007.dat"%string
  /\ fileName fresh_reader 1234567
     = Some "/data/topic.diskqueue.1234567.dat"%string
  /\ exists s',
       fileName fresh_reader (-7) = Some s'
       /\ (7 <> -7 -> "/data/topic.diskqueue.000007.dat"%string <> s').
Proof.
  split; [reflexivity|]. split; [reflexivity|]. split; [reflexivity|].
  apply (proj1 (fileName_injective fresh_reader 7 (-7)
                  ltac:(unfold int64, min_int64, max_int64; lia)
                  ltac:(unfold int64, min_int64, max_int64; lia))
           "/data/topic.diskqueue.000007.dat"%string).
  reflexivity.
Defined.

(** X23: a confirm never closes the confirm window.  When nothing
    overflows, a window that is exceeded after [internalConfirm] was
    exceeded before it; and after confirming all that was read (offset
    -1) the window is not exceeded. *)
Theorem confirm_never_closes_window
  (fuel : nat) (fs : dataFiles) (d d' : diskQueueReader)
  (offset : BackendOffset) (err : option error) :
  confirmed_behind_read d ->
  0 <= maxConfirmWin d ->
  int64 (virtualConfirmedOffset d + maxConfirmWin d) ->
  int64 (virtualReadOffset d + maxConfirmWin d) ->
  internalConfirm fuel fs d offset = Some (d', err) ->
  ((add64 (virtualConfirmedOffset d') (maxConfirmWin d')
      <? virtualReadOffset d') = true ->
   (add64 (virtualConfirmedOffset d) (maxConfirmWin d)
      <? virtualReadOffset d) = true)
  /\ (offset = -1 ->
      (add64 (virtualConfirmedOffset d') (maxConfirmWin d')
         <? virtualReadOffset d') = false).
Proof.
  intros [Hpos Hv] Hw Hi1 Hi2 H.
  assert (Hfacts : virtualReadOffset d' = virtualReadOffset d
                   /\ maxConfirmWin d' = maxConfirmWin d
                   /\ virtualConfirmedOffset d <= virtualConfirmedOffset d'
                      <= virtualReadOffset d
                   /\ (offset = -1 ->
                       virtualConfirmedOffset d' = virtualReadOffset d)).
  { revert H. unfold internalConfirm.
    destruct (Z.eqb_spec offset (-1));
      [intros [= <- _]; simpl; repeat split; auto; lia|].
    destruct (Z.leb_spec offset (virtualConfirmedOffset d));
      [intros [= <- _]; repeat split; auto; try lia; contradiction|].
    destruct (Z.gtb_spec offset (virtualReadOffset d));
      [intros [= <- _]; repeat split; auto; try lia; contradiction|].
    destruct (stepOffset _ _ _ _ _) as [[p|e]|]; try discriminate;
      intros [= <- _]; simpl; repeat split; auto; try lia; contradiction. }
  destruct Hfacts as (E1 & E2 & [Hlo Hhi] & Hall).
  rewrite E1, E2.
  assert (Ha : add64 (virtualConfirmedOffset d') (maxConfirmWin d)
               = virtualConfirmedOffset d' + maxConfirmWin d).
  { apply add64_id. unfold int64, min_int64, max_int64 in *. lia. }
  rewrite Ha, (add64_id _ _ Hi1).
  split.
  - rewrite !Z.ltb_lt. lia.
  - intros Hm. apply Z.ltb_ge. rewrite (Hall Hm). lia.
Qed.

Lemma confirm_never_closes_window_witness :
  (add64 (virtualConfirmedOffset confirmed_reader)
     (maxConfirmWin confirmed_reader)
   <? virtualReadOffset confirmed_reader) = false.
Proof.
  apply (proj2 (confirm_never_closes_window 0 rolled_files reading_reader
                  confirmed_reader (-1) None
                  ltac:(split; [left; simpl; lia|simpl; lia])
                  ltac:(simpl; lia)
                  ltac:(unfold int64, min_int64, max_int64; simpl; lia)
                  ltac:(unfold int64, min_int64, max_int64; simpl; lia)
                  eq_refl)).
  reflexivity.
Defined.

(** X24: on a reader that has not exited and whose engine runs (a
    positive sync interval) [Delete] returns no error and leaves a reader
    that has exited and is drained: the exit flag is set, the read file
    is dropped, read and confirmed positions are the end and the depth
    is zero.  Afterwards [ConfirmRead] fails with the exiting error,
    [UpdateQueueEnd] returns at once, and a second [Delete] or a [Close]
    panics, since [exit] closes the exit channel again. *)
Theorem Delete_drains (d : diskQueueReader) :
  exitFlag d <> 1 ->
  0 < syncTimeout d ->
  exists d',
    Delete d = Done (d', None)
    /\ exitFlag d' = 1
    /\ readFile d' = None
    /\ readPos d' = endPos d
    /\ confirmedOffset d' = endPos d
    /\ virtualConfirmedOffset d' = virtualEnd d
    /\ Depth d' = 0
    /\ (forall offset,
          ConfirmRead d' offset = (d', Returned (Some ErrExiting)))
    /\ (forall q, UpdateQueueEnd d' q = (d', Returned None))
    /\ Delete d' = Panicked
    /\ (forall rnd m, Close rnd m d' = Panicked).
Proof.
  intros Hflag _.
  unfold Delete, Close, exit.
  apply Z.eqb_neq in Hflag. rewrite Hflag. cbv zeta.
  eexists. split; [reflexivity|].
  unfold skipToEndofFile. cbv zeta.
  split; [reflexivity|]. split; [reflexivity|]. split; [reflexivity|].
  split; [reflexivity|]. split; [reflexivity|].
  split; [|split; [|split; [|split]]].
  - unfold Depth. simpl.
    destruct (Z.gtb_spec (FileNum (endPos d)) (FileNum (endPos d))); [lia|].
    rewrite Z.eqb_refl. unfold sub64. rewrite Z.sub_diag. reflexivity.
  - intros offset. unfold ConfirmRead. simpl. reflexivity.
  - intros [[q|]|]; unfold UpdateQueueEnd; simpl; reflexivity.
  - reflexivity.
  - intros rnd m. reflexivity.
Qed.

Lemma Delete_drains_witness :
  exists d',
    Delete reading_reader = Done (d', None)
    /\ exitFlag d' = 1
    /\ readFile d' = None
    /\ readPos d' = mkOffset 1 28
    /\ confirmedOffset d' = mkOffset 1 28
    /\ virtualConfirmedOffset d' = 42
    /\ Depth d' = 0
    /\ (forall offset,
          ConfirmRead d' offset = (d', Returned (Some ErrExiting)))
    /\ (forall q, UpdateQueueEnd d' q = (d', Returned None))
    /\ Delete d' = Panicked
    /\ (forall rnd m, Close rnd m d' = Panicked).
Proof.
  apply (Delete_drains reading_reader).
  - simpl; lia.
  - simpl; lia.
Defined.

(** X25: [getVirtualOffsetDistance] is defined forward only.  From an
    offset greater than the target it fails with the invalid-move error;
    within one file it is the difference of the positions; a start file
    that does not exist before the target's file gives the not-exist
    error; and whenever it succeeds the start is not beyond the target. *)
Theorem getVirtualOffsetDistance_defined_forward
  (fs : dataFiles) (a b : diskQueueOffset) :
  (GreatThan a b = true ->
   getVirtualOffsetDistance fs a b = Err ErrMoveOffsetInvalid)
  /\ (FileNum a = FileNum b -> Pos a <= Pos b ->
      getVirtualOffsetDistance fs a b
      = Ok (sub64 (Pos b) (Pos a)))
  /\ (FileNum a < FileNum b -> fs (FileNum a) = None ->
      getVirtualOffsetDistance fs a b = Err ErrNotExist)
  /\ (forall v, getVirtualOffsetDistance fs a b = Ok v -> offset_le a b).
Proof.
  unfold getVirtualOffsetDistance.
  split; [|split; [|split]].
  - intros G. destruct (Z.to_nat _); simpl; rewrite G; reflexivity.
  - intros Hf Hp.
    assert (G : GreatThan a b = false)
      by (apply GreatThan_false; right; lia).
    destruct (Z.to_nat _); simpl; rewrite G;
      (destruct (Z.eqb_spec (FileNum a) (FileNum b)); [reflexivity|lia]).
  - intros Hf Hfs.
    assert (G : GreatThan a b = false)
      by (apply GreatThan_false; left; lia).
    destruct (Z.to_nat _); simpl; rewrite G;
      (destruct (Z.eqb_spec (FileNum a) (FileNum b)); [lia|]);
      unfold getCurrentFileEnd; rewrite Hfs; reflexivity.
  - intros v.
    destruct (Z.to_nat _); simpl;
      destruct (GreatThan a b) eqn:G; try discriminate;
      intros _; apply GreatThan_false; exact G.
Qed.

Lemma getVirtualOffsetDistance_defined_forward_witness :
  getVirtualOffsetDistance rolled_files (mkOffset 1 0) (mkOffset 0 14)
  = Err ErrMoveOffsetInvalid
  /\ getVirtualOffsetDistance rolled_files (mkOffset 2 0) (mkOffset 3 0)
     = Err ErrNotExist
  /\ offset_le (mkOffset 0 4) (mkOffset 1 14).
Proof.
  destruct (getVirtualOffsetDistance_defined_forward rolled_files
              (mkOffset 1 0) (mkOffset 0 14)) as (H1 & _).
  destruct (getVirtualOffsetDistance_defined_forward rolled_files
              (mkOffset 2 0) (mkOffset 3 0)) as (_ & _ & H3 & _).
  destruct (getVirtualOffsetDistance_defined_forward rolled_files
              (mkOffset 0 4) (mkOffset 1 14)) as (_ & _ & _ & H4).
  split; [apply H1; reflexivity|].
  split; [apply H3; [simpl; lia|reflexivity]|].
  apply (H4 24). reflexivity.
Defined.

(** X26: a skip to a virtual offset before the virtual read offset is
    accepted while the file read is the file of the end: the read
    position moves back by the difference, which is not checked against
    the start of the file, and the confirmed position moves with it. *)
Theorem skip_backward_in_file
  (fuel : nat) (fs : dataFiles) (d : diskQueueReader) (v : BackendOffset) :
  FileNum (readPos d) = FileNum (endPos d) ->
  0 <= Pos (readPos d) <= Pos (endPos d) ->
  Pos (endPos d) <= max_int64 ->
  v < virtualReadOffset d ->
  v < virtualEnd d ->
  min_int64 <= v - virtualReadOffset d ->
  exists d',
    internalSkipTo (S fuel) fs d v = Some (d', None)
    /\ readPos d'
       = mkOffset (FileNum (readPos d))
           (Pos (readPos d) - (virtualReadOffset d - v))
    /\ confirmedOffset d' = readPos d'
    /\ virtualReadOffset d' = v
    /\ virtualConfirmedOffset d' = v.
Proof.
  intros Hf Hp He Hv Hve Hmin.
  unfold internalSkipTo. simpl.
  destruct (Z.gtb_spec v (virtualEnd d)); [lia|].
  destruct (Z.eqb_spec v (virtualEnd d)); [lia|].
  assert (Hs : sub64 v (virtualReadOffset d) = v - virtualReadOffset d).
  { apply sub64_id. unfold int64, min_int64, max_int64 in *. lia. }
  rewrite Hs.
  unfold stepOffset.
  destruct (Z.gtb_spec (FileNum (readPos d)) (FileNum (endPos d))); [lia|].
  destruct (Z.eqb_spec (v - virtualReadOffset d) 0); [lia|].
  simpl.
  destruct (Z.ltb_spec (FileNum (readPos d)) (FileNum (endPos d))); [lia|].
  assert (Hd : sub64 (Pos (endPos d)) (Pos (readPos d))
               = Pos (endPos d) - Pos (readPos d)).
  { apply sub64_id. unfold int64, min_int64, max_int64 in *. lia. }
  rewrite Hd.
  destruct (Z.gtb_spec (v - virtualReadOffset d)
              (Pos (endPos d) - Pos (readPos d))); [lia|].
  assert (Ha : add64 (Pos (readPos d)) (v - virtualReadOffset d)
               = Pos (readPos d) - (virtualReadOffset d - v)).
  { rewrite add64_id; [lia|].
    unfold int64, min_int64, max_int64 in *. lia. }
  rewrite Ha.
  destruct (GreatThan _ (endPos d)) eqn:G.
  { apply GreatThan_spec in G. unfold offset_lt in G. simpl in G. lia. }
  eexists. split; [reflexivity|]. simpl. repeat split.
Qed.

Lemma skip_backward_in_file_witness :
  exists d',
    internalSkipTo 1 rolled_files reading_reader 0 = Some (d', None)
    /\ readPos d' = mkOffset 1 (-14)
    /\ confirmedOffset d' = readPos d'
    /\ virtualReadOffset d' = 0
    /\ virtualConfirmedOffset d' = 0.
Proof.
  apply (skip_backward_in_file 0 rolled_files reading_reader 0).
  - reflexivity.
  - simpl; lia.
  - unfold max_int64; simpl; lia.
  - simpl; lia.
  - simpl; lia.
  - unfold min_int64; simpl; lia.
Defined.

(** ** The engine does not panic *)

Lemma handleReadError_minMsgSize fs d :
  minMsgSize (handleReadError fs d) = minMsgSize d.
Proof.
  unfold handleReadError.
  destruct (GreatThan _ (endPos d)); [reflexivity|].
  destruct (getVirtualOffsetDistance fs (readPos d) _); [reflexivity|].
  unfold skipToNextFile. simpl.
  destruct (_ >=? _); reflexivity.
Qed.

Lemma internalSkipTo_minMsgSize fuel fs d v d' err :
  internalSkipTo fuel fs d v = Some (d', err) ->
  minMsgSize d' = minMsgSize d.
Proof.
  unfold internalSkipTo. simpl.
  destruct (v >? virtualEnd d); [intros [= <- _]; reflexivity|].
  destruct (v =? virtualEnd d); [intros [= <- _]; reflexivity|].
  destruct (stepOffset _ _ _ _ _) as [[p|e]|]; try discriminate;
    intros [= <- _]; reflexivity.
Qed.

Lemma internalConfirm_minMsgSize fuel fs d o d' err :
  internalConfirm fuel fs d o = Some (d', err) ->
  minMsgSize d' = minMsgSize d.
Proof.
  unfold internalConfirm.
  destruct (o =? -1); [intros [= <- _]; reflexivity|].
  destruct (o <=? virtualConfirmedOffset d); [intros [= <- _]; reflexivity|].
  destruct (o >? virtualReadOffset d); [intros [= <- _]; reflexivity|].
  destruct (stepOffset _ _ _ _ _) as [[p|e]|]; try discriminate;
    intros [= <- _]; reflexivity.
Qed.

Lemma handleEndUpdated_minMsgSize q d :
  minMsgSize (handleEndUpdated q d) = minMsgSize d.
Proof.
  unfold handleEndUpdated. cbv zeta.
  repeat match goal with
  | |- context [if ?c then _ else _] => destruct c; simpl
  end; reflexivity.
Qed.

Lemma checkTailCorruption_minMsgSize d :
  minMsgSize (checkTailCorruption d) = minMsgSize d.
Proof.
  unfold checkTailCorruption.
  destruct (_ || _); [reflexivity|].
  destruct (negb _); reflexivity.
Qed.

Lemma ioLoop_head_minMsgSize fs rnd e ph :
  ioLoop_head fs rnd e = Done ph ->
  minMsgSize (rd (match ph with AtSelect e' => e' | Continue e' => e' end))
  = minMsgSize (rd e).
Proof.
  unfold ioLoop_head.
  destruct (ioLoop_housekeeping_shape rnd e) as (b & cnt & m & ->).
  unfold ioLoop_readiness. cbn [rd lv mfs rerr continueRead].
  destruct (rerr (lv e)); [intros [= <-]; reflexivity|].
  destruct (_ <? _); [intros [= <-]; reflexivity|].
  destruct (_ || _); [|intros [= <-]; reflexivity].
  destruct (continueRead (lv e)); [|intros [= <-]; reflexivity].
  destruct (readOne fs _) as [[d1 [[off dat] err]]| |] eqn:Hread;
    try discriminate.
  apply readOne_keeps in Hread. unfold read_frame_rel in Hread.
  destruct Hread as (_ & _ & _ & _ & _ & _ & Hmin & _). simpl in Hmin.
  destruct err; [destruct (autoSkipError d1)|]; intros [= <-]; simpl;
    try exact Hmin.
  rewrite handleReadError_minMsgSize. exact Hmin.
Qed.

Lemma ioLoop_select_minMsgSize fuel fs ev e e' rp :
  ioLoop_select fuel fs ev e = Done (e', rp) ->
  minMsgSize (rd e') = minMsgSize (rd e).
Proof.
  unfold ioLoop_select.
  destruct ev as [|v|q|o| |].
  - destruct (r (lv e)); [|intros [= <- _]; reflexivity].
    destruct (rerr (lv e)); intros [= <- _]; simpl; [reflexivity|].
    apply checkTailCorruption_minMsgSize.
  - destruct (internalSkipTo fuel fs (rd e) v) as [[d1 err]|] eqn:Hs;
      [|discriminate].
    intros [= <- _]. simpl. eapply internalSkipTo_minMsgSize; eauto.
  - intros [= <- _]. simpl. apply handleEndUpdated_minMsgSize.
  - destruct (internalConfirm fuel fs (rd e) o) as [[d1 err]|] eqn:Hc;
      [|discriminate].
    intros [= <- _]. simpl. eapply internalConfirm_minMsgSize; eauto.
  - destruct (count (lv e) >? 0); intros [= <- _]; reflexivity.
  - intros [= <- _]. reflexivity.
Qed.

Lemma ioLoop_iter_minMsgSize fuel fs rnd ev e e' rp :
  ioLoop_iter fuel fs rnd ev e = Done (e', rp) ->
  minMsgSize (rd e') = minMsgSize (rd e).
Proof.
  unfold ioLoop_iter.
  destruct (ioLoop_head fs rnd e) as [[e1|e1]| |] eqn:Hhead; try discriminate;
    apply ioLoop_head_minMsgSize in Hhead; simpl in Hhead.
  - intros H. apply ioLoop_select_minMsgSize in H. congruence.
  - intros [= <- _]. exact Hhead.
Qed.

Lemma ioLoop_select_no_panic fuel fs ev e :
  ioLoop_select fuel fs ev e <> Panicked.
Proof.
  unfold ioLoop_select.
  destruct ev as [|v|q|o| |]; try discriminate.
  - destruct (r (lv e)); [destruct (rerr (lv e))|]; discriminate.
  - destruct (internalSkipTo fuel fs (rd e) v) as [[d1 err]|]; discriminate.
  - destruct (internalConfirm fuel fs (rd e) o) as [[d1 err]|]; discriminate.
  - destruct (count (lv e) >? 0); discriminate.
Qed.

Lemma ioLoop_iter_no_panic fuel fs rnd ev e :
  files_ordered (rd e) ->
  0 <= minMsgSize (rd e) ->
  ioLoop_iter fuel fs rnd ev e <> Panicked.
Proof.
  intros (Hr & He & _) Hmin. unfold ioLoop_iter, ioLoop_head.
  destruct (ioLoop_housekeeping_shape rnd e) as (b & cnt & m & ->).
  match goal with
  | |- context [ioLoop_readiness fs ?e1] =>
    destruct (ioLoop_readiness_returns fs e1) as [[e2|e2] ->];
      try assumption
  end.
  - apply ioLoop_select_no_panic.
  - discriminate.
Qed.

(** X27: when the engine panics.  [ioLoop] panics at once when the sync
    interval of the reader is not positive.  With a positive interval and
    a minimum message size that is not negative, started on a reader
    whose read position is in no later file than the end and under end
    updates with 64-bit file numbers, [ioLoop] does not panic; a run that
    completes keeps the minimum message size and sends at most one
    answer per communication. *)
Theorem ioLoop_run_never_panics
  (fuel : nat) (fs : dataFiles) (rnd : Z) (evs : list event)
  (d : diskQueueReader) (m : metaFS) :
  (syncTimeout d <= 0 -> ioLoop fuel fs rnd evs d m = Panicked)
  /\ (0 < syncTimeout d ->
      Forall event_typed evs ->
      files_ordered d ->
      0 <= minMsgSize d ->
      ioLoop fuel fs rnd evs d m <> Panicked
      /\ forall e' rps,
           ioLoop fuel fs rnd evs d m = Done (e', rps) ->
           minMsgSize (rd e') = minMsgSize d
           /\ (List.length rps <= List.length evs)%nat).
Proof.
  unfold ioLoop. split.
  - intros Ht. destruct (Z.leb_spec (syncTimeout d) 0); [reflexivity|lia].
  - intros Ht Hevs Hord Hmsg.
    destruct (Z.leb_spec (syncTimeout d) 0); [lia|].
    change (minMsgSize d)
      with (minMsgSize (rd (mkEngine d loopVars_init m))) in Hmsg |- *.
    change (files_ordered (rd (mkEngine d loopVars_init m))) in Hord.
    generalize dependent (mkEngine d loopVars_init m).
    clear d m Ht H.
    induction Hevs as [|ev evs Hev Hevs IH]; intros e Hinv Hmin.
    + simpl. split; [discriminate|].
      intros e' rps [= <- <-]. split; [reflexivity|simpl; lia].
    + simpl.
      pose proof (ioLoop_iter_no_panic fuel fs rnd ev e Hinv Hmin) as Hnp.
      destruct (ioLoop_iter fuel fs rnd ev e) as [[e1 rp]| |] eqn:Hiter;
        [|contradiction|split; [discriminate|intros; discriminate]].
      pose proof (ioLoop_iter_files_ordered _ _ _ _ _ _ _ Hev Hinv Hiter)
        as Hinv1.
      pose proof (ioLoop_iter_minMsgSize _ _ _ _ _ _ _ Hiter) as Hmin1.
      assert (Hmin' : 0 <= minMsgSize (rd e1)) by lia.
      destruct (IH e1 Hinv1 Hmin') as [Hnp1 Hdone1].
      assert (Hrest : match ioLoop_run fuel fs rnd evs e1 with
                      | Done (e0, rps) => Done (e0, rp :: rps)
                      | Panicked => Panicked
                      | OutOfFuel => OutOfFuel
                      end <> Panicked
                      /\ forall e' rps,
                           match ioLoop_run fuel fs rnd evs e1 with
                           | Done (e0, rps) => Done (e0, rp :: rps)
                           | Panicked => Panicked
                           | OutOfFuel => OutOfFuel
                           end = Done (e', rps) ->
                           minMsgSize (rd e') = minMsgSize (rd e)
                           /\ (List.length rps <= S (List.length evs))%nat).
      { destruct (ioLoop_run fuel fs rnd evs e1) as [[e2 rps2]| |];
          [|contradiction|split; [discriminate|intros; discriminate]].
        split; [discriminate|].
        intros e' rps [= <- <-].
        destruct (Hdone1 e2 rps2 eq_refl) as [E L].
        split; [congruence|simpl; lia]. }
      destruct rp; try exact Hrest.
      split; [discriminate|].
      intros e' rps [= <- <-]. split; [exact Hmin1|simpl; lia].
Qed.

Lemma ioLoop_run_never_panics_witness :
  ioLoop 2 rolled_files 0
    [EvEndUpdated (mkEndInfo 1 28 42 3); EvDeliver; EvDeliver; EvConfirm 28]
    fresh_reader no_meta <> Panicked
  /\ ioLoop 2 rolled_files 0 [EvDeliver]
       (newDiskQueueReader no_meta "topic" "channel" "/data" 1048576 0 1024
          2500 0 false) no_meta
     = Panicked.
Proof.
  split.
  - apply (proj1 (proj2 (ioLoop_run_never_panics 2 rolled_files 0
             [EvEndUpdated (mkEndInfo 1 28 42 3); EvDeliver; EvDeliver;
              EvConfirm 28] fresh_reader no_meta)
             ltac:(simpl; lia)
             ltac:(repeat constructor;
                   unfold int64, min_int64, max_int64; simpl; lia)
             ltac:(unfold files_ordered, int64, min_int64, max_int64;
                   simpl; lia)
             ltac:(simpl; lia))).
  - apply (proj1 (ioLoop_run_never_panics 2 rolled_files 0 [EvDeliver]
             (newDiskQueueReader no_meta "topic" "channel" "/data" 1048576
                0 1024 2500 0 false) no_meta)).
    simpl; lia.
Defined.
